(** * EXIF MCP server: a shallow embedding of [index.js] and its properties

    The development follows the layout of the source file: the string and
    path primitives the handlers rely on, the validation functions
    (lines 15-60), the tool handlers of the [CallToolRequestSchema] switch
    (lines 257-738) and the KML helpers (lines 741-869).

    Conventions.
    - A JavaScript string is a [string]; its characters are the code units
      below 256.
    - A JavaScript number is an IEEE-754 binary64 value, a [float].
    - A thrown exception is the [Throw] branch of [Result].
    - The file system, the clock and the [exifr] library are explicit:
      the file system is a value of type [FS] threaded through the
      handlers; a file carries what [exifr] extracts from it under each
      options object; the working directory, the clock and the length
      limits of the file system make up the [World] a handler runs in.
    - A loop without a bound in the source runs on fuel; a handler that
      contains one returns an [option], and [None] stands for a loop that
      does not stop. The loops are proved to stop.
    - Paths follow the POSIX flavour of Node's [path] module.
    - Tool arguments have the types of the tool schemas, with the schema
      defaults filled in by the caller. *)

From Stdlib Require Import ZArith Ascii String List Bool Lia.
From Stdlib Require Import Floats.PrimFloat Floats.FloatOps Floats.SpecFloat.
From Stdlib Require Import Numbers.DecimalString Numbers.DecimalNat.
From Stdlib Require Uint63.
From stdpp Require Import gmap strings list sorting.

Local Open Scope Z_scope.
Set Warnings "-register-all".

(* ================================================================== *)
(** * Part I. The embedding *)
(* ================================================================== *)

(** ** Exceptions *)

Inductive JsError : Type :=
| Error (message : string)
| TypeError (message : string)
| ReferenceError (message : string).

Definition error_message (e : JsError) : string :=
  match e with
  | Error m | TypeError m | ReferenceError m => m
  end.

Inductive Result (A : Type) : Type :=
| Ok (a : A)
| Throw (e : JsError).
Arguments Ok {A} a.
Arguments Throw {A} e.

Definition bind {A B : Type} (r : Result A) (k : A -> Result B) : Result B :=
  match r with
  | Ok a => k a
  | Throw e => Throw e
  end.

Declare Scope js_scope.
Delimit Scope js_scope with js.
Notation "x <- c1 ;; c2" := (bind c1 (fun x => c2))
  (at level 100, c1 at next level, right associativity) : js_scope.
Notation "c1 ;;; c2" := (bind c1 (fun _ => c2))
  (at level 100, right associativity) : js_scope.

(** ** String primitives *)

Module JsStr.

(** The line feed and the double quote, as one-character strings. *)
Definition nl : string := String "010"%char EmptyString.
Definition dq : string := String "034"%char EmptyString.

(** A character of the report texts that lies outside the code units
    below 256 (a pictograph, an arrow) stands as its code point. *)
Definition glyph (codepoint : string) : string := "[U+" +:+ codepoint +:+ "]".

Definition chars (s : string) : list ascii := list_ascii_of_string s.
Definition of_chars (l : list ascii) : string := string_of_list_ascii l.

(** [s.startsWith(p)] *)
Definition startsWith (s p : string) : bool := String.prefix p s.

(** [s.endsWith(p)] *)
Definition endsWith (s p : string) : bool :=
  String.prefix (of_chars (rev (chars p))) (of_chars (rev (chars s))).

(** [s.includes(p)] *)
Fixpoint includes (s p : string) : bool :=
  String.prefix p s ||
  match s with
  | EmptyString => false
  | String _ s' => includes s' p
  end.

(** [s.trim()] on the white space of [is_space]. *)
Definition is_space (c : ascii) : bool :=
  match c with
  | "009" | "010" | "011" | "012" | "013" | " " | "160" => true
  | _ => false
  end%char.

Fixpoint trimStart (s : string) : string :=
  match s with
  | String c s' => if is_space c then trimStart s' else s
  | EmptyString => EmptyString
  end.

Definition trim (s : string) : string :=
  of_chars (rev (chars (trimStart (of_chars (rev (chars (trimStart s))))))).

(** [s.padStart(n, "0")] *)
Fixpoint zeros (n : nat) : string :=
  match n with
  | O => EmptyString
  | S n' => String "0" (zeros n')
  end.

Definition padStart0 (n : nat) (s : string) : string :=
  zeros (n - String.length s) +:+ s.

(** Decimal rendering of an integer-valued number ([n.toString()]). *)
Definition of_nat (n : nat) : string :=
  NilEmpty.string_of_uint (Nat.to_uint n).

Definition of_Z (z : Z) : string :=
  match z with
  | Z0 => "0"
  | Zpos p => NilEmpty.string_of_uint (Pos.to_uint p)
  | Zneg p => "-" +:+ NilEmpty.string_of_uint (Pos.to_uint p)
  end.

(** [s.repeat(n)] *)
Fixpoint repeat (s : string) (n : nat) : string :=
  match n with
  | O => EmptyString
  | S n' => s +:+ repeat s n'
  end.

(** [parts.join(sep)] *)
Fixpoint join (sep : string) (parts : list string) : string :=
  match parts with
  | [] => EmptyString
  | [p] => p
  | p :: rest => p +:+ sep +:+ join sep rest
  end.

(** [s.split(c)] for a one-character separator: the pieces between
    separators, empty pieces included. *)
Fixpoint split (sep : ascii) (s : string) : list string :=
  match s with
  | EmptyString => [EmptyString]
  | String c s' =>
      if Ascii.eqb c sep then EmptyString :: split sep s'
      else match split sep s' with
           | seg :: rest => String c seg :: rest
           | [] => [String c EmptyString]
           end
  end.

(** *** Replacement

    [GetSubstitution] for a pattern without capture groups: in the
    replacement text [$$] stands for a dollar sign, [$&] for the match,
    [$`] for the text before the match and [$'] for the text after it;
    any other dollar sign is literal. *)
Fixpoint getSubstitution (matched before after replacement : string) : string :=
  match replacement with
  | EmptyString => EmptyString
  | String c tl =>
      if Ascii.eqb c "$" then
        match tl with
        | String d r =>
            if Ascii.eqb d "$" then String "$" (getSubstitution matched before after r)
            else if Ascii.eqb d "&" then matched +:+ getSubstitution matched before after r
            else if Ascii.eqb d "`" then before +:+ getSubstitution matched before after r
            else if Ascii.eqb d "'" then after +:+ getSubstitution matched before after r
            else String c (getSubstitution matched before after tl)
        | EmptyString => String c EmptyString
        end
      else String c (getSubstitution matched before after tl)
  end.

Fixpoint drop_str (n : nat) (s : string) : string :=
  match n, s with
  | S n', String _ s' => drop_str n' s'
  | _, _ => s
  end.

(** [s.replace(/pat/g, replacement)] for a pattern [pat] that matches
    itself literally and is not empty. [before] is the text already
    scanned (reversed), [skip] the characters of the current match still
    to be passed over. *)
Fixpoint replaceAll_from (pat replacement : string) (before : list ascii)
         (skip : nat) (s : string) : string :=
  match s with
  | EmptyString => EmptyString
  | String c s' =>
      match skip with
      | S k => replaceAll_from pat replacement (c :: before) k s'
      | O =>
          if String.prefix pat s then
            getSubstitution pat (of_chars (rev before))
                            (drop_str (String.length pat) s) replacement
            +:+ replaceAll_from pat replacement (c :: before)
                                (String.length pat - 1) s'
          else String c (replaceAll_from pat replacement (c :: before) O s')
      end
  end.

Definition replaceAll (pat replacement s : string) : string :=
  replaceAll_from pat replacement [] O s.

(** [s.replace(pat, replacement)] for a string pattern: the first
    occurrence only. *)
Fixpoint replaceFirst_from (pat replacement : string) (before : list ascii)
         (s : string) : string :=
  if String.prefix pat s then
    getSubstitution pat (of_chars (rev before))
                    (drop_str (String.length pat) s) replacement
    +:+ drop_str (String.length pat) s
  else
    match s with
    | EmptyString => EmptyString
    | String c s' => String c (replaceFirst_from pat replacement (c :: before) s')
    end.

Definition replaceFirst (pat replacement s : string) : string :=
  replaceFirst_from pat replacement [] s.

(** [s.replace(/c/g, rep)] for a single character [c] and a replacement
    without dollar signs. *)
Fixpoint replaceChar (c : ascii) (rep : string) (s : string) : string :=
  match s with
  | EmptyString => EmptyString
  | String x s' =>
      if Ascii.eqb x c then rep +:+ replaceChar c rep s'
      else String x (replaceChar c rep s')
  end.

(** [s.replace(/[class]/g, rep)] for a character class. *)
Fixpoint replaceClass (cls : ascii -> bool) (rep : string) (s : string) : string :=
  match s with
  | EmptyString => EmptyString
  | String x s' =>
      if cls x then rep +:+ replaceClass cls rep s'
      else String x (replaceClass cls rep s')
  end.

(** [s.replace(/[class]+/g, rep)]: every maximal run of characters of
    the class becomes one [rep]. *)
Fixpoint replaceRuns_from (cls : ascii -> bool) (rep : string) (inRun : bool)
         (s : string) : string :=
  match s with
  | EmptyString => EmptyString
  | String x s' =>
      if cls x then
        (if inRun then replaceRuns_from cls rep true s'
         else rep +:+ replaceRuns_from cls rep true s')
      else String x (replaceRuns_from cls rep false s')
  end.

Definition replaceRuns (cls : ascii -> bool) (rep : string) (s : string) : string :=
  replaceRuns_from cls rep false s.

(** [s.replace(/_{2,}/g, "_")]: a run of two or more underscores becomes
    one underscore (a single underscore is kept as it is). *)
Fixpoint squeezeUnderscores (s : string) : string :=
  match s with
  | EmptyString => EmptyString
  | String x s' =>
      if Ascii.eqb x "_" then
        match s' with
        | String y _ =>
            if Ascii.eqb y "_" then squeezeUnderscores s'
            else String x (squeezeUnderscores s')
        | EmptyString => String x EmptyString
        end
      else String x (squeezeUnderscores s')
  end.

(** [s.replace(/^_|_$/g, "")]: one leading and one trailing underscore
    are removed. *)
Definition stripLeading_ (s : string) : string :=
  match s with
  | String x s' => if Ascii.eqb x "_" then s' else s
  | EmptyString => EmptyString
  end.

Definition stripEdgeUnderscores (s : string) : string :=
  let s1 := stripLeading_ s in
  (* after a leading match the scan resumes behind it, so the trailing
     alternative is tried on what is left *)
  of_chars (rev (chars (stripLeading_ (of_chars (rev (chars s1)))))).

(** [\w] *)
Definition is_word (c : ascii) : bool :=
  let n := nat_of_ascii c in
  ((48 <=? n) && (n <=? 57) || (65 <=? n) && (n <=? 90)
   || (97 <=? n) && (n <=? 122) || (n =? 95))%nat.

(** [s.toLowerCase()]: the letters A-Z and the capital letters of the
    upper half of the code units (192-222, the sign 215 apart). *)
Definition lower (c : ascii) : ascii :=
  let n := nat_of_ascii c in
  if ((65 <=? n) && (n <=? 90)
      || (192 <=? n) && (n <=? 222) && negb (n =? 215))%nat
  then ascii_of_nat (n + 32) else c.

Fixpoint toLowerCase (s : string) : string :=
  match s with
  | EmptyString => EmptyString
  | String x s' => String (lower x) (toLowerCase s')
  end.

End JsStr.

(** ** Numbers

    [Number] values are binary64 floats. The two renderings the handlers
    use, [x.toFixed(f)] and the default conversion to a string, are computed
    exactly from the value [m * 2^e] of the float. *)

Module Num.

(** Truthiness of a number: zero (of either sign) and NaN are falsy. *)
Definition truthy (x : float) : bool :=
  negb (PrimFloat.is_zero x || PrimFloat.is_nan x).

Definition pow10 (n : Z) : Z := 10 ^ n.
Definition pos_part (z : Z) : Z := Z.max z 0.
Definition neg_part (z : Z) : Z := Z.max (- z) 0.

Definition digits (n : Z) : string := JsStr.of_Z n.

(** [s * 10^q ?= b * 2^e] for non-negative [s] and [b]. *)
Definition cmp_dec_bin (s q b e : Z) : comparison :=
  (s * pow10 (pos_part q) * 2 ^ neg_part e
   ?= b * 2 ^ pos_part e * pow10 (neg_part q)).

(** [floor (b * 2^e / 10^q)] *)
Definition floor_scaled (b e q : Z) : Z :=
  (b * 2 ^ pos_part e * pow10 (neg_part q))
  / (2 ^ neg_part e * pow10 (pos_part q)).

(** *** [toFixed] *)

Definition insert_point (f : nat) (m : string) : string :=
  match f with
  | O => m
  | _ =>
      let m' := JsStr.padStart0 (S f) m in
      let k := String.length m' in
      String.substring 0 (k - f) m' +:+ "." +:+ String.substring (k - f) f m'
  end.

(** The decimal exponent [n] with [10^(n-1) <= x < 10^n], searched
    upwards from [lo]. *)
Fixpoint find_exp10 (fuel : nat) (lo : Z) (b e : Z) : Z :=
  match fuel with
  | O => lo
  | S fuel' =>
      match cmp_dec_bin 1 lo b e with
      | Gt => lo
      | _ => find_exp10 fuel' (lo + 1) b e
      end
  end.

Fixpoint strip_zeros (fuel : nat) (s : Z) : Z :=
  match fuel with
  | O => s
  | S fuel' => if (s mod 10 =? 0) && (0 <? s) then strip_zeros fuel' (s / 10) else s
  end.

(** The shortest digit string that reads back as the float: [k] digits
    are tried for [k = 1, 2, ...]; with [k] digits the two multiples of
    [10^(n-k)] around the value are the candidates; a candidate is
    accepted when it lies in the rounding interval of the float, the
    nearer one first. The float is [xm * 2^e4], its interval
    [[lm * 2^e4, hm * 2^e4]], closed when [closed]. *)
Definition in_interval (closed : bool) (lm hm e4 s q : Z) : bool :=
  match cmp_dec_bin s q lm e4, cmp_dec_bin s q hm e4 with
  | Gt, Lt => true
  | Eq, Lt | Gt, Eq => closed
  | _, _ => false
  end.

Fixpoint shortest (fuel : nat) (k : Z) (closed : bool) (xm lm hm e4 n : Z)
  : Z * Z :=
  let q := n - k in
  let lo := floor_scaled xm e4 q in
  let hi := lo + 1 in
  let lo_ok := in_interval closed lm hm e4 lo q in
  let hi_ok := in_interval closed lm hm e4 hi q in
  let pick :=
    match lo_ok, hi_ok with
    | true, false => Some lo
    | false, true => Some hi
    | true, true =>
        match cmp_dec_bin (2 * lo + 1) q (2 * xm) e4 with
        | Gt => Some lo
        | Lt => Some hi
        | Eq => Some (if Z.even lo then lo else hi)
        end
    | false, false => None
    end in
  match pick, fuel with
  | Some s, _ => (s, q)
  | None, S fuel' => shortest fuel' (k + 1) closed xm lm hm e4 n
  | None, O => (lo, q)
  end.

Definition exp_suffix (n : Z) : string :=
  "e" +:+ (if 0 <=? n - 1 then "+" else "-") +:+ digits (Z.abs (n - 1)).

(** [Number::toString] for a positive finite value [m * 2^e]. *)
Definition positive_toString (m : positive) (e : Z) : string :=
  let xm := 4 * Zpos m in
  let e4 := e - 2 in
  let hm := xm + 2 in
  let lm := if (Zpos m =? 2 ^ 52) && (-1074 <? e) then xm - 1 else xm - 2 in
  let closed := Z.even (Zpos m) in
  let n0 := find_exp10 700 (-330) xm e4 in
  let '(s0, q) := shortest 17 1 closed xm lm hm e4 n0 in
  let s := strip_zeros 20 s0 in
  let d := digits s in
  let k := Z.of_nat (String.length d) in
  let n := q + Z.of_nat (String.length (digits s0)) in
  if (k <=? n) && (n <=? 21) then d +:+ JsStr.zeros (Z.to_nat (n - k))
  else if (0 <? n) && (n <=? 21) then
    String.substring 0 (Z.to_nat n) d +:+ "." +:+
    String.substring (Z.to_nat n) (Z.to_nat (k - n)) d
  else if (-6 <? n) && (n <=? 0) then
    "0." +:+ JsStr.zeros (Z.to_nat (- n)) +:+ d
  else if k =? 1 then d +:+ exp_suffix n
  else String.substring 0 1 d +:+ "." +:+
       String.substring 1 (Z.to_nat (k - 1)) d +:+ exp_suffix n.

(** [String(x)], [`${x}`] *)
Definition toString (x : float) : string :=
  match Prim2SF x with
  | S754_nan => "NaN"
  | S754_zero _ => "0"
  | S754_infinity false => "Infinity"
  | S754_infinity true => "-Infinity"
  | S754_finite sign m e =>
      (if sign then "-" else "") +:+ positive_toString m e
  end.

(** [x.toFixed(f)]: the integer [n] nearest to [x * 10^f] (the larger
    one on a tie), with a decimal point before its last [f] digits. *)
Definition toFixed (x : float) (f : nat) : string :=
  match Prim2SF x with
  | S754_finite sign m e =>
      match cmp_dec_bin 1 21 (Zpos m) e with
      | Gt =>
          let scaled := Zpos m * pow10 (Z.of_nat f) in
          let n := if 0 <=? e then scaled * 2 ^ e
                   else (2 * scaled + 2 ^ (- e)) / 2 ^ (- e + 1) in
          (if sign then "-" else "") +:+ insert_point f (digits n)
      | _ => toString x
      end
  | S754_zero _ => insert_point f "0"
  | _ => toString x
  end.

End Num.

(** ** Node's [path] module (POSIX) *)

Module Path.
Import JsStr.

Definition sep : ascii := "/"%char.

Definition isAbsolute (p : string) : bool :=
  match p with
  | String c _ => Ascii.eqb c sep
  | EmptyString => false
  end.

(** [p.charCodeAt(p.length - 1) === CHAR_FORWARD_SLASH] *)
Fixpoint ends_with_sep (p : string) : bool :=
  match p with
  | EmptyString => false
  | String c EmptyString => Ascii.eqb c sep
  | String _ p' => ends_with_sep p'
  end.

(** One step of [normalizeString]: the segments kept so far are a stack
    (last segment first). Empty segments and [.] are dropped, [..] removes
    the segment before it, and is kept only when the path is relative and
    there is nothing left to remove. *)
Definition norm_step (allowAboveRoot : bool) (stack : list string) (seg : string)
  : list string :=
  if String.eqb seg "" || String.eqb seg "." then stack
  else if String.eqb seg ".." then
    match stack with
    | top :: rest =>
        if String.eqb top ".."
        then (if allowAboveRoot then ".." :: stack else stack)
        else rest
    | [] => if allowAboveRoot then [".."] else []
    end
  else seg :: stack.

Definition normalizeString (p : string) (allowAboveRoot : bool) : string :=
  join "/" (rev (fold_left (norm_step allowAboveRoot) (split sep p) [])).

(** [path.normalize] *)
Definition normalize (p : string) : string :=
  if String.eqb p "" then "."
  else
    let isAbs := isAbsolute p in
    let trailing := ends_with_sep p in
    let body := normalizeString p (negb isAbs) in
    if String.eqb body "" then
      (if isAbs then "/" else if trailing then "./" else ".")
    else
      let body := if trailing then body +:+ "/" else body in
      if isAbs then "/" +:+ body else body.

(** [path.join(...args)] *)
Definition joined (args : list string) : string :=
  JsStr.join "/" (List.filter (fun a => negb (String.eqb a "")) args).

Definition join (args : list string) : string :=
  if String.eqb (joined args) "" then "." else normalize (joined args).

(** [path.resolve(p)] in a process whose working directory is [cwd]. *)
Definition resolve (cwd p : string) : string :=
  let r1 := if String.eqb p "" then "" else p +:+ "/" in
  let abs1 := isAbsolute p in
  let r2 := if abs1 then r1 else cwd +:+ "/" +:+ r1 in
  let abs2 := abs1 || isAbsolute cwd in
  let body := normalizeString r2 (negb abs2) in
  if abs2 then "/" +:+ body
  else if String.eqb body "" then "." else body.

(** The last segment of a path, scanned from its end: trailing
    separators are skipped, the segment stops at the next separator. *)
Fixpoint drop_seps (l : list ascii) : list ascii :=
  match l with
  | c :: l' => if Ascii.eqb c sep then drop_seps l' else l
  | [] => []
  end.

Fixpoint take_seg (l : list ascii) : list ascii :=
  match l with
  | c :: l' => if Ascii.eqb c sep then [] else c :: take_seg l'
  | [] => []
  end.

Definition rev_last_segment (p : string) : list ascii :=
  take_seg (drop_seps (rev (chars p))).

(** [path.basename(p)] *)
Definition basename (p : string) : string :=
  of_chars (rev (rev_last_segment p)).

(** [path.extname(p)]: from the last dot of the last segment, unless
    there is no dot, the dot opens the segment, or the segment is [..]. *)
Fixpoint upto_dot (l : list ascii) : option (list ascii * list ascii) :=
  match l with
  | [] => None
  | c :: l' =>
      if Ascii.eqb c "."%char then Some ([], l')
      else match upto_dot l' with
           | Some (a, b) => Some (c :: a, b)
           | None => None
           end
  end.

Definition extname (p : string) : string :=
  match upto_dot (rev_last_segment p) with
  | None => ""
  | Some (_, []) => ""
  | Some ([], ["."%char]) => ""
  | Some (after, _) => of_chars ("."%char :: rev after)
  end.

(** [path.basename(p, suffix)] *)
Fixpoint is_prefix_of (a b : list ascii) : bool :=
  match a, b with
  | [], _ => true
  | x :: a', y :: b' => Ascii.eqb x y && is_prefix_of a' b'
  | _ :: _, [] => false
  end.

Definition basename_ext (p suffix : string) : string :=
  if String.eqb suffix "" || (String.length p <? String.length suffix)%nat
  then basename p
  else if String.eqb suffix p then ""
  else
    let rseg := rev_last_segment p in
    let rsuf := rev (chars suffix) in
    if is_prefix_of rsuf rseg then
      (if (length rseg =? length rsuf)%nat then of_chars (rev rseg)
       else of_chars (rev (drop (length rsuf) rseg)))
    else if is_prefix_of rseg rsuf then
      (* the scan ran out of segment before the suffix was decided:
         Node then keeps everything up to the end of the path *)
      of_chars (rev rseg ++ rev (take (length (chars p) - length (drop_seps (rev (chars p))))
                                      (rev (chars p))))
    else of_chars (rev rseg).

(** [path.dirname(p)] *)
Fixpoint dirname_scan (l : list ascii) (matchedSlash : bool) : option (list ascii) :=
  match l with
  | [] => None
  | c :: rest =>
      if Ascii.eqb c sep
      then (if matchedSlash then dirname_scan rest true else Some rest)
      else dirname_scan rest false
  end.

Definition dirname (p : string) : string :=
  match chars p with
  | [] => "."
  | c0 :: tl =>
      let hasRoot := Ascii.eqb c0 sep in
      match dirname_scan (rev tl) true with
      | None => if hasRoot then "/" else "."
      | Some [] => if hasRoot then "//" else of_chars [c0]
      | Some before => of_chars (c0 :: rev before)
      end
  end.

End Path.

(** ** Validation functions (lines 15-44) *)

Definition InvalidInput : JsError := Error "Invalid file path provided".
Definition PathTraversal : JsError := Error "Path traversal detected - access denied".

(** [validateFilePath]. The argument is a string (the tool schema's type);
    the empty string is the falsy one. *)
Definition validateFilePath (cwd filepath : string) : Result string :=
  if String.eqb filepath "" then Throw InvalidInput
  else
    let absolutePath := Path.resolve cwd filepath in
    if JsStr.includes absolutePath ".." || negb (JsStr.startsWith absolutePath cwd)
    then Throw PathTraversal
    else Ok absolutePath.

(** ** Dates, metadata, files

    A [Date] object is the record of what its methods return in the
    process's time zone and locale. *)

Record JsDate : Type := {
  getTime : Z;              (* milliseconds since the epoch *)
  getFullYear : Z;
  getMonth : Z;             (* 0-11 *)
  getDate : Z;
  getHours : Z;
  getMinutes : Z;
  getSeconds : Z;
  toLocaleString : string;
  toISOString : string
}.

(** The fields of [exifr]'s output that the handlers read. An absent
    field is [None] ([undefined]). *)
Module Exif.
Record Data : Type := {
  latitude : option float;
  longitude : option float;
  altitude : option float;
  DateTimeOriginal : option JsDate;
  CreateDate : option JsDate;
  Make : option string;
  Model : option string;
  LensModel : option string;
  City : option string;
  Country : option string;
  Country_PrimaryLocationName : option string
}.
End Exif.
Abbreviation ExifData := Exif.Data.

(** The options object handed to [exifr.parse]; a key left out is [None]. *)
Record ParseOptions : Type := {
  opt_gps : option bool;
  opt_thumbnail : option bool;
  opt_xmp : option bool;
  opt_icc : option bool;
  opt_iptc : option bool;
  opt_pick : option (list string)
}.

Inductive ParseOutcome : Type :=
| ParseFails (e : JsError)          (* the promise rejects *)
| NoMetadata                        (* it resolves to [undefined] *)
| Metadata (d : ExifData).

(** The object [exifr.gps] resolves to. *)
Record GpsData : Type := {
  gps_latitude : option float;
  gps_longitude : option float;
  gps_altitude : option float
}.

Inductive GpsOutcome : Type :=
| GpsFails (e : JsError)
| NoGps
| Gps (g : GpsData).

(** A file is what [exifr] makes of it: what [exifr.parse] resolves to
    under each options object, and what [exifr.gps] resolves to. *)
Record File : Type := {
  exifr_parse : ParseOptions -> ParseOutcome;
  exifr_gps : GpsOutcome
}.

(** ** Truthiness and [||] *)

Definition truthy_num (x : option float) : bool :=
  match x with
  | Some v => Num.truthy v
  | None => false
  end.

Definition truthy_str (s : string) : bool := negb (String.eqb s "").

(** [x || d] for an optional string [x] and a string [d]. *)
Definition or_str (x : option string) (d : string) : string :=
  match x with
  | Some s => if truthy_str s then s else d
  | None => d
  end.

(** [x || d] for an optional number. *)
Definition or_num (x : option float) (d : float) : float :=
  match x with
  | Some v => if Num.truthy v then v else d
  | None => d
  end.

(** [a || b || c] for optional [Date] objects (an object is truthy). *)
Definition or_date (a b : option JsDate) (c : JsDate) : JsDate :=
  match a, b with
  | Some d, _ => d
  | None, Some d => d
  | None, None => c
  end.

(** ** The file system and the world around a handler *)

Record FS : Type := {
  files : gmap string File;      (* regular files, by absolute path *)
  dirs : gset string;            (* directories *)
  readonly : gset string         (* directories whose entries cannot change *)
}.

Record World : Type := {
  cwd : string;                  (* [process.cwd()] *)
  now_at_start : JsDate;         (* the clock when the handler starts *)
  now_at_item : nat -> JsDate;   (* the clock while the i-th input is processed *)
  name_max : nat;                (* longest name of a directory entry, in bytes *)
  path_max : nat                 (* longest path, in bytes *)
}.

Module Fs.

Definition key (w : World) (p : string) : string := Path.resolve (cwd w) p.

Definition is_file (fs : FS) (k : string) : bool := bool_decide (is_Some (files fs !! k)).
Definition is_dir (fs : FS) (k : string) : bool := bool_decide (k ∈ dirs fs).
Definition is_readonly (fs : FS) (k : string) : bool := bool_decide (k ∈ readonly fs).

(** [existsSync(p)] *)
Definition existsSync (w : World) (fs : FS) (p : string) : bool :=
  is_file fs (key w p) || is_dir fs (key w p).

Definition ENOENT (op p : string) : JsError :=
  Error ("ENOENT: no such file or directory, " +:+ op +:+ " '" +:+ p +:+ "'").
Definition EACCES (op p : string) : JsError :=
  Error ("EACCES: permission denied, " +:+ op +:+ " '" +:+ p +:+ "'").
Definition EISDIR (op p : string) : JsError :=
  Error ("EISDIR: illegal operation on a directory, " +:+ op +:+ " '" +:+ p +:+ "'").
Definition EEXIST (op p : string) : JsError :=
  Error ("EEXIST: file already exists, " +:+ op +:+ " '" +:+ p +:+ "'").
Definition ENAMETOOLONG (op p : string) : JsError :=
  Error ("ENAMETOOLONG: name too long, " +:+ op +:+ " '" +:+ p +:+ "'").

(** The length of a text in bytes, as the operating system counts it: a
    code unit from 128 on takes two bytes in UTF-8. *)
Fixpoint byte_length (s : string) : nat :=
  match s with
  | EmptyString => O
  | String c s' => ((if (nat_of_ascii c <? 128)%nat then 1 else 2) + byte_length s')%nat
  end.

(** The path is longer than the system takes. *)
Definition path_too_long (w : World) (k : string) : bool :=
  (path_max w <? byte_length k)%nat.

(** The last name of the path is longer than a directory entry may be. *)
Definition name_too_long (w : World) (k : string) : bool :=
  (name_max w <? byte_length (Path.basename k))%nat.

(** [rename(src, dst)] for a regular file: the entry moves, silently
    replacing a file already at [dst]; renaming a file onto itself does
    nothing. The target must fit the length limits, its directory must
    exist, and both directories must accept changes. *)
Definition rename (w : World) (fs : FS) (src dst : string) : Result FS :=
  let s := key w src in
  let d := key w dst in
  match files fs !! s with
  | None => Throw (ENOENT "rename" (src +:+ "' -> '" +:+ dst))
  | Some f =>
      if String.eqb s d then Ok fs
      else if path_too_long w d
      then Throw (ENAMETOOLONG "rename" (src +:+ "' -> '" +:+ dst))
      else if negb (is_dir fs (Path.dirname d))
      then Throw (ENOENT "rename" (src +:+ "' -> '" +:+ dst))
      else if name_too_long w d
      then Throw (ENAMETOOLONG "rename" (src +:+ "' -> '" +:+ dst))
      else if is_readonly fs (Path.dirname s) || is_readonly fs (Path.dirname d)
      then Throw (EACCES "rename" (src +:+ "' -> '" +:+ dst))
      else if is_dir fs d
      then Throw (EISDIR "rename" (src +:+ "' -> '" +:+ dst))
      else Ok {| files := <[d := f]> (delete s (files fs));
                 dirs := dirs fs;
                 readonly := readonly fs |}
  end.

(** The directories above [k], nearest first. *)
Fixpoint ancestors (fuel : nat) (k : string) : list string :=
  match fuel with
  | O => []
  | S fuel' =>
      let d := Path.dirname k in
      if String.eqb d k then [] else d :: ancestors fuel' d
  end.

(** [mkdir(p, { recursive: true })] *)
Definition mkdir_p (w : World) (fs : FS) (p : string) : Result FS :=
  let k := key w p in
  let chain := k :: ancestors (String.length k) k in
  let missing := List.filter (fun a => negb (is_dir fs a)) chain in
  if existsb (is_file fs) chain then Throw (EEXIST "mkdir" p)
  else if path_too_long w k || existsb (name_too_long w) missing
  then Throw (ENAMETOOLONG "mkdir" p)
  else if existsb (fun a => is_readonly fs (Path.dirname a)) missing
  then Throw (EACCES "mkdir" p)
  else Ok {| files := files fs;
             dirs := dirs fs ∪ list_to_set missing;
             readonly := readonly fs |}.

(** The number of paths in use. *)
Definition occupied (fs : FS) : gset string := dom (files fs) ∪ dirs fs.

End Fs.

(** ** The [exifr] entry points *)

Definition exifr_parse_at (w : World) (fs : FS) (p : string) (o : ParseOptions)
  : Result (option ExifData) :=
  match files fs !! Fs.key w p with
  | None => Throw (Fs.ENOENT "open" p)
  | Some f =>
      match exifr_parse f o with
      | ParseFails e => Throw e
      | NoMetadata => Ok None
      | Metadata d => Ok (Some d)
      end
  end.

Definition exifr_gps_at (w : World) (fs : FS) (p : string) : Result (option GpsData) :=
  match files fs !! Fs.key w p with
  | None => Throw (Fs.ENOENT "open" p)
  | Some f =>
      match exifr_gps f with
      | GpsFails e => Throw e
      | NoGps => Ok None
      | Gps g => Ok (Some g)
      end
  end.

(** [validateFileExists] *)
Definition validateFileExists (w : World) (fs : FS) (filepath : string) : Result unit :=
  if Fs.existsSync w fs filepath then Ok tt
  else Throw (Error ("File not found: " +:+ filepath)).

(** [validateImageFile] *)
Definition allowedExts : list string :=
  [".jpg"; ".jpeg"; ".png"; ".tiff"; ".tif"; ".heic"; ".heif"; ".webp"; ".avif"].

Definition validateImageFile (filepath : string) : Result unit :=
  let ext := JsStr.toLowerCase (Path.extname filepath) in
  if existsb (String.eqb ext) allowedExts then Ok tt
  else Throw (Error ("Unsupported file type: " +:+ ext +:+ ". Supported types: "
                     +:+ JsStr.join ", " allowedExts)).

(** ** Unbounded probing loops

    [createSafeBackupDir] and the duplicate check of [rename_by_exif] both
    try [current], then [cand 1], [cand 2], ... until a candidate is not
    [busy]. The loops have no bound in the source; here they run on fuel,
    and [None] stands for a loop that has not stopped when the fuel is
    spent. The callers give as much fuel as there are paths in use, plus
    one. *)

Fixpoint probe (busy : string -> bool) (cand : nat -> string)
         (fuel k : nat) (current : string) : option string :=
  if busy current then
    match fuel with
    | O => None
    | S fuel' => probe busy cand fuel' (S k) (cand k)
    end
  else Some current.

Definition probe_fuel (fs : FS) : nat := S (size (Fs.occupied fs)).

(** [createSafeBackupDir] (lines 46-60) *)
Definition backupDirName (w : World) (originalPath : string) : string :=
  let dir := Path.dirname originalPath in
  let timestamp :=
    JsStr.replaceClass (fun c => Ascii.eqb c ":" || Ascii.eqb c ".") "-"
                       (toISOString (now_at_start w)) in
  Path.join [dir; "exif_backup_" +:+ timestamp].

Definition createSafeBackupDir (w : World) (fs : FS) (originalPath : string)
  : option string :=
  let backupDir := backupDirName w originalPath in
  probe (Fs.existsSync w fs)
        (fun counter => backupDir +:+ "_" +:+ JsStr.of_nat counter)
        (probe_fuel fs) 1 backupDir.

(** ** Formatting helpers (lines 843-869) *)

Definition formatDateForRename (d : JsDate) (format : string) : string :=
  let year := JsStr.of_Z (getFullYear d) in
  let month := JsStr.padStart0 2 (JsStr.of_Z (getMonth d + 1)) in
  let day := JsStr.padStart0 2 (JsStr.of_Z (getDate d)) in
  JsStr.replaceFirst "DD" day
    (JsStr.replaceFirst "MM" month
       (JsStr.replaceFirst "YYYY" year format)).

Definition formatTimeForRename (d : JsDate) (format : string) : string :=
  let hours := JsStr.padStart0 2 (JsStr.of_Z (getHours d)) in
  let minutes := JsStr.padStart0 2 (JsStr.of_Z (getMinutes d)) in
  let seconds := JsStr.padStart0 2 (JsStr.of_Z (getSeconds d)) in
  JsStr.replaceFirst "ss" seconds
    (JsStr.replaceFirst "mm" minutes
       (JsStr.replaceFirst "HH" hours format)).

(** [formatDate] (lines 945-950) on a [Date] object. *)
Definition formatDate (d : JsDate) : string := toLocaleString d.

(** ** Tool responses *)

Record Response : Type := {
  text : string;
  isError : bool
}.

Definition reply (t : string) : Response := {| text := t; isError := false |}.

(** The [catch] of the request handler (lines 729-737). *)
Definition error_reply (e : JsError) : Response :=
  {| text := "Error: " +:+ error_message e; isError := true |}.

(** ** [rename_by_exif] (lines 390-574) *)

Module Rename.

Record Args : Type := {
  filepaths : list string;
  template : string;             (* default ["{datetime}_{camera}_{original}"] *)
  dateFormat : string;           (* default ["YYYY-MM-DD"] *)
  timeFormat : string;           (* default ["HHmmss"] *)
  dryRun : bool;                 (* default [true] *)
  backup : bool;                 (* default [true] *)
  counterStart : float           (* default [1] *)
}.

Inductive Status : Type := preview | pending | renamed | error.

Record Outcome : Type := {
  original : string;
  new : option string;           (* [null] on an error *)
  status : Status;
  exifFound : option bool;       (* absent on an error *)
  error_text : option string     (* absent unless an error *)
}.

Definition parseOptions : ParseOptions :=
  {| opt_gps := Some true; opt_thumbnail := None; opt_xmp := Some true;
     opt_icc := None; opt_iptc := Some true; opt_pick := None |}.

(** Lines 431-439: the location strings are filled in only when both
    coordinates are truthy. *)
Definition locationFields (exifData : option ExifData) : string * string * string :=
  match exifData with
  | Some d =>
      if truthy_num (Exif.latitude d) && truthy_num (Exif.longitude d) then
        match Exif.latitude d, Exif.longitude d with
        | Some lat, Some lon =>
            (Num.toFixed lat 4 +:+ "_" +:+ Num.toFixed lon 4,
             or_str (Exif.City d) (or_str (Exif.City d) ""),
             or_str (Exif.Country d) (or_str (Exif.Country_PrimaryLocationName d) ""))
        | _, _ => ("", "", "")
        end
      else ("", "", "")
  | None => ("", "", "")
  end.

(** [counter.toString().padStart(3, '0')] *)
Definition counterText (counter : float) : string :=
  JsStr.padStart0 3 (Num.toString counter).

(** Lines 463-474 and 477-488: the chain of placeholder replacements. *)
Definition substitute (template dateStr timeStr datetimeStr camera model lens
                       location city country originalName : string)
           (counter : float) : string :=
  JsStr.replaceAll "{counter}" (counterText counter)
    (JsStr.replaceAll "{original}" originalName
      (JsStr.replaceAll "{country}" country
        (JsStr.replaceAll "{city}" city
          (JsStr.replaceAll "{location}" location
            (JsStr.replaceAll "{lens}" lens
              (JsStr.replaceAll "{model}" model
                (JsStr.replaceAll "{camera}" camera
                  (JsStr.replaceAll "{datetime}" datetimeStr
                    (JsStr.replaceAll "{time}" timeStr
                      (JsStr.replaceAll "{date}" dateStr template)))))))))).

(** Lines 492-495 *)
Definition is_unsafe (c : ascii) : bool :=
  negb (JsStr.is_word c || Ascii.eqb c "-" || Ascii.eqb c "_" || Ascii.eqb c ".").

Definition cleanName (s : string) : string :=
  JsStr.replaceClass is_unsafe "_"
    (JsStr.stripEdgeUnderscores (JsStr.squeezeUnderscores s)).

Definition is_slash_or_space (c : ascii) : bool :=
  Ascii.eqb c "/" || JsStr.is_space c.

(** Lines 446-495: the new name, without its extension. *)
Definition buildName (a : Args) (now : JsDate) (exifData : option ExifData)
           (location city country originalName : string) (counter : float) : string :=
  cleanName
    match exifData with
    | Some d =>
        let date := or_date (Exif.DateTimeOriginal d) (Exif.CreateDate d) now in
        let dateStr := formatDateForRename date (dateFormat a) in
        let timeStr := formatTimeForRename date (timeFormat a) in
        let datetimeStr := dateStr +:+ "_" +:+ timeStr in
        let camera := JsStr.replaceRuns JsStr.is_space "" (or_str (Exif.Make d) "Unknown") in
        let model := JsStr.replaceRuns JsStr.is_space "" (or_str (Exif.Model d) "") in
        let lens := JsStr.replaceRuns is_slash_or_space "-" (or_str (Exif.LensModel d) "") in
        substitute (template a) dateStr timeStr datetimeStr camera model lens
                   location city country originalName counter
    | None =>
        substitute (template a) "NoDate" "NoTime" "NoDateTime" "NoCamera" "" ""
                   "" "" "" originalName counter
    end.

(** Lines 430-495 together: the location strings, then the name. *)
Definition newNameOf (a : Args) (now : JsDate) (exifData : option ExifData)
           (originalName : string) (counter : float) : string :=
  let '(location, city, country) := locationFields exifData in
  buildName a now exifData location city country originalName counter.

(** What the [try] block has worked out for one file when it reaches
    [results.push] (line 508). *)
Record Plan : Type := {
  safePath : string;
  finalPath : string;
  found : bool
}.

(** Lines 499-506 *)
Definition duplicateCandidate (dir newName ext : string) (dupCounter : nat) : string :=
  Path.join [dir; (newName +:+ "_" +:+ JsStr.of_nat dupCounter) +:+ ext].

Definition resolveDuplicates (w : World) (fs : FS) (dir newName ext safe : string)
  : option string :=
  probe (fun p => Fs.existsSync w fs p && negb (String.eqb p safe))
        (duplicateCandidate dir newName ext)
        (probe_fuel fs) 1 (Path.join [dir; newName +:+ ext]).

(** Lines 418-506. [None]: the duplicate loop has not stopped. *)
Definition plan (w : World) (fs : FS) (a : Args) (i : nat) (counter : float)
           (filepath : string) : option (Result Plan) :=
  match validateFilePath (cwd w) filepath with
  | Throw e => Some (Throw e)
  | Ok safe =>
  match validateFileExists w fs safe with
  | Throw e => Some (Throw e)
  | Ok _ =>
  match validateImageFile safe with
  | Throw e => Some (Throw e)
  | Ok _ =>
  match exifr_parse_at w fs safe parseOptions with
  | Throw e => Some (Throw e)
  | Ok exifData =>
      let dir := Path.dirname safe in
      let ext := Path.extname safe in
      let originalName := Path.basename_ext safe ext in
      let newName := newNameOf a (now_at_item w i) exifData originalName counter in
      match resolveDuplicates w fs dir newName ext safe with
      | None => None
      | Some final =>
          Some (Ok {| safePath := safe; finalPath := final;
                      found := match exifData with Some _ => true | None => false end |})
      end
  end end end end.

(** The state the loop of lines 416-538 works on. *)
Record State : Type := {
  fs : FS;
  results : list Outcome;
  counter : float
}.

Definition push (st : State) (o : Outcome) : State :=
  {| fs := fs st; results := results st ++ [o]; counter := counter st |}.

Definition with_fs (st : State) (fs' : FS) : State :=
  {| fs := fs'; results := results st; counter := counter st |}.

(** [results[results.length - 1].status = 'renamed'] *)
Definition set_status (s : Status) (o : Outcome) : Outcome :=
  {| original := original o; new := new o; status := s;
     exifFound := exifFound o; error_text := error_text o |}.

Definition mark_last_renamed (st : State) : State :=
  {| fs := fs st;
     results := match rev (results st) with
                | last :: before => rev before ++ [set_status renamed last]
                | [] => []
                end;
     counter := counter st |}.

(** [counter++]: one is added in binary64 arithmetic. *)
Definition increment (st : State) : State :=
  {| fs := fs st; results := results st; counter := (counter st + 1)%float |}.

(** The [catch] block (lines 530-537). *)
Definition push_error (st : State) (filepath : string) (e : JsError) : State :=
  push st {| original := Path.basename filepath; new := None; status := error;
             exifFound := None; error_text := Some (error_message e) |}.

(** Lines 516-526: the moves. The file system reached when a move
    throws is kept. *)
Definition commit (w : World) (fs0 : FS) (a : Args) (backupDir : option string)
           (p : Plan) : FS * Result unit :=
  if backup a then
    match backupDir with
    | None => (fs0, Throw (TypeError "The path argument must be of type string. Received undefined"))
    | Some bdir =>
        let backupPath := Path.join [bdir; Path.basename (safePath p)] in
        match Fs.rename w fs0 (safePath p) backupPath with
        | Throw e => (fs0, Throw e)
        | Ok fs1 =>
            match Fs.rename w fs1 backupPath (finalPath p) with
            | Throw e => (fs1, Throw e)
            | Ok fs2 => (fs2, Ok tt)
            end
        end
    end
  else
    match Fs.rename w fs0 (safePath p) (finalPath p) with
    | Throw e => (fs0, Throw e)
    | Ok fs1 => (fs1, Ok tt)
    end.

(** One turn of the loop: the [try] block and its [catch]. *)
Definition item (w : World) (a : Args) (backupDir : option string) (i : nat)
           (st : State) (filepath : string) : option State :=
  match plan w (fs st) a i (counter st) filepath with
  | None => None
  | Some (Throw e) => Some (push_error st filepath e)
  | Some (Ok p) =>
      let st1 := push st {| original := Path.basename (safePath p);
                            new := Some (Path.basename (finalPath p));
                            status := if dryRun a then preview else pending;
                            exifFound := Some (found p);
                            error_text := None |} in
      if dryRun a then Some (increment st1)
      else
        match commit w (fs st1) a backupDir p with
        | (fs', Throw e) => Some (push_error (with_fs st1 fs') filepath e)
        | (fs', Ok _) => Some (increment (mark_last_renamed (with_fs st1 fs')))
        end
  end.

Fixpoint loop (w : World) (a : Args) (backupDir : option string) (i : nat)
         (st : State) (paths : list string) : option State :=
  match paths with
  | [] => Some st
  | filepath :: rest =>
      match item w a backupDir i st filepath with
      | None => None
      | Some st' => loop w a backupDir (S i) st' rest
      end
  end.

(** Lines 540-566: the report text. *)
Definition is_error (o : Outcome) : bool :=
  match status o with error => true | _ => false end.

Definition describe (o : Outcome) : string :=
  if is_error o then
    JsStr.glyph "274C" +:+ " ERROR: " +:+ Path.basename (original o) +:+ JsStr.nl +:+ "   "
    +:+ match error_text o with Some m => m | None => "undefined" end
    +:+ JsStr.nl +:+ JsStr.nl
  else
    (if match exifFound o with Some true => true | _ => false end
     then JsStr.glyph "2705" else JsStr.glyph "26A0" +:+ JsStr.glyph "FE0F")
    +:+ " " +:+ Path.basename (original o) +:+ JsStr.nl
    +:+ "   " +:+ JsStr.glyph "2192" +:+ " "
    +:+ Path.basename (match new o with Some n => n | None => "" end)
    +:+ JsStr.nl +:+ JsStr.nl.

Definition successCount (rs : list Outcome) : nat :=
  length (List.filter (fun o => negb (is_error o)) rs).
Definition errorCount (rs : list Outcome) : nat :=
  length (List.filter is_error rs).

Definition report (a : Args) (backupDir : option string) (rs : list Outcome) : string :=
  JsStr.glyph "1F4F8" +:+ " Batch Rename Results" +:+ JsStr.nl +:+ JsStr.repeat "=" 50 +:+ JsStr.nl +:+ JsStr.nl
  +:+ "Mode: " +:+ (if dryRun a then JsStr.glyph "1F50D" +:+ " PREVIEW MODE (no files changed)"
                    else JsStr.glyph "2705" +:+ " RENAME MODE")
  +:+ JsStr.nl
  +:+ "Template: " +:+ JsStr.dq +:+ template a +:+ JsStr.dq +:+ JsStr.nl
  +:+ (if backup a && negb (dryRun a)
       then "Backups: " +:+ match backupDir with Some b => b | None => "undefined" end
            +:+ JsStr.nl
       else "")
  +:+ JsStr.nl
  +:+ String.concat "" (map describe rs)
  +:+ JsStr.nl +:+ "Summary: " +:+ JsStr.of_nat (successCount rs) +:+ " files "
  +:+ (if dryRun a then "would be" else "were") +:+ " renamed, "
  +:+ JsStr.of_nat (errorCount rs) +:+ " errors" +:+ JsStr.nl
  +:+ (if dryRun a
       then JsStr.nl +:+ JsStr.glyph "1F4A1"
            +:+ " Tip: Set dryRun to false to actually rename the files."
       else "").

(** Lines 401-414: the guard on [filepaths] and the backup directory. *)
Definition prepare (w : World) (fs0 : FS) (a : Args)
  : option (Result (FS * option string)) :=
  match filepaths a with
  | [] => Some (Throw (Error "filepaths must be a non-empty array"))
  | first :: _ =>
      if backup a && negb (dryRun a) then
        match createSafeBackupDir w fs0 first with
        | None => None
        | Some backupDir =>
            match Fs.mkdir_p w fs0 backupDir with
            | Throw e => Some (Throw e)
            | Ok fs1 => Some (Ok (fs1, Some backupDir))
            end
        end
      else Some (Ok (fs0, None))
  end.

(** The batch up to the end of the loop: the final state and the backup
    directory, or the exception that ends the invocation. *)
Definition run (w : World) (fs0 : FS) (a : Args)
  : option (Result (State * option string)) :=
  match prepare w fs0 a with
  | None => None
  | Some (Throw e) => Some (Throw e)
  | Some (Ok (fs1, backupDir)) =>
      match loop w a backupDir 0
                 {| fs := fs1; results := []; counter := counterStart a |}
                 (filepaths a) with
      | None => None
      | Some st => Some (Ok (st, backupDir))
      end
  end.

(** What a run shows of itself: for each outcome its original name, new
    name and status, and the value [counter] ends with. *)
Definition observe (r : option (Result (State * option string)))
  : option (list (string * option string * Status) * float) :=
  match r with
  | Some (Ok (st, _)) =>
      Some (map (fun o => (original o, new o, status o)) (results st), counter st)
  | _ => None
  end.

(** The handler: the file system it leaves and its response. *)
Definition handler (w : World) (fs0 : FS) (a : Args) : option (FS * Response) :=
  match run w fs0 a with
  | None => None
  | Some (Throw e) => Some (fs0, error_reply e)
  | Some (Ok (st, backupDir)) =>
      Some (fs st, reply (report a backupDir (results st)))
  end.

End Rename.

(** ** JSON text ([JSON.stringify(value, null, 2)]) *)

Module Json.

Inductive Value : Type :=
| Null
| Number (x : float)
| Str (s : string)
| Object (fields : list (string * Value)).

(** A property whose value is [undefined] is left out of an object. *)
Definition field (name : string) (v : option Value) : list (string * Value) :=
  match v with
  | Some x => [(name, x)]
  | None => []
  end.

Definition hex_digit (n : nat) : ascii :=
  ascii_of_nat (if (n <? 10)%nat then 48 + n else 87 + n).

Definition quote_char (c : ascii) : string :=
  let n := nat_of_ascii c in
  if Ascii.eqb c "034" then "\" +:+ JsStr.dq
  else if Ascii.eqb c "\" then "\\"
  else if (n =? 8)%nat then "\b"
  else if (n =? 9)%nat then "\t"
  else if (n =? 10)%nat then "\n"
  else if (n =? 12)%nat then "\f"
  else if (n =? 13)%nat then "\r"
  else if (n <? 32)%nat
  then "\u00" +:+ String (hex_digit (n / 16)) (String (hex_digit (n mod 16)) EmptyString)
  else String c EmptyString.

Fixpoint quote_body (s : string) : string :=
  match s with
  | EmptyString => EmptyString
  | String c s' => quote_char c +:+ quote_body s'
  end.

Definition quote (s : string) : string := JsStr.dq +:+ quote_body s +:+ JsStr.dq.

Definition number (x : float) : string :=
  if PrimFloat.is_nan x || PrimFloat.is_infinity x then "null" else Num.toString x.

Fixpoint stringify (indent : string) (v : Value) : string :=
  match v with
  | Null => "null"
  | Number x => number x
  | Str s => quote s
  | Object [] => "{}"
  | Object fields =>
      let inner := indent +:+ "  " in
      "{" +:+ JsStr.nl +:+
      JsStr.join ("," +:+ JsStr.nl)
        ((fix each (l : list (string * Value)) : list string :=
            match l with
            | [] => []
            | (k, x) :: l' => (inner +:+ quote k +:+ ": " +:+ stringify inner x) :: each l'
            end) fields)
      +:+ JsStr.nl +:+ indent +:+ "}"
  end.

(** [obj.name] *)
Fixpoint get (name : string) (fields : list (string * Value)) : option Value :=
  match fields with
  | [] => None
  | (k, v) :: rest => if String.eqb k name then Some v else get name rest
  end.

Definition member (name : string) (v : Value) : option Value :=
  match v with
  | Object fields => get name fields
  | _ => None
  end.

End Json.

(** ** [get_gps_coordinates] (lines 354-388) *)

Module GetGps.

(** [`${x}`] for a property that may be [undefined]. *)
Definition show (x : option float) : string :=
  match x with
  | Some v => Num.toString v
  | None => "undefined"
  end.

(** [gpsData.altitude || null] *)
Definition altitude_or_null (alt : option float) : Json.Value :=
  match alt with
  | Some v => if Num.truthy v then Json.Number v else Json.Null
  | None => Json.Null
  end.

(** The object handed to [JSON.stringify] (lines 377-385). *)
Definition payload (safePath : string) (gpsData : GpsData) : Json.Value :=
  Json.Object
    [("filepath", Json.Str (Path.basename safePath));
     ("coordinates",
      Json.Object
        (Json.field "latitude" (option_map Json.Number (gps_latitude gpsData))
         ++ Json.field "longitude" (option_map Json.Number (gps_longitude gpsData))
         ++ [("altitude", altitude_or_null (gps_altitude gpsData))]));
     ("googleMapsUrl",
      Json.Str ("https://www.google.com/maps?q=" +:+ show (gps_latitude gpsData)
                +:+ "," +:+ show (gps_longitude gpsData)))].

(** What the case block returns, before serialization: the notice of
    line 369 or the payload. *)
Inductive Answer : Type :=
| NoGpsNotice (t : string)
| Coordinates (v : Json.Value).

Definition answer (w : World) (fs : FS) (filepath : string) : Result Answer :=
  (safePath <- validateFilePath (cwd w) filepath ;;
   validateFileExists w fs safePath ;;;
   validateImageFile safePath ;;;
   gpsData <- exifr_gps_at w fs safePath ;;
   match gpsData with
   | None => Ok (NoGpsNotice ("No GPS data found in " +:+ Path.basename safePath))
   | Some g => Ok (Coordinates (payload safePath g))
   end)%js.

Definition handler (w : World) (fs : FS) (filepath : string) : Response :=
  match answer w fs filepath with
  | Ok (NoGpsNotice t) => reply t
  | Ok (Coordinates v) => reply (Json.stringify "" v)
  | Throw e => error_reply e
  end.

End GetGps.

(** ** [parse_exif] (lines 262-296) *)

Module ParseExif.

(** The [options] argument: each key may be left out. *)
Record Options : Type := {
  gps : option bool;
  thumbnail : option bool;
  xmp : option bool;
  icc : option bool;
  iptc : option bool
}.

Definition no_options : Options :=
  {| gps := None; thumbnail := None; xmp := None; icc := None; iptc := None |}.

(** [x !== false] and [x === true] *)
Definition not_false (x : option bool) : bool :=
  match x with Some false => false | _ => true end.
Definition is_true (x : option bool) : bool :=
  match x with Some true => true | _ => false end.

(** Lines 266-273; the spread of [options] writes the same booleans again. *)
Definition parseOptions (o : Options) : ParseOptions :=
  {| opt_gps := Some (not_false (gps o));
     opt_thumbnail := Some (is_true (thumbnail o));
     opt_xmp := Some (not_false (xmp o));
     opt_icc := Some (is_true (icc o));
     opt_iptc := Some (not_false (iptc o));
     opt_pick := None |}.

(** *** Identifier resolution

    What an identifier of the case block refers to. The block declares
    [filepath], [options], [parseOptions], [exifData] and [formatted]; the
    handler declares [request], [name] and [args]; the module declares its
    imports, [server] and its functions. A [const] is in scope from the
    start of its block but cannot be read before its declaration has run. *)

Inductive Binding : Type :=
| BString (s : string)
| BObject
| BFunction
| BUninitialized.

Definition Scope : Type := list (string * Binding).

Definition module_scope : Scope :=
  map (fun n => (n, BFunction))
      ["Server"; "StdioServerTransport"; "ListToolsRequestSchema";
       "CallToolRequestSchema"; "exifr"; "readFile"; "rename"; "stat"; "mkdir";
       "writeFile"; "path"; "existsSync"; "createWriteStream"; "fileURLToPath";
       "os"; "archiver"; "sharp"; "validateFilePath"; "validateFileExists";
       "validateImageFile"; "createSafeBackupDir"; "server"; "generateKML";
       "escapeXml"; "removeDir"; "formatDateForRename"; "formatTimeForRename";
       "formatExifData"; "formatShutterSpeed"; "formatDate"; "main"].

Definition handler_scope : Scope :=
  [("request", BObject); ("name", BString "parse_exif"); ("args", BObject)].

(** The scope at line 276, where [exifr.parse(safePath, parseOptions)] is
    evaluated. *)
Definition scope_at_parse (filepath : string) : Scope :=
  [("filepath", BString filepath); ("options", BObject); ("parseOptions", BObject);
   ("exifData", BUninitialized); ("formatted", BUninitialized)]
  ++ handler_scope ++ module_scope.

Fixpoint resolve (sc : Scope) (x : string) : Result Binding :=
  match sc with
  | [] => Throw (ReferenceError (x +:+ " is not defined"))
  | (n, b) :: rest =>
      if String.eqb n x then
        match b with
        | BUninitialized =>
            Throw (ReferenceError ("Cannot access '" +:+ x +:+ "' before initialization"))
        | _ => Ok b
        end
      else resolve rest x
  end.

(** The value of an identifier that is used as a path. *)
Definition resolve_path (sc : Scope) (x : string) : Result string :=
  (b <- resolve sc x ;;
   match b with
   | BString s => Ok s
   | _ => Throw (TypeError "The path argument must be of type string")
   end)%js.

Section Handler.

(** [formatExifData] (lines 872-936) lays out the report; its text plays no
    part below and is left open. *)
Variable formatExifData : ExifData -> string -> string.

Definition body (w : World) (fs : FS) (filepath : string) (options : Options)
  : Result string :=
  (let sc := scope_at_parse filepath in
   let opts := parseOptions options in
   (* line 276 *)
   safePath <- resolve_path sc "safePath" ;;
   exifData <- exifr_parse_at w fs safePath opts ;;
   match exifData with
   | None =>
       (* line 282 *)
       safePath <- resolve_path sc "safePath" ;;
       Ok ("No EXIF data found in " +:+ Path.basename safePath)
   | Some d =>
       (* line 288 *)
       safePath <- resolve_path sc "safePath" ;;
       Ok (formatExifData d safePath)
   end)%js.

Definition handler (w : World) (fs : FS) (filepath : string) (options : Options)
  : Response :=
  match body w fs filepath options with
  | Ok t => reply t
  | Throw e => error_reply e
  end.

End Handler.

End ParseExif.

(** ** [parse_exif_batch] (lines 298-352) *)

Module ParseBatch.

Inductive Status : Type := success | no_exif | error.

(** One element of [results]. *)
Record Entry : Type := {
  filepath : string;
  data : option ExifData;        (* [null] unless metadata was found *)
  status : Status;
  error_text : option string     (* absent unless an error *)
}.

(** Lines 310-320: what the [try] block reads of one input. *)
Definition inspect (w : World) (fs : FS) (options : ParseExif.Options) (input : string)
  : Result (string * option ExifData) :=
  (safePath <- validateFilePath (cwd w) input ;;
   validateFileExists w fs safePath ;;;
   validateImageFile safePath ;;;
   exifData <- exifr_parse_at w fs safePath (ParseExif.parseOptions options) ;;
   Ok (safePath, exifData))%js.

(** One turn of the loop of lines 307-343 on [results]. *)
Definition item (w : World) (fs : FS) (options : ParseExif.Options)
           (results : list Entry) (input : string) : list Entry :=
  match inspect w fs options input with
  | Ok (safePath, Some d) =>
      results ++ [{| filepath := Path.basename safePath; data := Some d;
                     status := success; error_text := None |}]
  | Ok (safePath, None) =>
      results ++ [{| filepath := Path.basename safePath; data := None;
                     status := no_exif; error_text := None |}]
  | Throw e =>
      results ++ [{| filepath := Path.basename input; data := None;
                     status := error; error_text := Some (error_message e) |}]
  end.

Definition results (w : World) (fs : FS) (filepaths : list string)
           (options : ParseExif.Options) : list Entry :=
  fold_left (item w fs options) filepaths [].

Section Handler.

(** [JSON.stringify(results, null, 2)] prints whatever [exifr] has put
    into each [data] object; the printing is left open. *)
Variable stringify : list Entry -> string.

Definition handler (w : World) (fs : FS) (filepaths : list string)
           (options : ParseExif.Options) : Response :=
  match filepaths with
  | [] => error_reply (Error "filepaths must be a non-empty array")
  | _ :: _ => reply (stringify (results w fs filepaths options))
  end.

End Handler.

End ParseBatch.

(** ** KML generation (lines 741-835) *)

(** [escapeXml] *)
Definition escapeXml (str : string) : string :=
  JsStr.replaceChar "'" "&apos;"
    (JsStr.replaceChar "034" "&quot;"
       (JsStr.replaceChar ">" "&gt;"
          (JsStr.replaceChar "<" "&lt;"
             (JsStr.replaceChar "&" "&amp;" str)))).

Module Tour.

(** One element of [photoData] (lines 619-632). *)
Record Photo : Type := {
  id : string;
  number : nat;
  filepath : string;
  filename : string;
  latitude : float;
  longitude : float;
  altitude : float;
  datetime : JsDate;
  camera : string;
  lens : string;
  thumbnailName : string;
  fullImageName : option string
}.

(** Lines 778-789: the description of a placemark, a CDATA section. *)
Definition placemarkDescription (photo : Photo) : string :=
  String.concat ""
    (["<![CDATA[";
      "<img src=" +:+ JsStr.dq +:+ "images/" +:+ thumbnailName photo +:+ JsStr.dq
        +:+ " width=" +:+ JsStr.dq +:+ "400" +:+ JsStr.dq +:+ " /><br/>";
      "<b>Photo #" +:+ JsStr.of_nat (number photo) +:+ "</b><br/>";
      "Date: " +:+ formatDate (datetime photo) +:+ "<br/>"]
     ++ (if truthy_str (camera photo) then ["Camera: " +:+ camera photo +:+ "<br/>"] else [])
     ++ (if truthy_str (lens photo) then ["Lens: " +:+ lens photo +:+ "<br/>"] else [])
     ++ ["GPS: " +:+ Num.toFixed (latitude photo) 6 +:+ ", "
           +:+ Num.toFixed (longitude photo) 6 +:+ "<br/>"]
     ++ (if PrimFloat.ltb 0 (altitude photo)
         then ["Altitude: " +:+ Num.toFixed (altitude photo) 1 +:+ "m<br/>"] else [])
     ++ ["]]>"]).

Definition coordinates (photo : Photo) : string :=
  Num.toString (longitude photo) +:+ "," +:+ Num.toString (latitude photo)
  +:+ "," +:+ Num.toString (altitude photo).






(** *** The collection loop and the sort of the handler (lines 576-652) *)

Record Args : Type := {
  filepaths : list string;
  outputPath : string;
  title : string;                (* default ["My Photo Journey"] *)
  description : string;          (* default [""] *)
  thumbnailSize : float;         (* default [800] *)
  includeFullImages : bool;      (* default [false] *)
  drawPath : bool;               (* default [true] *)
  numberPhotos : bool            (* default [true] *)
}.

Definition parseOptions : ParseOptions :=
  {| opt_gps := Some true; opt_thumbnail := None; opt_xmp := None;
     opt_icc := None; opt_iptc := None;
     opt_pick := Some ["DateTimeOriginal"; "CreateDate"; "Make"; "Model"; "LensModel"] |}.

Definition photoId (photoNumber : nat) : string :=
  "photo_" +:+ JsStr.padStart0 3 (JsStr.of_nat photoNumber).

(** Lines 616-632 *)
Definition entry (a : Args) (now : JsDate) (photoNumber : nat) (safePath : string)
           (d : ExifData) (lat lon : float) : Photo :=
  {| id := photoId photoNumber;
     number := photoNumber;
     filepath := safePath;
     filename := Path.basename safePath;
     latitude := lat;
     longitude := lon;
     altitude := or_num (Exif.altitude d) 0;
     datetime := or_date (Exif.DateTimeOriginal d) (Exif.CreateDate d) now;
     camera := JsStr.trim (or_str (Exif.Make d) "" +:+ " " +:+ or_str (Exif.Model d) "");
     lens := or_str (Exif.LensModel d) "";
     thumbnailName := photoId photoNumber +:+ "_thumb.jpg";
     fullImageName := if includeFullImages a
                      then Some (photoId photoNumber +:+ "_full.jpg") else None |}.

(** Lines 606-613: what the [try] block reads of one input. *)
Definition inspect (w : World) (fs : FS) (input : string)
  : Result (string * option ExifData) :=
  (safePath <- validateFilePath (cwd w) input ;;
   validateFileExists w fs safePath ;;;
   validateImageFile safePath ;;;
   exifData <- exifr_parse_at w fs safePath parseOptions ;;
   Ok (safePath, exifData))%js.

(** One turn of the loop of lines 603-640, on [photoData] and
    [photoNumber]; the [catch] block leaves both as they are. *)
Definition collect_item (w : World) (fs : FS) (a : Args) (i : nat)
           (acc : list Photo * nat) (input : string) : list Photo * nat :=
  let '(photoData, photoNumber) := acc in
  match inspect w fs input with
  | Throw _ => acc
  | Ok (safePath, None) => acc
  | Ok (safePath, Some d) =>
      if truthy_num (Exif.latitude d) && truthy_num (Exif.longitude d) then
        match Exif.latitude d, Exif.longitude d with
        | Some lat, Some lon =>
            (photoData ++ [entry a (now_at_item w i) photoNumber safePath d lat lon],
             S photoNumber)
        | _, _ => acc
        end
      else acc
  end.

Fixpoint collect_from (w : World) (fs : FS) (a : Args) (i : nat)
         (acc : list Photo * nat) (inputs : list string) : list Photo * nat :=
  match inputs with
  | [] => acc
  | input :: rest => collect_from w fs a (S i) (collect_item w fs a i acc input) rest
  end.

Definition collect (w : World) (fs : FS) (a : Args) : list Photo :=
  fst (collect_from w fs a 0 ([], 1%nat) (filepaths a)).

(** Line 652: [photoData.sort((a, b) => new Date(a.datetime) - new
    Date(b.datetime))]. The sort is stable: an element goes in front of
    the first later element that is not earlier than it. *)
Fixpoint insert_by_time (p : Photo) (sorted : list Photo) : list Photo :=
  match sorted with
  | [] => [p]
  | q :: rest =>
      if getTime (datetime p) <=? getTime (datetime q) then p :: sorted
      else q :: insert_by_time p rest
  end.

Fixpoint sort_by_time (l : list Photo) : list Photo :=
  match l with
  | [] => []
  | p :: rest => insert_by_time p (sort_by_time rest)
  end.

(** [photoData] as [generateKML] receives it. *)
Definition photoData (w : World) (fs : FS) (a : Args) : list Photo :=
  sort_by_time (collect w fs a).

End Tour.

(** A path lies within a root directory when the root's segments open the
    path's segments. *)
Definition segments (p : string) : list string :=
  List.filter (fun s => negb (String.eqb s "")) (JsStr.split Path.sep p).

Fixpoint segs_prefix (a b : list string) : bool :=
  match a, b with
  | [], _ => true
  | x :: a', y :: b' => String.eqb x y && segs_prefix a' b'
  | _ :: _, [] => false
  end.

Definition within_root (root p : string) : bool :=
  segs_prefix (segments root) (segments p).

(** ** Vocabulary of the statements *)




(** What [escapeXml] makes of one character. *)
Definition escape_char (c : ascii) : string :=
  if Ascii.eqb c "&" then "&amp;"
  else if Ascii.eqb c "<" then "&lt;"
  else if Ascii.eqb c ">" then "&gt;"
  else if Ascii.eqb c "034" then "&quot;"
  else if Ascii.eqb c "'" then "&apos;"
  else String c EmptyString.

(** A name that is one ordinary path segment: not empty, without a
    separator, and neither [.] nor [..]. *)
Fixpoint no_sep (s : string) : bool :=
  match s with
  | EmptyString => true
  | String c s' => negb (Ascii.eqb c Path.sep) && no_sep s'
  end.

Definition plain_name (a : string) : Prop :=
  no_sep a = true /\ a <> "" /\ a <> "." /\ a <> "..".

(** A text that is empty or ends with a separator: what may stand in
    front of the last segment of a path. *)
Definition dir_like (x : string) : Prop :=
  x = "" \/ exists y, x = y +:+ "/".

(** [join "/" l] followed by a separator, unless [l] is empty. *)
Definition join_dir (l : list string) : string :=
  match l with
  | [] => ""
  | _ => JsStr.join "/" l +:+ "/"
  end.


(** A coordinate that is exactly zero. *)
Definition is_zero_coordinate (x : option float) : Prop :=
  exists v, x = Some v /\ PrimFloat.is_zero v = true.

(** An outcome of a turn that ran to its end. *)
Definition completed (o : Rename.Outcome) : bool :=
  match Rename.status o with
  | Rename.preview | Rename.renamed => true
  | _ => false
  end.

(** The number of completed turns among some outcomes. *)
Definition completed_turns (rs : list Rename.Outcome) : nat :=
  length (List.filter completed rs).

(** [counter++], [n] times over. *)
Definition incremented (n : nat) (counter : float) : float :=
  Nat.iter n (fun c => (c + 1)%float) counter.

(** The outcome [o] reports on the input [input]: it carries the base
    name of the input as given (an error) or as resolved. *)
Definition reports_on (w : World) (input : string) (o : Rename.Outcome) : Prop :=
  Rename.original o = Path.basename input \/
  Rename.original o = Path.basename (Path.resolve (cwd w) input).

(** [p] was not taken after [q]. *)
Definition not_after (p q : Tour.Photo) : Prop :=
  getTime (Tour.datetime p) <= getTime (Tour.datetime q).

(** Both coordinates of a tour entry are truthy. *)
Definition positioned (p : Tour.Photo) : Prop :=
  Num.truthy (Tour.latitude p) && Num.truthy (Tour.longitude p) = true.

(** What the batch reader has to say about one input. *)
Definition batch_entry_for (w : World) (fs : FS) (options : ParseExif.Options)
           (input : string) (e : ParseBatch.Entry) : Prop :=
  match ParseBatch.inspect w fs options input with
  | Ok (safePath, Some d) =>
      e = {| ParseBatch.filepath := Path.basename safePath;
             ParseBatch.data := Some d;
             ParseBatch.status := ParseBatch.success;
             ParseBatch.error_text := None |}
  | Ok (safePath, None) =>
      e = {| ParseBatch.filepath := Path.basename safePath;
             ParseBatch.data := None;
             ParseBatch.status := ParseBatch.no_exif;
             ParseBatch.error_text := None |}
  | Throw err =>
      e = {| ParseBatch.filepath := Path.basename input;
             ParseBatch.data := None;
             ParseBatch.status := ParseBatch.error;
             ParseBatch.error_text := Some (error_message err) |}
  end.

(** Every character of [s] satisfies [p]. *)
Fixpoint all_chars (p : ascii -> bool) (s : string) : bool :=
  match s with
  | EmptyString => true
  | String c s' => p c && all_chars p s'
  end.

(** The characters a cleaned name may hold: letters, digits, the
    underscore, the hyphen and the dot. *)
Definition name_char (c : ascii) : bool := negb (Rename.is_unsafe c).

(** An outcome that is not waiting for its move. *)
Definition settled (o : Rename.Outcome) : bool :=
  match Rename.status o with
  | Rename.pending => false
  | _ => true
  end.

(** The outcomes one turn of the rename loop leaves for its input: one
    settled outcome, or a pending outcome followed by the error of the
    move that failed. *)
Definition turn_outcomes (w : World) (input : string) (g : list Rename.Outcome) : Prop :=
  exists o, settled o = true /\ reports_on w input o /\
    (g = [o] \/
     exists o1, g = [o1; o] /\ Rename.status o1 = Rename.pending /\
                Rename.status o = Rename.error /\ reports_on w input o1).

(** The absolute path made of the ordinary segments [segs]: a separator,
    then the segments with separators between them. *)
Definition canonical (segs : list string) : string := "/" +:+ JsStr.join "/" segs.

(** A character that is neither the separator nor the dot. *)
Definition ext_char (c : ascii) : bool :=
  negb (Ascii.eqb c Path.sep) && negb (Ascii.eqb c ".").

(** An extension as [path.extname] returns it: a dot, then characters
    that are neither dots nor separators. *)
Definition ext_shape (e : string) : bool :=
  match e with
  | String c body => Ascii.eqb c "." && all_chars ext_char body
  | EmptyString => false
  end.

(** A tour entry made from one of the inputs: the input has passed the
    checks of the collection loop, and the entry's names follow from its
    number. *)
Definition entry_of_input (w : World) (fs : FS) (a : Tour.Args) (p : Tour.Photo) : Prop :=
  (exists input d, In input (Tour.filepaths a) /\
                   Tour.inspect w fs input = Ok (Tour.filepath p, Some d)) /\
  Tour.filename p = Path.basename (Tour.filepath p) /\
  Tour.id p = Tour.photoId (Tour.number p) /\
  Tour.thumbnailName p = Tour.photoId (Tour.number p) +:+ "_thumb.jpg".

(** [p] comes before [q] in the tour: it was taken earlier, or at the
    same instant and listed earlier. *)
Definition before_in_tour (p q : Tour.Photo) : Prop :=
  getTime (Tour.datetime p) < getTime (Tour.datetime q) \/
  (getTime (Tour.datetime p) = getTime (Tour.datetime q) /\
   (Tour.number p < Tour.number q)%nat).

(** The five characters [escapeXml] replaces. *)
Definition is_special (c : ascii) : bool :=
  Ascii.eqb c "&" || Ascii.eqb c "<" || Ascii.eqb c ">" || Ascii.eqb c "034"
  || Ascii.eqb c "'".

(** Reading the five entities back. [skip] counts the characters of an
    entity still to be passed over. *)
Fixpoint unescapeXml_from (skip : nat) (s : string) : string :=
  match s with
  | EmptyString => EmptyString
  | String c s' =>
      match skip with
      | S k => unescapeXml_from k s'
      | O =>
          if Ascii.eqb c "&" then
            if String.prefix "amp;" s' then String "&" (unescapeXml_from 4 s')
            else if String.prefix "lt;" s' then String "<" (unescapeXml_from 3 s')
            else if String.prefix "gt;" s' then String ">" (unescapeXml_from 3 s')
            else if String.prefix "quot;" s' then String "034" (unescapeXml_from 5 s')
            else if String.prefix "apos;" s' then String "'" (unescapeXml_from 5 s')
            else String c (unescapeXml_from 0 s')
          else String c (unescapeXml_from 0 s')
      end
  end.

Definition unescapeXml (s : string) : string := unescapeXml_from 0 s.

(** A decimal digit or the minus sign. *)
Definition is_numeral (c : ascii) : bool :=
  let n := nat_of_ascii c in
  ((48 <=? n) && (n <=? 57) || (n =? 45))%nat.

(** A character that means nothing special to the template machinery:
    neither the dollar sign of replacement patterns nor the brace that
    opens a placeholder. *)
Definition inert (c : ascii) : bool :=
  negb (Ascii.eqb c "$") && negb (Ascii.eqb c "{").

(** A piece of a template that knows no placeholder but those of the
    position: a text without an opening brace, or one of [{location}],
    [{city}] and [{country}]. *)
Inductive Piece : Type :=
| Text (s : string)
| LocationHole
| CityHole
| CountryHole.

Definition show_piece (p : Piece) : string :=
  match p with
  | Text s => s
  | LocationHole => "{location}"
  | CityHole => "{city}"
  | CountryHole => "{country}"
  end.

(** The template the pieces make up, and the same with nothing in the
    place of each placeholder. *)
Fixpoint position_template (pieces : list Piece) : string :=
  match pieces with
  | [] => ""
  | p :: rest => show_piece p +:+ position_template rest
  end.

Fixpoint texts_of (pieces : list Piece) : string :=
  match pieces with
  | [] => ""
  | Text s :: rest => s +:+ texts_of rest
  | _ :: rest => texts_of rest
  end.

Definition no_brace (s : string) : bool :=
  all_chars (fun c => negb (Ascii.eqb c "{")) s.

Definition plain_texts (pieces : list Piece) : bool :=
  forallb (fun p => match p with Text s => no_brace s | _ => true end) pieces.

(** What one pass of the replacement chain makes of a template of
    pieces: a placeholder the pattern [hit]s gives way to the
    replacement, every other piece stays. *)
Fixpoint after_pass (hit : Piece -> bool) (replacement : string) (pieces : list Piece)
  : string :=
  match pieces with
  | [] => ""
  | p :: rest =>
      (if hit p then replacement else show_piece p) +:+ after_pass hit replacement rest
  end.

(** The placeholder a piece is. *)
Definition is_location (p : Piece) : bool :=
  match p with LocationHole => true | _ => false end.
Definition is_city (p : Piece) : bool :=
  match p with CityHole => true | _ => false end.
Definition is_country (p : Piece) : bool :=
  match p with CountryHole => true | _ => false end.

(** ** Scenarios

    Concrete worlds and file systems, for the statements that are about
    one particular invocation. The server runs in [/srv/photos]. *)

Module Scenario.

Definition date (ms : Z) (iso locale : string) (y mo d h mi sec : Z) : JsDate :=
  {| getTime := ms; getFullYear := y; getMonth := mo; getDate := d;
     getHours := h; getMinutes := mi; getSeconds := sec;
     toLocaleString := locale; toISOString := iso |}.

(** 9 July 2024, 14:30:22 UTC, and one hour later. *)
Definition afternoon : JsDate :=
  date 1720535422000 "2024-07-09T14:30:22.000Z" "7/9/2024, 2:30:22 PM" 2024 6 9 14 30 22.
Definition later : JsDate :=
  date 1720539022000 "2024-07-09T15:30:22.000Z" "7/9/2024, 3:30:22 PM" 2024 6 9 15 30 22.

Definition world : World :=
  {| cwd := "/srv/photos";
     now_at_start := later;
     now_at_item := fun _ => later;
     name_max := 255;
     path_max := 4095 |}.

(** What [exifr], as the server imports it, hands out of the metadata
    [d] of a photograph under the options [o]. With a pick list only the
    picked tags come back, a block that holds none of them is not read,
    and [latitude] and [longitude] are worked out only when
    [GPSLatitude] and [GPSLongitude] are among them; the other segments
    are switched off. Without a pick list the GPS block is read unless
    [gps] is [false], and the IPTC fields when [iptc] is [true]. The
    output never has a key [altitude]. An output without any key is
    [undefined]. *)
Definition picks (l : list string) (tag : string) : bool := existsb (String.eqb tag) l.

Definition keep {A : Type} (b : bool) (x : option A) : option A :=
  if b then x else None.

Definition exifr_fields (o : ParseOptions) (d : ExifData) : ExifData :=
  let l := match opt_pick o with Some l => l | None => [] end in
  let all := match l with [] => true | _ => false end in
  let gps := if all then match opt_gps o with Some false => false | _ => true end
             else picks l "GPSLatitude" && picks l "GPSLongitude" in
  let iptc := all && match opt_iptc o with Some true => true | _ => false end in
  {| Exif.latitude := keep gps (Exif.latitude d);
     Exif.longitude := keep gps (Exif.longitude d);
     Exif.altitude := None;
     Exif.DateTimeOriginal := keep (all || picks l "DateTimeOriginal") (Exif.DateTimeOriginal d);
     Exif.CreateDate := keep (all || picks l "CreateDate") (Exif.CreateDate d);
     Exif.Make := keep (all || picks l "Make") (Exif.Make d);
     Exif.Model := keep (all || picks l "Model") (Exif.Model d);
     Exif.LensModel := keep (all || picks l "LensModel") (Exif.LensModel d);
     Exif.City := keep iptc (Exif.City d);
     Exif.Country := keep iptc (Exif.Country d);
     Exif.Country_PrimaryLocationName := None |}.

Definition has_key (d : ExifData) : bool :=
  match Exif.latitude d, Exif.longitude d, Exif.DateTimeOriginal d, Exif.CreateDate d with
  | None, None, None, None =>
      match Exif.Make d, Exif.Model d, Exif.LensModel d, Exif.City d, Exif.Country d with
      | None, None, None, None, None => false
      | _, _, _, _, _ => true
      end
  | _, _, _, _ => true
  end.

Definition exifr_view (o : ParseOptions) (d : ExifData) : ParseOutcome :=
  let out := exifr_fields o d in
  if has_key out then Metadata out else NoMetadata.

(** A file with the metadata [o]; [exifr.gps] hands out the two
    coordinates and nothing else. *)
Definition image (o : ParseOutcome) : File :=
  {| exifr_parse := fun opts =>
       match o with
       | Metadata d => exifr_view opts d
       | _ => o
       end;
     exifr_gps :=
       match o with
       | Metadata d =>
           match Exif.latitude d, Exif.longitude d with
           | Some lat, Some lon =>
               Gps {| gps_latitude := Some lat; gps_longitude := Some lon;
                      gps_altitude := None |}
           | _, _ => NoGps
           end
       | NoMetadata => NoGps
       | ParseFails e => GpsFails e
       end |}.

Definition exif (lat lon : option float) (taken : option JsDate)
           (make model : option string) : ExifData :=
  {| Exif.latitude := lat; Exif.longitude := lon; Exif.altitude := None;
     Exif.DateTimeOriginal := taken; Exif.CreateDate := None;
     Exif.Make := make; Exif.Model := model; Exif.LensModel := None;
     Exif.City := Some "Lagos"; Exif.Country := Some "Nigeria";
     Exif.Country_PrimaryLocationName := None |}.

Definition folder (entries : list (string * File)) (locked : bool) : FS :=
  {| files := list_to_map entries;
     dirs := {["/srv/photos"]} ∪ {["/srv"]} ∪ {["/"]};
     readonly := if locked then {["/srv/photos"]} else ∅ |}.

(** A file without metadata, and photographs with a position. *)
Definition plain : File := image NoMetadata.

Definition photo (lat lon : float) (taken : JsDate) (make : string) : File :=
  image (Metadata (exif (Some lat) (Some lon) (Some taken) (Some make) None)).

Definition beach_photo : File := photo 6.5 3.25 afternoon "Canon".
Definition equator_photo : File := photo 0 3.25 afternoon "Canon".

Definition rename_args (paths : list string) (tpl : string) (dry bak : bool)
  : Rename.Args :=
  {| Rename.filepaths := paths; Rename.template := tpl;
     Rename.dateFormat := "YYYY-MM-DD"; Rename.timeFormat := "HHmmss";
     Rename.dryRun := dry; Rename.backup := bak; Rename.counterStart := 1 |}.

Definition tour_args (paths : list string) : Tour.Args :=
  {| Tour.filepaths := paths; Tour.outputPath := "tour.kmz";
     Tour.title := "My Photo Journey"; Tour.description := "";
     Tour.thumbnailSize := 800%float; Tour.includeFullImages := false;
     Tour.drawPath := true; Tour.numberPhotos := true |}.

(** Two photographs, the one listed first taken an hour after the other. *)
Definition two_photos : FS :=
  folder [("/srv/photos/late.jpg", photo 6.5 3.25 later "Canon");
          ("/srv/photos/early.jpg", photo 6.25 3.5 afternoon "Canon")] false.

(** One file in a directory that accepts no change. *)
Definition locked_folder : FS := folder [("/srv/photos/a.jpg", plain)] true.

(** Two files whose names clean up to the same text. *)
Definition lookalikes : FS :=
  folder [("/srv/photos/a b.jpg", plain); ("/srv/photos/a_b.jpg", plain)] false.


(** An entry of [photoData] whose maker's and lens's names hold markup
    characters. *)
Definition lab_photo : Tour.Photo :=
  Tour.entry (tour_args ["lab.jpg"]) later 1 "/srv/photos/lab.jpg"
             {| Exif.latitude := Some 6.5%float; Exif.longitude := Some 3.25%float;
                Exif.altitude := None;
                Exif.DateTimeOriginal := Some afternoon; Exif.CreateDate := None;
                Exif.Make := Some "R&D <Lab>"; Exif.Model := None;
                Exif.LensModel := Some "50mm <f/1.8>";
                Exif.City := None; Exif.Country := None;
                Exif.Country_PrimaryLocationName := None |}
             6.5%float 3.25%float.

End Scenario.

(* ================================================================== *)
(** * Part II. Properties *)
(* ================================================================== *)

(** ** Regression checks of the primitives *)

Example resolve_relative :
  Path.resolve "/srv/photos" "a/../b/./c.jpg" = "/srv/photos/b/c.jpg".
Proof. reflexivity. Qed.

Example resolve_absolute : Path.resolve "/srv/photos" "/etc//passwd/" = "/etc/passwd".
Proof. reflexivity. Qed.

Example resolve_above_root : Path.resolve "/srv/photos" "../../../../x" = "/x".
Proof. reflexivity. Qed.

Example extname_cases :
  map Path.extname ["/a/b.tar.gz"; "/a/.bashrc"; "/a/.."; "/a/..."; "/a/b."; "/a.b/c"; "/a/..b"]
  = [".gz"; ""; ""; "."; "."; ""; ".b"].
Proof. reflexivity. Qed.

Example dirname_cases :
  map Path.dirname ["/a/b/c.jpg"; "/a"; "a"; "a/b/"; "//a"; ""]
  = ["/a/b"; "/"; "."; "a"; "//"; "."].
Proof. reflexivity. Qed.

Example basename_cases :
  (Path.basename "/a/b/c.jpg", Path.basename_ext "/a/b/c.jpg" ".jpg",
   Path.basename_ext "/a/b/.jpg" ".jpg", Path.basename "a/b//")
  = ("c.jpg", "c", ".jpg", "b").
Proof. reflexivity. Qed.

Example join_cases :
  map Path.join [["/a/b"; "c.jpg"]; ["."; "exif_backup"]; ["a"; "../../b/"]]
  = ["/a/b/c.jpg"; "exif_backup"; "../b/"].
Proof. reflexivity. Qed.

Example toString_cases :
  map Num.toString [0.5; 37.75; -122.25; 1e21; 100; 1.5; 0; 4503599627370496]%float
  = ["0.5"; "37.75"; "-122.25"; "1e+21"; "100"; "1.5"; "0"; "4503599627370496"].
Proof. vm_compute. reflexivity. Qed.

Example toString_shortest :
  Num.toString (1 / 10)%float = "0.1" /\
  Num.toString (1 / 3)%float = "0.3333333333333333" /\
  Num.toString (1 / 10 + 2 / 10)%float = "0.30000000000000004" /\
  Num.toString (1 / 10000000)%float = "1e-7".
Proof. vm_compute. repeat split; reflexivity. Qed.

Example toFixed_cases :
  (Num.toFixed 37.75 4, Num.toFixed 2.5 0, Num.toFixed (-1.5) 0,
   Num.toFixed 0 4, Num.toFixed 1234.5625 1, Num.toFixed (1005 / 1000) 2)%float
  = ("37.7500", "3", "-2", "0.0000", "1234.6", "1.00").
Proof. vm_compute. reflexivity. Qed.

Example cleanName_cases :
  map Rename.cleanName ["a b/c"; "__x___y_"; "_"; "2024-07-09_143022_Canon_IMG 1"]
  = ["a_b_c"; "x_y"; ""; "2024-07-09_143022_Canon_IMG_1"].
Proof. reflexivity. Qed.

Example replaceAll_dollar :
  JsStr.replaceAll "{original}" "a$&b$$c" "x{original}y" = "xa{original}b$cy".
Proof. reflexivity. Qed.

(** ** Scenario checks *)

Example rename_dated_scenario :
  Rename.observe
    (Rename.run Scenario.world Scenario.two_photos
       (Scenario.rename_args ["late.jpg"; "early.jpg"]
                             "{datetime}_{camera}_{original}_{location}_{city}" true true))
  = Some ([("late.jpg", Some "2024-07-09_153022_Canon_late_6.5000_3.2500_Lagos.jpg",
            Rename.preview);
           ("early.jpg", Some "2024-07-09_143022_Canon_early_6.2500_3.5000_Lagos.jpg",
            Rename.preview)], 3%float).
Proof. vm_compute. reflexivity. Qed.

(** Under the pick list of the tour handler [exifr] hands out no
    position, so the tour's collection loop takes neither photograph;
    asked for everything, it hands out both positions. *)
Example pick_list_scenario :
  Tour.collect Scenario.world Scenario.two_photos
               (Scenario.tour_args ["late.jpg"; "early.jpg"]) = [] /\
  map (fun p => match exifr_parse_at Scenario.world Scenario.two_photos p Rename.parseOptions with
                | Ok (Some d) => (Exif.latitude d, Exif.longitude d)
                | _ => (None, None)
                end) ["late.jpg"; "early.jpg"]
  = [(Some 6.5, Some 3.25); (Some 6.25, Some 3.5)]%float.
Proof. vm_compute. split; reflexivity. Qed.

Example kml_camera_scenario :
  Tour.placemarkDescription Scenario.lab_photo
  = "<![CDATA[<img src=" +:+ JsStr.dq +:+ "images/photo_001_thumb.jpg" +:+ JsStr.dq
    +:+ " width=" +:+ JsStr.dq +:+ "400" +:+ JsStr.dq +:+ " /><br/>"
    +:+ "<b>Photo #1</b><br/>Date: 7/9/2024, 2:30:22 PM<br/>Camera: R&D <Lab><br/>"
    +:+ "Lens: 50mm <f/1.8><br/>GPS: 6.500000, 3.250000<br/>]]>".
Proof. vm_compute. reflexivity. Qed.

(** ** Strings *)

Lemma append_cons (c : ascii) (s t : string) : String c s +:+ t = String c (s +:+ t).
Proof. reflexivity. Qed.

Lemma append_nil_r (s : string) : s +:+ "" = s.
Proof. induction s as [| c s IH]; [reflexivity |]. now rewrite append_cons, IH. Qed.

Lemma append_assoc (s t u : string) : (s +:+ t) +:+ u = s +:+ (t +:+ u).
Proof. induction s as [| c s IH]; [reflexivity |]. now rewrite !append_cons, IH. Qed.

Lemma append_inv_head (s t u : string) : s +:+ t = s +:+ u -> t = u.
Proof.
  induction s as [| c s IH]; [trivial |].
  rewrite !append_cons. intros [= H]. auto.
Qed.

Lemma chars_append (s t : string) :
  JsStr.chars (s +:+ t) = JsStr.chars s ++ JsStr.chars t.
Proof.
  induction s as [| c s IH]; [reflexivity |].
  rewrite append_cons. simpl. now rewrite <- IH.
Qed.

Lemma chars_inj (s t : string) : JsStr.chars s = JsStr.chars t -> s = t.
Proof.
  intros H. rewrite <- (string_of_list_ascii_of_string s),
              <- (string_of_list_ascii_of_string t).
  unfold JsStr.chars in H. now rewrite H.
Qed.

Lemma append_inv_tail (s t u : string) : s +:+ u = t +:+ u -> s = t.
Proof.
  intros H. apply chars_inj.
  apply (f_equal JsStr.chars) in H. rewrite !chars_append in H.
  now apply app_inv_tail in H.
Qed.

Lemma concat_empty_app (l1 l2 : list string) :
  String.concat "" (l1 ++ l2) = String.concat "" l1 +:+ String.concat "" l2.
Proof.
  induction l1 as [| x l1 IH]; [reflexivity |].
  destruct l1 as [| y l1].
  - simpl. destruct l2 as [| z l2]; simpl.
    + now rewrite append_nil_r.
    + reflexivity.
  - change (String.concat "" ((x :: y :: l1) ++ l2))
      with (x +:+ "" +:+ String.concat "" ((y :: l1) ++ l2)).
    rewrite IH.
    change (String.concat "" (x :: y :: l1)) with (x +:+ "" +:+ String.concat "" (y :: l1)).
    change ("" +:+ String.concat "" (y :: l1) +:+ String.concat "" l2)
      with (String.concat "" (y :: l1) +:+ String.concat "" l2).
    change ("" +:+ String.concat "" (y :: l1)) with (String.concat "" (y :: l1)).
    now rewrite append_assoc.
Qed.

(** ** Path validation *)

(** What [validateFilePath] does guarantee: the path it returns is the
    resolved input, has the working directory's text as a prefix, and holds
    no two dots in a row. *)
Lemma validateFilePath_accepts (root input safe : string) :
  validateFilePath root input = Ok safe ->
  safe = Path.resolve root input /\
  JsStr.startsWith safe root = true /\
  JsStr.includes safe ".." = false.
Proof.
  unfold validateFilePath.
  destruct (String.eqb input ""); [discriminate |].
  destruct (JsStr.includes (Path.resolve root input) "..") eqn:Hdots; simpl;
    [discriminate |].
  destruct (JsStr.startsWith (Path.resolve root input) root) eqn:Hpre; simpl;
    [| discriminate].
  intros [= <-]. auto.
Qed.

(** A resolved path that still shows two dots in a row is refused. *)
Lemma validateFilePath_rejects_dots (root input : string) :
  input <> "" ->
  JsStr.includes (Path.resolve root input) ".." = true ->
  validateFilePath root input = Throw PathTraversal.
Proof.
  intros Hne Hdots. unfold validateFilePath.
  destruct (String.eqb_spec input ""); [contradiction |].
  now rewrite Hdots.
Qed.

(** C1. The validator is meant to keep every accepted path inside the
    working directory. With the server running in [/srv/photos], the input
    [../photos-private/cat.jpg] is accepted, and the path returned,
    [/srv/photos-private/cat.jpg], lies in a sibling directory: the test
    [startsWith(process.cwd())] compares text, not path segments. *)
Theorem validateFilePath_escapes_root :
  validateFilePath "/srv/photos" "../photos-private/cat.jpg"
    = Ok "/srv/photos-private/cat.jpg"
  /\ within_root "/srv/photos" "/srv/photos-private/cat.jpg" = false.
Proof. split; reflexivity. Qed.

(** ** [parse_exif] *)

Lemma safePath_unbound (input : string) :
  ParseExif.resolve (ParseExif.scope_at_parse input) "safePath"
  = Throw (ReferenceError "safePath is not defined").
Proof. reflexivity. Qed.

(** C5. [parse_exif] never validates its path and never reaches
    [exifr.parse]: the case block reads [safePath], which no enclosing
    scope declares, so every invocation ends in the handler's [catch] with
    an error-flagged payload, whatever the file holds. *)
Theorem parse_exif_always_fails
        (formatExifData : ExifData -> string -> string)
        (w : World) (fs : FS) (input : string) (options : ParseExif.Options) :
  ParseExif.handler formatExifData w fs input options
  = {| text := "Error: safePath is not defined"; isError := true |}.
Proof.
  unfold ParseExif.handler, ParseExif.body, ParseExif.resolve_path.
  rewrite safePath_unbound. reflexivity.
Qed.

(** The sibling handler, on a file with metadata in the working directory,
    does answer; [parse_exif] on the same input does not. *)
Example parse_exif_on_a_good_file :
  let fs := Scenario.folder
              [("/srv/photos/cat.jpg",
                Scenario.image (Metadata (Scenario.exif (Some 6.5%float) (Some 3.25%float)
                                                        None (Some "Canon") None)))] false in
  isError (GetGps.handler Scenario.world fs "cat.jpg") = false /\
  isError (ParseExif.handler (fun _ _ => "report") Scenario.world fs "cat.jpg"
                             ParseExif.no_options) = true.
Proof. vm_compute. split; reflexivity. Qed.

(** ** [get_gps_coordinates] *)

Lemma altitude_or_null_falsy (alt : option float) :
  truthy_num alt = false -> GetGps.altitude_or_null alt = Json.Null.
Proof.
  destruct alt as [v |]; simpl; [| reflexivity].
  unfold GetGps.altitude_or_null. now intros ->.
Qed.

Lemma zero_is_falsy (v : float) : PrimFloat.is_zero v = true -> Num.truthy v = false.
Proof. unfold Num.truthy. now intros ->. Qed.

(** C9. When the file passes validation and [exifr.gps] yields a record
    whose altitude is absent or is zero, the coordinates object of the
    answer carries [altitude: null]. *)
Theorem gps_altitude_zero_is_null
        (w : World) (fs : FS) (input safePath : string) (f : File) (g : GpsData) :
  validateFilePath (cwd w) input = Ok safePath ->
  validateFileExists w fs safePath = Ok tt ->
  validateImageFile safePath = Ok tt ->
  files fs !! Fs.key w safePath = Some f ->
  exifr_gps f = Gps g ->
  (gps_altitude g = None \/
   exists v, gps_altitude g = Some v /\ PrimFloat.is_zero v = true) ->
  exists payload coordinates,
    GetGps.answer w fs input = Ok (GetGps.Coordinates payload) /\
    GetGps.handler w fs input = reply (Json.stringify "" payload) /\
    Json.member "coordinates" payload = Some coordinates /\
    Json.member "altitude" coordinates = Some Json.Null.
Proof.
  intros Hv He Hi Hf Hg Halt.
  assert (Hnull : GetGps.altitude_or_null (gps_altitude g) = Json.Null).
  { apply altitude_or_null_falsy.
    destruct Halt as [-> | (v & -> & Hz)]; simpl; [reflexivity |].
    now apply zero_is_falsy. }
  assert (Hans : GetGps.answer w fs input
                 = Ok (GetGps.Coordinates (GetGps.payload safePath g))).
  { unfold GetGps.answer. rewrite Hv. simpl. rewrite He. simpl. rewrite Hi. simpl.
    unfold exifr_gps_at. rewrite Hf, Hg. reflexivity. }
  exists (GetGps.payload safePath g).
  eexists. split; [exact Hans |]. split.
  - unfold GetGps.handler. now rewrite Hans.
  - split; [reflexivity |].
    unfold Json.member. rewrite Hnull.
    destruct (gps_latitude g), (gps_longitude g); reflexivity.
Qed.

Lemma gps_altitude_zero_is_null_witness :
  exists payload coordinates,
    GetGps.answer Scenario.world
                  (Scenario.folder [("/srv/photos/beach.jpg", Scenario.beach_photo)] false)
                  "beach.jpg" = Ok (GetGps.Coordinates payload) /\
    GetGps.handler Scenario.world
                   (Scenario.folder [("/srv/photos/beach.jpg", Scenario.beach_photo)] false)
                   "beach.jpg" = reply (Json.stringify "" payload) /\
    Json.member "coordinates" payload = Some coordinates /\
    Json.member "altitude" coordinates = Some Json.Null.
Proof.
  apply (gps_altitude_zero_is_null Scenario.world
           (Scenario.folder [("/srv/photos/beach.jpg", Scenario.beach_photo)] false)
           "beach.jpg" "/srv/photos/beach.jpg" Scenario.beach_photo
           {| gps_latitude := Some 6.5%float; gps_longitude := Some 3.25%float;
              gps_altitude := None |}).
  - reflexivity.
  - reflexivity.
  - reflexivity.
  - reflexivity.
  - reflexivity.
  - left. reflexivity.
Defined.

Example gps_answer_text :
  text (GetGps.handler Scenario.world
          (Scenario.folder [("/srv/photos/beach.jpg", Scenario.beach_photo)] false) "beach.jpg")
  = JsStr.join JsStr.nl
      ["{";
       "  " +:+ JsStr.dq +:+ "filepath" +:+ JsStr.dq +:+ ": "
         +:+ JsStr.dq +:+ "beach.jpg" +:+ JsStr.dq +:+ ",";
       "  " +:+ JsStr.dq +:+ "coordinates" +:+ JsStr.dq +:+ ": {";
       "    " +:+ JsStr.dq +:+ "latitude" +:+ JsStr.dq +:+ ": 6.5,";
       "    " +:+ JsStr.dq +:+ "longitude" +:+ JsStr.dq +:+ ": 3.25,";
       "    " +:+ JsStr.dq +:+ "altitude" +:+ JsStr.dq +:+ ": null";
       "  },";
       "  " +:+ JsStr.dq +:+ "googleMapsUrl" +:+ JsStr.dq +:+ ": "
         +:+ JsStr.dq +:+ "https://www.google.com/maps?q=6.5,3.25" +:+ JsStr.dq;
       "}"].
Proof. vm_compute. reflexivity. Qed.

(** ** Zero coordinates *)

Lemma zero_coordinate_falsy (x : option float) :
  is_zero_coordinate x -> truthy_num x = false.
Proof. intros (v & -> & Hz). simpl. now apply zero_is_falsy. Qed.

Lemma zero_coordinates_falsy (d : ExifData) :
  is_zero_coordinate (Exif.latitude d) \/ is_zero_coordinate (Exif.longitude d) ->
  truthy_num (Exif.latitude d) && truthy_num (Exif.longitude d) = false.
Proof.
  intros [H | H]; rewrite (zero_coordinate_falsy _ H); [reflexivity |].
  apply andb_false_r.
Qed.

(** Every entry of the tour list has both coordinates truthy. *)
Lemma collect_item_positions (w : World) (fs : FS) (a : Tour.Args) (i : nat)
      (acc : list Tour.Photo * nat) (input : string) :
  Forall positioned (fst acc) ->
  Forall positioned (fst (Tour.collect_item w fs a i acc input)).
Proof.
  intros Hacc. unfold Tour.collect_item. destruct acc as [photoData photoNumber].
  destruct (Tour.inspect w fs input) as [[safe [d |]] | e]; try exact Hacc.
  destruct (truthy_num (Exif.latitude d) && truthy_num (Exif.longitude d)) eqn:Hpos;
    [| exact Hacc].
  destruct (Exif.latitude d) as [lat |], (Exif.longitude d) as [lon |]; try exact Hacc.
  simpl. apply Forall_app. split; [exact Hacc |].
  constructor; [exact Hpos | constructor].
Qed.

Lemma collect_from_positions (w : World) (fs : FS) (a : Tour.Args) (inputs : list string) :
  forall (i : nat) (acc : list Tour.Photo * nat),
  Forall positioned (fst acc) ->
  Forall positioned (fst (Tour.collect_from w fs a i acc inputs)).
Proof.
  induction inputs as [| input rest IH]; intros i acc Hacc; [exact Hacc |].
  simpl. apply IH. now apply collect_item_positions.
Qed.

(** ** [escapeXml] *)

Lemma replaceChar_append (c : ascii) (rep s t : string) :
  JsStr.replaceChar c rep (s +:+ t)
  = JsStr.replaceChar c rep s +:+ JsStr.replaceChar c rep t.
Proof.
  induction s as [| x s IH]; [reflexivity |].
  rewrite append_cons. simpl. rewrite IH.
  destruct (Ascii.eqb x c); [now rewrite append_assoc | reflexivity].
Qed.

Lemma escapeXml_append (s t : string) :
  escapeXml (s +:+ t) = escapeXml s +:+ escapeXml t.
Proof. unfold escapeXml. now rewrite !replaceChar_append. Qed.

Lemma escapeXml_char (c : ascii) : escapeXml (String c EmptyString) = escape_char c.
Proof. destruct c as [[] [] [] [] [] [] [] []]; reflexivity. Qed.

Lemma escapeXml_cons (c : ascii) (s : string) :
  escapeXml (String c s) = escape_char c +:+ escapeXml s.
Proof.
  change (String c s) with (String c EmptyString +:+ s).
  now rewrite escapeXml_append, escapeXml_char.
Qed.

Lemma prefix_nil (s : string) : String.prefix "" s = true.
Proof. now destruct s. Qed.



(** ** Text fields of the KML document *)








(** ** The probing loops stop *)

Lemma probe_settles (busy : string -> bool) (cand : nat -> string) (fuel : nat) :
  forall (k : nat) (current p : string),
  probe busy cand fuel k current = Some p -> busy p = false.
Proof.
  induction fuel as [| fuel IH]; intros k current p; simpl;
    destruct (busy current) eqn:Hbusy; try discriminate.
  - now intros [= <-].
  - apply IH.
  - now intros [= <-].
Qed.

Lemma probe_none_busy (busy : string -> bool) (cand : nat -> string)
      (fuel k : nat) (current : string) :
  probe busy cand fuel k current = None -> busy current = true.
Proof. destruct fuel; simpl; destruct (busy current); congruence. Qed.

Lemma probe_exhausted (busy : string -> bool) (cand : nat -> string) (fuel : nat) :
  forall (k : nat) (current : string),
  probe busy cand fuel k current = None ->
  forall j : nat, (k <= j < k + fuel)%nat -> busy (cand j) = true.
Proof.
  induction fuel as [| fuel IH]; intros k current Hnone j Hj; [lia |].
  simpl in Hnone. destruct (busy current); [| discriminate].
  destruct (Nat.eq_dec j k) as [-> | Hne].
  - now apply probe_none_busy in Hnone.
  - apply (IH (S k) (cand k) Hnone). lia.
Qed.

(** With one more unit of fuel than there are paths in use, and
    candidates that denote different paths, the loop finds a free one. *)
Lemma probe_stops (busy : string -> bool) (cand : nat -> string)
      (key : string -> string) (used : gset string) (k : nat) (current : string) :
  (forall p, busy p = true -> key p ∈ used) ->
  (forall i j : nat, key (cand i) = key (cand j) -> i = j) ->
  exists p, probe busy cand (S (size used)) k current = Some p.
Proof.
  intros Hused Hinj.
  destruct (probe busy cand (S (size used)) k current) as [p |] eqn:Hprobe;
    [now exists p |].
  exfalso.
  pose proof (probe_exhausted _ _ _ _ _ Hprobe) as Hall.
  set (l := (fun j => key (cand j)) <$> seq k (S (size used))).
  assert (Hnodup : NoDup l).
  { apply NoDup_fmap_2_strong; [| apply NoDup_seq].
    intros i j _ _. apply Hinj. }
  assert (Hsub : list_to_set l ⊆ used).
  { intros x Hx. apply elem_of_list_to_set in Hx.
    apply list_elem_of_fmap in Hx as (j & -> & Hj).
    apply elem_of_seq in Hj. apply Hused, Hall. lia. }
  apply subseteq_size in Hsub.
  rewrite size_list_to_set in Hsub by exact Hnodup.
  unfold l in Hsub. rewrite length_fmap, length_seq in Hsub. lia.
Qed.

Lemma existsSync_occupied (w : World) (fs : FS) (p : string) :
  Fs.existsSync w fs p = true -> Fs.key w p ∈ Fs.occupied fs.
Proof.
  unfold Fs.existsSync, Fs.occupied, Fs.is_file, Fs.is_dir.
  intros H. apply orb_true_iff in H as [H | H]; apply bool_decide_eq_true in H.
  - apply elem_of_union_l, elem_of_dom, H.
  - apply elem_of_union_r, H.
Qed.

(** ** Paths that end in a plain name *)

Lemma split_nonempty (s : string) : JsStr.split Path.sep s <> [].
Proof.
  destruct s as [| c s]; simpl; [discriminate |].
  destruct (Ascii.eqb c Path.sep); [discriminate |].
  destruct (JsStr.split Path.sep s); discriminate.
Qed.

Lemma split_append_sep (x y : string) :
  JsStr.split Path.sep (x +:+ String Path.sep y)
  = JsStr.split Path.sep x ++ JsStr.split Path.sep y.
Proof.
  induction x as [| c x IH]; [reflexivity |].
  rewrite append_cons. simpl. rewrite IH.
  destruct (Ascii.eqb c Path.sep); [reflexivity |].
  pose proof (split_nonempty x) as Hne.
  destruct (JsStr.split Path.sep x) as [| seg rest]; [contradiction | reflexivity].
Qed.

Lemma split_no_sep (a : string) : no_sep a = true -> JsStr.split Path.sep a = [a].
Proof.
  induction a as [| c a IH]; [reflexivity |].
  simpl. intros H. apply andb_true_iff in H as [Hc Ha].
  apply negb_true_iff in Hc. rewrite Hc, (IH Ha). reflexivity.
Qed.

Lemma split_dir_like (x : string) :
  dir_like x ->
  exists pre, forall s, JsStr.split Path.sep (x +:+ s) = pre ++ JsStr.split Path.sep s.
Proof.
  intros [-> | [y ->]].
  - now exists [].
  - exists (JsStr.split Path.sep y). intros s.
    rewrite append_assoc. apply split_append_sep.
Qed.

Lemma norm_step_plain (b : bool) (stack : list string) (a : string) :
  plain_name a -> Path.norm_step b stack a = a :: stack.
Proof.
  intros (_ & H0 & H1 & H2). unfold Path.norm_step.
  apply String.eqb_neq in H0, H1, H2. now rewrite H0, H1, H2.
Qed.

Lemma join_snoc (l : list string) (a : string) :
  JsStr.join "/" (l ++ [a]) = join_dir l +:+ a.
Proof.
  induction l as [| x l IH]; [reflexivity |].
  destruct l as [| y l].
  - simpl. now rewrite append_assoc.
  - change (JsStr.join "/" ((x :: y :: l) ++ [a]))
      with (x +:+ "/" +:+ JsStr.join "/" ((y :: l) ++ [a])).
    rewrite IH. unfold join_dir.
    change (JsStr.join "/" (x :: y :: l)) with (x +:+ "/" +:+ JsStr.join "/" (y :: l)).
    now rewrite !append_assoc.
Qed.

Lemma join_dir_like (l : list string) : dir_like (join_dir l).
Proof. destruct l; [now left | right; eexists; reflexivity]. Qed.

Lemma plain_name_nonempty_append (x a : string) : plain_name a -> x +:+ a <> "".
Proof.
  intros (_ & Hne & _). destruct x; [exact Hne | discriminate].
Qed.

(** Normalizing a path that ends in a plain name keeps the name as its
    last segment, and what stands in front of it does not depend on the
    name. A separator after the name changes nothing. *)
Lemma normalizeString_tail (x : string) (b : bool) :
  dir_like x ->
  exists d, dir_like d /\
    forall a, plain_name a ->
      Path.normalizeString (x +:+ a) b = d +:+ a /\
      Path.normalizeString (x +:+ (a +:+ "/")) b = d +:+ a.
Proof.
  intros Hx. destruct (split_dir_like x Hx) as [pre Hpre].
  exists (join_dir (rev (fold_left (Path.norm_step b) pre []))).
  split; [apply join_dir_like |].
  intros a Ha. pose proof Ha as (Hsep & _).
  unfold Path.normalizeString. rewrite !Hpre.
  change (a +:+ "/") with (a +:+ String Path.sep "").
  rewrite split_append_sep, (split_no_sep a Hsep). simpl.
  rewrite !fold_left_app. simpl.
  rewrite (norm_step_plain b _ a Ha). simpl.
  now rewrite join_snoc.
Qed.

Lemma isAbsolute_append (x a : string) :
  x <> "" -> Path.isAbsolute (x +:+ a) = Path.isAbsolute x.
Proof. destruct x; [contradiction | reflexivity]. Qed.

Lemma isAbsolute_plain (a : string) : plain_name a -> Path.isAbsolute a = false.
Proof.
  intros (Hsep & Hne & _). destruct a as [| c a]; [reflexivity |].
  simpl in *. apply andb_true_iff in Hsep as [Hc _]. now apply negb_true_iff in Hc.
Qed.

Lemma isAbsolute_tail (x a : string) :
  dir_like x -> plain_name a -> Path.isAbsolute (x +:+ a) = Path.isAbsolute x.
Proof.
  intros [-> | [y ->]] Ha.
  - now apply isAbsolute_plain.
  - apply isAbsolute_append. destruct y; discriminate.
Qed.

Lemma dir_like_append (x y : string) : dir_like y -> y <> "" -> dir_like (x +:+ y).
Proof.
  intros [-> | [z ->]] Hne; [contradiction |].
  right. exists (x +:+ z). now rewrite append_assoc.
Qed.

Lemma dir_like_prefix (p d : string) :
  dir_like d -> (p = "" \/ p = "/") -> dir_like (p +:+ d).
Proof.
  intros [-> | [z ->]] [-> | ->].
  - now left.
  - right. now exists "".
  - right. now exists z.
  - right. exists ("/" +:+ z). now rewrite append_assoc.
Qed.

(** [path.resolve] keeps a plain last name. *)
Lemma resolve_tail (root x : string) :
  dir_like x ->
  exists r, forall a, plain_name a -> Path.resolve root (x +:+ a) = r +:+ a.
Proof.
  intros Hx.
  destruct (Path.isAbsolute x) eqn:Habs.
  - destruct (normalizeString_tail x false Hx) as (d & _ & Hd).
    exists ("/" +:+ d). intros a Ha. unfold Path.resolve.
    pose proof (plain_name_nonempty_append x a Ha) as Hne.
    apply String.eqb_neq in Hne. rewrite Hne, (isAbsolute_tail x a Hx Ha), Habs.
    simpl. rewrite append_assoc. destruct (Hd a Ha) as [_ ->].
    now rewrite append_assoc.
  - assert (Hp : dir_like (root +:+ "/" +:+ x)).
    { destruct Hx as [-> | [y ->]].
      - right. exists root. reflexivity.
      - right. exists (root +:+ "/" +:+ y). now rewrite !append_assoc. }
    destruct (normalizeString_tail _ (negb (Path.isAbsolute root)) Hp) as (d & _ & Hd).
    exists ((if Path.isAbsolute root then "/" else "") +:+ d).
    intros a Ha. unfold Path.resolve.
    pose proof (plain_name_nonempty_append x a Ha) as Hne.
    apply String.eqb_neq in Hne. rewrite Hne, (isAbsolute_tail x a Hx Ha), Habs.
    simpl.
    replace (root +:+ "/" +:+ (x +:+ a) +:+ "/")
      with ((root +:+ "/" +:+ x) +:+ (a +:+ "/")) by now rewrite !append_assoc.
    destruct (Hd a Ha) as [_ ->].
    destruct (Path.isAbsolute root); [now rewrite append_assoc |].
    simpl. pose proof (plain_name_nonempty_append d a Ha) as Hne'.
    apply String.eqb_neq in Hne'. now rewrite Hne'.
Qed.

Lemma ends_with_sep_append (x a : string) :
  a <> "" -> Path.ends_with_sep (x +:+ a) = Path.ends_with_sep a.
Proof.
  intros Ha. induction x as [| c x IH]; [reflexivity |].
  rewrite append_cons. simpl. rewrite IH.
  destruct (x +:+ a) eqn:Hxa; [| reflexivity].
  destruct x; [now subst | discriminate].
Qed.

Lemma ends_with_sep_no_sep (a : string) : no_sep a = true -> Path.ends_with_sep a = false.
Proof.
  induction a as [| c a IH]; [reflexivity |].
  simpl. intros H. apply andb_true_iff in H as [Hc Ha].
  apply negb_true_iff in Hc. destruct a; [exact Hc | now apply IH].
Qed.

(** [path.join(dir, name)] keeps a plain name. *)
Lemma join_tail (dir : string) :
  exists g, dir_like g /\
    forall a, plain_name a -> Path.join [dir; a] = g +:+ a.
Proof.
  set (x := if String.eqb dir "" then "" else dir +:+ "/").
  assert (Hx : dir_like x).
  { unfold x. destruct (String.eqb dir ""); [now left | right; now exists dir]. }
  destruct (normalizeString_tail x (negb (Path.isAbsolute x)) Hx) as (d & Hd & Hnorm).
  exists ((if Path.isAbsolute x then "/" else "") +:+ d). split.
  { apply dir_like_prefix; [exact Hd |]. destruct (Path.isAbsolute x); auto. }
  intros a Ha. pose proof Ha as (Hsep & Hne & _).
  assert (Hjoined : Path.joined [dir; a] = x +:+ a).
  { unfold Path.joined, x. simpl.
    apply String.eqb_neq in Hne. rewrite Hne. simpl.
    destruct (String.eqb dir ""); simpl; [reflexivity |].
    now rewrite append_assoc. }
  unfold Path.join. rewrite Hjoined.
  pose proof (plain_name_nonempty_append x a Ha) as Hxa.
  apply String.eqb_neq in Hxa. rewrite Hxa.
  unfold Path.normalize. rewrite Hxa, (isAbsolute_tail x a Hx Ha).
  rewrite (ends_with_sep_append x a Hne), (ends_with_sep_no_sep a Hsep).
  destruct (Hnorm a Ha) as [-> _].
  pose proof (plain_name_nonempty_append d a Ha) as Hda.
  apply String.eqb_neq in Hda. rewrite Hda.
  destruct (Path.isAbsolute x); [now rewrite append_assoc | reflexivity].
Qed.

(** ** Names without a separator *)

Lemma no_sep_append (s t : string) : no_sep (s +:+ t) = no_sep s && no_sep t.
Proof.
  induction s as [| c s IH]; [reflexivity |].
  rewrite append_cons. simpl. rewrite IH. now rewrite andb_assoc.
Qed.

Lemma no_sep_of_chars (l : list ascii) :
  no_sep (JsStr.of_chars l) = forallb (fun c => negb (Ascii.eqb c Path.sep)) l.
Proof. induction l as [| c l IH]; [reflexivity |]. simpl. now rewrite IH. Qed.

Lemma no_sep_uint (d : Decimal.uint) : no_sep (NilEmpty.string_of_uint d) = true.
Proof. induction d; simpl; auto. Qed.

Lemma no_sep_of_nat (n : nat) : no_sep (JsStr.of_nat n) = true.
Proof. apply no_sep_uint. Qed.

Lemma of_nat_inj (i j : nat) : JsStr.of_nat i = JsStr.of_nat j -> i = j.
Proof.
  unfold JsStr.of_nat. intros H.
  apply (f_equal NilEmpty.uint_of_string) in H.
  rewrite !NilEmpty.usu in H. injection H as H.
  apply (f_equal Nat.of_uint) in H. now rewrite !Unsigned.of_to in H.
Qed.

(** A name with an underscore in it is neither empty, nor [.], nor [..]. *)
Lemma underscore_plain (s t : string) :
  no_sep s = true -> no_sep t = true -> plain_name (s +:+ "_" +:+ t).
Proof.
  intros Hs Ht. split; [| split; [| split]].
  - rewrite !no_sep_append, Hs, Ht. reflexivity.
  - destruct s; discriminate.
  - destruct s as [| c1 [| c2 s]]; discriminate.
  - destruct s as [| c1 [| c2 [| c3 s]]]; discriminate.
Qed.

Lemma replaceClass_unsafe_no_sep (s : string) :
  no_sep (JsStr.replaceClass Rename.is_unsafe "_" s) = true.
Proof.
  induction s as [| x s IH]; [reflexivity |].
  simpl. destruct (Rename.is_unsafe x) eqn:Hx.
  - rewrite append_cons. simpl. exact IH.
  - simpl. rewrite IH, andb_true_r. apply negb_true_iff.
    destruct (Ascii.eqb_spec x Path.sep) as [-> | _]; [discriminate Hx | reflexivity].
Qed.

Lemma newNameOf_no_sep (a : Rename.Args) (now : JsDate) (exifData : option ExifData)
      (originalName : string) (counter : float) :
  no_sep (Rename.newNameOf a now exifData originalName counter) = true.
Proof.
  unfold Rename.newNameOf.
  destruct (Rename.locationFields exifData) as [[location city] country].
  unfold Rename.buildName, Rename.cleanName. apply replaceClass_unsafe_no_sep.
Qed.

Lemma take_seg_no_sep (l : list ascii) :
  forallb (fun c => negb (Ascii.eqb c Path.sep)) (Path.take_seg l) = true.
Proof.
  induction l as [| c l IH]; [reflexivity |].
  simpl. destruct (Ascii.eqb c Path.sep) eqn:Hc; [reflexivity |].
  simpl. now rewrite Hc, IH.
Qed.

Lemma upto_dot_no_sep (l before after : list ascii) :
  forallb (fun c => negb (Ascii.eqb c Path.sep)) l = true ->
  Path.upto_dot l = Some (before, after) ->
  forallb (fun c => negb (Ascii.eqb c Path.sep)) before = true.
Proof.
  revert before after. induction l as [| c l IH]; intros before after Hl; [discriminate |].
  simpl in *. apply andb_true_iff in Hl as [Hc Hl].
  destruct (Ascii.eqb c "."); [now intros [= <- _] |].
  destruct (Path.upto_dot l) as [[b a'] |]; [| discriminate].
  intros [= <- _]. simpl. now rewrite Hc, (IH b a' Hl eq_refl).
Qed.

Lemma forallb_rev_true {A : Type} (f : A -> bool) (l : list A) :
  forallb f l = true -> forallb f (rev l) = true.
Proof.
  induction l as [| x l IH]; [trivial |].
  simpl. intros H. apply andb_true_iff in H as [Hx Hl].
  rewrite forallb_app, (IH Hl). simpl. now rewrite Hx.
Qed.

Lemma extname_no_sep (p : string) : no_sep (Path.extname p) = true.
Proof.
  unfold Path.extname.
  destruct (Path.upto_dot (Path.rev_last_segment p)) as [[before after] |] eqn:Hdot;
    [| reflexivity].
  pose proof (upto_dot_no_sep _ _ _ (take_seg_no_sep _) Hdot) as Hbefore.
  assert (Hext : no_sep (JsStr.of_chars ("."%char :: rev before)) = true).
  { rewrite no_sep_of_chars. simpl. now apply forallb_rev_true. }
  destruct before as [| b before]; destruct after as [| c [| c' after]];
    try reflexivity; try exact Hext.
  all: destruct c as [[] [] [] [] [] [] [] []]; first [exact Hext | reflexivity].
Qed.

(** ** The loops of [rename_by_exif] stop *)

Lemma tail_keys_distinct (w : World) (x : string) (name : nat -> string) :
  dir_like x ->
  (forall k, plain_name (name k)) ->
  (forall i j, name i = name j -> i = j) ->
  forall i j, Fs.key w (x +:+ name i) = Fs.key w (x +:+ name j) -> i = j.
Proof.
  intros Hx Hplain Hinj i j. unfold Fs.key.
  destruct (resolve_tail (cwd w) x Hx) as [r Hr].
  rewrite (Hr _ (Hplain i)), (Hr _ (Hplain j)).
  intros H. apply Hinj. now apply append_inv_head in H.
Qed.

Lemma duplicate_keys_distinct (w : World) (dir newName ext : string) :
  no_sep newName = true -> no_sep ext = true ->
  forall i j,
    Fs.key w (Rename.duplicateCandidate dir newName ext i)
    = Fs.key w (Rename.duplicateCandidate dir newName ext j) -> i = j.
Proof.
  intros Hname Hext.
  destruct (join_tail dir) as (g & Hg & Hjoin).
  set (name := fun k : nat => newName +:+ "_" +:+ (JsStr.of_nat k +:+ ext)).
  assert (Hplain : forall k, plain_name (name k)).
  { intros k. apply underscore_plain; [exact Hname |].
    now rewrite no_sep_append, no_sep_of_nat, Hext. }
  assert (Hcand : forall k, Rename.duplicateCandidate dir newName ext k = g +:+ name k).
  { intros k. unfold Rename.duplicateCandidate.
    replace ((newName +:+ "_" +:+ JsStr.of_nat k) +:+ ext) with (name k)
      by (unfold name; now rewrite !append_assoc).
    apply Hjoin, Hplain. }
  intros i j. rewrite !Hcand.
  apply (tail_keys_distinct w g name Hg Hplain).
  unfold name. intros i' j' H.
  apply append_inv_head in H. apply append_inv_head in H.
  apply append_inv_tail in H. now apply of_nat_inj.
Qed.

(** The duplicate check always settles, on a path that is not in use or
    is the file's own. *)
Lemma resolveDuplicates_settles (w : World) (fs : FS) (dir newName ext safe : string) :
  no_sep newName = true -> no_sep ext = true ->
  exists final,
    Rename.resolveDuplicates w fs dir newName ext safe = Some final /\
    (Fs.existsSync w fs final = false \/ final = safe).
Proof.
  intros Hname Hext. unfold Rename.resolveDuplicates, probe_fuel.
  destruct (probe_stops
              (fun p => Fs.existsSync w fs p && negb (String.eqb p safe))
              (Rename.duplicateCandidate dir newName ext)
              (Fs.key w) (Fs.occupied fs) 1
              (Path.join [dir; newName +:+ ext])) as [final Hfinal].
  - intros p Hp. apply andb_true_iff in Hp as [Hp _]. now apply existsSync_occupied.
  - now apply duplicate_keys_distinct.
  - exists final. split; [exact Hfinal |].
    apply probe_settles in Hfinal. apply andb_false_iff in Hfinal as [H | H].
    + now left.
    + right. apply negb_false_iff in H. now apply String.eqb_eq.
Qed.

Lemma last_segment_split (b : string) :
  exists x seg, b = x +:+ seg /\ dir_like x /\ no_sep seg = true.
Proof.
  induction b as [| c b (x & seg & -> & Hx & Hseg)].
  - exists "", "". repeat split. now left.
  - destruct Hx as [-> | [y ->]].
    + destruct (Ascii.eqb_spec c Path.sep) as [-> | Hc].
      * exists "/", seg. repeat split; [| exact Hseg]. right. now exists "".
      * exists "", (String c seg). repeat split; [now left |].
        simpl. rewrite Hseg, andb_true_r. apply negb_true_iff.
        now apply Ascii.eqb_neq.
    + exists (String c y +:+ "/"), seg. repeat split; [| exact Hseg].
      right. now exists (String c y).
Qed.

Lemma createSafeBackupDir_stops (w : World) (fs : FS) (originalPath : string) :
  exists backupDir, createSafeBackupDir w fs originalPath = Some backupDir.
Proof.
  unfold createSafeBackupDir, probe_fuel.
  destruct (last_segment_split (backupDirName w originalPath))
    as (x & seg & Hb & Hx & Hseg).
  rewrite Hb.
  set (name := fun k : nat => seg +:+ "_" +:+ JsStr.of_nat k).
  apply (probe_stops _ _ (Fs.key w)).
  - intros p. apply existsSync_occupied.
  - intros i j.
    replace ((x +:+ seg) +:+ "_" +:+ JsStr.of_nat i) with (x +:+ name i)
      by (unfold name; now rewrite !append_assoc).
    replace ((x +:+ seg) +:+ "_" +:+ JsStr.of_nat j) with (x +:+ name j)
      by (unfold name; now rewrite !append_assoc).
    apply (tail_keys_distinct w x name Hx).
    + intros k. apply underscore_plain; [exact Hseg | apply no_sep_of_nat].
    + unfold name. intros i' j' H.
      apply append_inv_head in H. apply append_inv_head in H. now apply of_nat_inj.
Qed.

(** The [try] block always reaches [results.push] or throws; when it
    reaches it, the path it has settled on is free or the file's own. *)
Lemma plan_total (w : World) (fs : FS) (a : Rename.Args) (i : nat) (counter : float)
      (input : string) :
  exists r, Rename.plan w fs a i counter input = Some r /\
    forall p, r = Ok p ->
      validateFilePath (cwd w) input = Ok (Rename.safePath p) /\
      (Fs.existsSync w fs (Rename.finalPath p) = false
       \/ Rename.finalPath p = Rename.safePath p).
Proof.
  unfold Rename.plan.
  destruct (validateFilePath (cwd w) input) as [safe | e];
    [| exists (Throw e); split; [reflexivity | discriminate]].
  destruct (validateFileExists w fs safe) as [[] | e];
    [| exists (Throw e); split; [reflexivity | discriminate]].
  destruct (validateImageFile safe) as [[] | e];
    [| exists (Throw e); split; [reflexivity | discriminate]].
  destruct (exifr_parse_at w fs safe Rename.parseOptions) as [exifData | e];
    [| exists (Throw e); split; [reflexivity | discriminate]].
  destruct (resolveDuplicates_settles w fs (Path.dirname safe)
              (Rename.newNameOf a (now_at_item w i) exifData
                                (Path.basename_ext safe (Path.extname safe)) counter)
              (Path.extname safe) safe) as (final & -> & Hfinal).
  - apply newNameOf_no_sep.
  - apply extname_no_sep.
  - eexists. split; [reflexivity |].
    intros p [= <-]. simpl. auto.
Qed.

(** ** One turn of the rename loop *)

(** A turn ends in one of four ways: an error before anything was
    recorded; a preview; a rename; or a move that throws after the pending
    outcome was recorded, which leaves two outcomes for the one input. *)
Lemma item_cases (w : World) (a : Rename.Args) (bd : option string) (i : nat)
      (st : Rename.State) (input : string) :
  exists st', Rename.item w a bd i st input = Some st' /\
    ((exists o, Rename.results st' = Rename.results st ++ [o] /\
                Rename.status o = Rename.error /\ reports_on w input o /\
                Rename.counter st' = Rename.counter st /\ Rename.fs st' = Rename.fs st) \/
     (exists o, Rename.results st' = Rename.results st ++ [o] /\
                Rename.status o = Rename.preview /\ reports_on w input o /\
                Rename.dryRun a = true /\
                Rename.counter st' = (Rename.counter st + 1)%float /\ Rename.fs st' = Rename.fs st) \/
     (exists o, Rename.results st' = Rename.results st ++ [o] /\
                Rename.status o = Rename.renamed /\ reports_on w input o /\
                Rename.dryRun a = false /\
                Rename.counter st' = (Rename.counter st + 1)%float) \/
     (exists o1 o2, Rename.results st' = Rename.results st ++ [o1; o2] /\
                Rename.status o1 = Rename.pending /\ Rename.status o2 = Rename.error /\
                Rename.dryRun a = false /\
                Rename.counter st' = Rename.counter st)).
Proof.
  unfold Rename.item.
  destruct (plan_total w (Rename.fs st) a i (Rename.counter st) input) as (r & -> & Hr).
  destruct r as [p | e].
  - destruct (Hr p eq_refl) as [Hsafe _].
    apply validateFilePath_accepts in Hsafe as (Hsafe & _).
    assert (Hon : forall s,
               reports_on w input
                 {| Rename.original := Path.basename (Rename.safePath p);
                    Rename.new := Some (Path.basename (Rename.finalPath p));
                    Rename.status := s;
                    Rename.exifFound := Some (Rename.found p);
                    Rename.error_text := None |}).
    { intros s. right. simpl. now rewrite Hsafe. }
    destruct (Rename.dryRun a) eqn:Hdry.
    + eexists. split; [reflexivity |]. right. left.
      eexists. split; [reflexivity |]. split; [reflexivity |].
      split; [apply Hon |]. auto.
    + destruct (Rename.commit w _ a bd p) as [fs' [[] | e]].
      * eexists. split; [reflexivity |]. right. right. left.
        eexists. split;
          [simpl; rewrite rev_app_distr; simpl; rewrite rev_involutive; reflexivity |].
        split; [reflexivity |]. split; [apply Hon |]. auto.
      * eexists. split; [reflexivity |]. right. right. right.
        eexists _, _. split; [simpl; now rewrite <- app_assoc |]. auto.
  - eexists. split; [reflexivity |]. left.
    eexists. split; [reflexivity |]. split; [reflexivity |].
    split; [now left |]. auto.
Qed.

Lemma completed_turns_app (l1 l2 : list Rename.Outcome) :
  completed_turns (l1 ++ l2) = (completed_turns l1 + completed_turns l2)%nat.
Proof. unfold completed_turns. now rewrite List.filter_app, length_app. Qed.

Lemma incremented_add (n m : nat) (c : float) :
  incremented (n + m) c = incremented m (incremented n c).
Proof. unfold incremented. now rewrite Nat.add_comm, Nat.iter_add. Qed.

(** A turn applies [counter++] as often as it leaves a completed
    outcome: once or not at all. *)
Lemma item_increments (w : World) (a : Rename.Args) (bd : option string) (i : nat)
      (st : Rename.State) (input : string) :
  exists st' added,
    Rename.item w a bd i st input = Some st' /\
    Rename.results st' = Rename.results st ++ added /\
    Rename.counter st' = incremented (completed_turns added) (Rename.counter st).
Proof.
  destruct (item_cases w a bd i st input) as (st' & Hitem & Hcases).
  exists st'.
  destruct Hcases as [(o & Hres & Hs & _ & Hc & _)
                     | [(o & Hres & Hs & _ & _ & Hc & _)
                       | [(o & Hres & Hs & _ & _ & Hc)
                         | (o1 & o2 & Hres & Hs1 & Hs2 & _ & Hc)]]].
  - exists [o]. repeat split; try assumption.
    unfold completed_turns, completed. simpl. now rewrite Hs.
  - exists [o]. repeat split; try assumption.
    unfold completed_turns, completed. simpl. now rewrite Hs.
  - exists [o]. repeat split; try assumption.
    unfold completed_turns, completed. simpl. now rewrite Hs.
  - exists [o1; o2]. repeat split; try assumption.
    unfold completed_turns, completed. simpl. now rewrite Hs1, Hs2.
Qed.

Lemma loop_increments (w : World) (a : Rename.Args) (bd : option string)
      (paths : list string) :
  forall (i : nat) (st : Rename.State),
  exists st' added,
    Rename.loop w a bd i st paths = Some st' /\
    Rename.results st' = Rename.results st ++ added /\
    Rename.counter st' = incremented (completed_turns added) (Rename.counter st).
Proof.
  induction paths as [| input rest IH]; intros i st.
  - exists st, []. split; [reflexivity |]. split; [now rewrite app_nil_r | reflexivity].
  - simpl. destruct (item_increments w a bd i st input) as (st1 & g & -> & Hres1 & Hc1).
    destruct (IH (S i) st1) as (st' & added & Hloop & Hres & Hc).
    exists st', (g ++ added). split; [exact Hloop |]. split.
    + now rewrite Hres, Hres1, <- app_assoc.
    + now rewrite completed_turns_app, incremented_add, <- Hc1.
Qed.

Lemma prepare_total (w : World) (fs0 : FS) (a : Rename.Args) :
  exists r, Rename.prepare w fs0 a = Some r.
Proof.
  unfold Rename.prepare. destruct (Rename.filepaths a) as [| first rest]; [eauto |].
  destruct (Rename.backup a && negb (Rename.dryRun a)); [| eauto].
  destruct (createSafeBackupDir_stops w fs0 first) as [backupDir ->].
  destruct (Fs.mkdir_p w fs0 backupDir); eauto.
Qed.

(** The last outcome of a turn tells what became of the counter. *)
Lemma item_counter (w : World) (a : Rename.Args) (bd : option string) (i : nat)
      (st : Rename.State) (input : string) :
  exists st' o,
    Rename.item w a bd i st input = Some st' /\
    last (Rename.results st') = Some o /\
    ((completed o = true /\ Rename.counter st' = (Rename.counter st + 1)%float) \/
     (Rename.status o = Rename.error /\ Rename.counter st' = Rename.counter st)).
Proof.
  destruct (item_cases w a bd i st input) as (st' & Hitem & Hcases).
  exists st'.
  destruct Hcases as [(o & Hres & Hs & _ & Hc & _)
                     | [(o & Hres & Hs & _ & _ & Hc & _)
                       | [(o & Hres & Hs & _ & _ & Hc)
                         | (o1 & o2 & Hres & _ & Hs & _ & Hc)]]].
  - exists o. rewrite Hres, last_snoc. auto.
  - exists o. rewrite Hres, last_snoc. unfold completed. rewrite Hs. auto.
  - exists o. rewrite Hres, last_snoc. unfold completed. rewrite Hs. auto.
  - exists o2. change [o1; o2] with ([o1] ++ [o2]) in Hres.
    rewrite Hres, app_assoc, last_snoc. auto.
Qed.

(** C4, as the code has it. A turn of the loop that runs to its end (its
    outcome is [preview] or [renamed]) applies [counter++] once, which adds
    one in binary64 arithmetic; a turn that ends in the [catch] block (its
    outcome is [error]) leaves the counter as it was. Every run of the
    batch ends, and when it ends with a report, [counter] is its start
    value after as many increments as the report has completed turns. *)
Theorem counter_counts_completed_turns (w : World) (fs0 : FS) (a : Rename.Args) :
  (forall bd i st input,
     exists st' o,
       Rename.item w a bd i st input = Some st' /\
       last (Rename.results st') = Some o /\
       ((completed o = true /\ Rename.counter st' = (Rename.counter st + 1)%float) \/
        (Rename.status o = Rename.error /\ Rename.counter st' = Rename.counter st))) /\
  exists r, Rename.run w fs0 a = Some r /\
    forall st bd, r = Ok (st, bd) ->
      Rename.counter st
      = incremented (completed_turns (Rename.results st)) (Rename.counterStart a).
Proof.
  split; [intros bd i st input; apply item_counter |].
  unfold Rename.run.
  destruct (prepare_total w fs0 a) as [[[fs1 bd] | e] ->].
  - destruct (loop_increments w a bd (Rename.filepaths a) 0
                {| Rename.fs := fs1; Rename.results := [];
                   Rename.counter := Rename.counterStart a |})
      as (st' & added & -> & Hres & Hc).
    eexists. split; [reflexivity |].
    intros st bd' [= <- _]. simpl in Hres, Hc. now rewrite Hres.
  - eexists. split; [reflexivity |]. discriminate.
Qed.

(** C4, as stated, fails: of two inputs the first is missing, and the
    second is numbered 001, not 002; the counter ends at 2, not 3. *)
Lemma counter_skips_failed_turn :
  Rename.observe
    (Rename.run Scenario.world Scenario.lookalikes
       (Scenario.rename_args ["missing.jpg"; "a_b.jpg"] "{counter}" true true))
  = Some ([("missing.jpg", None, Rename.error);
           ("a_b.jpg", Some "001.jpg", Rename.preview)], 2%float).
Proof. vm_compute. reflexivity. Qed.

(** The counter is a binary64 number: small whole numbers count up one by
    one, at two to the power 53 an increment changes nothing, and a
    counter that is no whole number or is very large is written as
    [toString] writes it. *)
Example counter_is_a_binary64_number :
  incremented 3 1 = 4%float /\
  incremented 1 9007199254740992 = 9007199254740992%float /\
  map Rename.counterText [7; 1234; 2.5; 1e21; -1]%float
  = ["007"; "1234"; "2.5"; "1e+21"; "0-1"].
Proof. vm_compute. repeat split; reflexivity. Qed.

(** ** Reports of [rename_by_exif] *)

(** C2. One input, two outcomes. The only file of the batch sits in a
    directory that accepts no change; the move throws after the pending
    outcome was pushed (line 508), and the [catch] block pushes an error
    outcome for the same file (line 531). The report then counts one
    success and one error for the one input. *)
Theorem rename_failure_reported_twice :
  Rename.observe
    (Rename.run Scenario.world Scenario.locked_folder
       (Scenario.rename_args ["a.jpg"] "{datetime}_{camera}_{original}" false false))
  = Some ([("a.jpg", Some "NoDateTime_NoCamera_a.jpg", Rename.pending);
           ("a.jpg", None, Rename.error)], 1%float).
Proof. vm_compute. reflexivity. Qed.

Example rename_failure_summary :
  match Rename.run Scenario.world Scenario.locked_folder
          (Scenario.rename_args ["a.jpg"] "{datetime}_{camera}_{original}" false false) with
  | Some (Ok (st, _)) =>
      (Rename.successCount (Rename.results st), Rename.errorCount (Rename.results st))
  | _ => (0, 0)%nat
  end = (1, 1)%nat.
Proof. vm_compute. reflexivity. Qed.

(** In a dry run nothing can throw after the outcome is pushed: the
    outcomes are one per input, in input order. *)
Lemma dry_loop_outcomes (w : World) (a : Rename.Args) (bd : option string)
      (paths : list string) :
  Rename.dryRun a = true ->
  forall (i : nat) (st : Rename.State),
  exists st' outs,
    Rename.loop w a bd i st paths = Some st' /\
    Rename.results st' = Rename.results st ++ outs /\
    Forall2 (reports_on w) paths outs /\
    Rename.fs st' = Rename.fs st.
Proof.
  intros Hdry. induction paths as [| input rest IH]; intros i st.
  - exists st, []. repeat split; [now rewrite app_nil_r | constructor].
  - simpl. destruct (item_cases w a bd i st input) as (st1 & -> & Hcases).
    destruct (IH (S i) st1) as (st' & outs & -> & Hres & Hall & Hfs).
    assert (Hone : exists o, Rename.results st1 = Rename.results st ++ [o] /\
                             reports_on w input o /\ Rename.fs st1 = Rename.fs st).
    { destruct Hcases as [(o & H1 & _ & H2 & _ & H3)
                         | [(o & H1 & _ & H2 & _ & _ & H3)
                           | [(o & _ & _ & _ & Hd & _)
                             | (o1 & o2 & _ & _ & _ & Hd & _)]]];
        try congruence; eauto. }
    destruct Hone as (o & Hst1 & Hon & Hfs1).
    exists st', (o :: outs). split; [reflexivity |]. split; [| split].
    + rewrite Hres, Hst1, <- app_assoc. reflexivity.
    + now constructor.
    + congruence.
Qed.

(** ** Dry runs *)

Lemma dry_loop_statuses (w : World) (a : Rename.Args) (bd : option string)
      (paths : list string) :
  Rename.dryRun a = true ->
  forall (i : nat) (st st' : Rename.State),
  Rename.loop w a bd i st paths = Some st' ->
  Forall (fun o => Rename.status o = Rename.preview \/ Rename.status o = Rename.error)
         (Rename.results st) ->
  Forall (fun o => Rename.status o = Rename.preview \/ Rename.status o = Rename.error)
         (Rename.results st').
Proof.
  intros Hdry. induction paths as [| input rest IH]; intros i st st'.
  - simpl. now intros [= <-].
  - simpl. destruct (item_cases w a bd i st input) as (st1 & -> & Hcases).
    intros Hloop Hst. apply (IH _ _ _ Hloop).
    destruct Hcases as [(o & -> & Hs & _)
                       | [(o & -> & Hs & _)
                         | [(o & _ & _ & _ & Hd & _)
                           | (o1 & o2 & _ & _ & _ & Hd & _)]]];
      try congruence; apply Forall_app; split; auto.
Qed.

(** A dry run reports on every input, once, in input order, with a
    preview or an error, and leaves the file system as it found it. *)
Theorem dry_run_one_outcome_per_input (w : World) (fs0 : FS) (a : Rename.Args) :
  Rename.dryRun a = true ->
  Rename.filepaths a <> [] ->
  exists st,
    Rename.run w fs0 a = Some (Ok (st, None)) /\
    Forall2 (reports_on w) (Rename.filepaths a) (Rename.results st) /\
    Forall (fun o => Rename.status o = Rename.preview \/ Rename.status o = Rename.error)
           (Rename.results st) /\
    Rename.fs st = fs0.
Proof.
  intros Hdry Hpaths. unfold Rename.run, Rename.prepare.
  destruct (Rename.filepaths a) as [| first rest] eqn:Hlist; [contradiction |].
  rewrite Hdry, andb_false_r.
  destruct (dry_loop_outcomes w a None (first :: rest) Hdry 0
              {| Rename.fs := fs0; Rename.results := [];
                 Rename.counter := Rename.counterStart a |})
    as (st & outs & Hloop & Hres & Hall & Hfs).
  rewrite Hloop. exists st. simpl in Hres. subst outs.
  split; [reflexivity |]. split; [exact Hall |]. split; [| exact Hfs].
  apply (dry_loop_statuses w a None (first :: rest) Hdry 0 _ st Hloop). constructor.
Qed.

Lemma dry_run_one_outcome_per_input_witness :
  exists st,
    Rename.run Scenario.world Scenario.two_photos
               (Scenario.rename_args ["late.jpg"; "nothing.jpg"] "{date}_{counter}" true true)
    = Some (Ok (st, None)) /\
    Forall2 (reports_on Scenario.world) ["late.jpg"; "nothing.jpg"] (Rename.results st) /\
    Forall (fun o => Rename.status o = Rename.preview \/ Rename.status o = Rename.error)
           (Rename.results st) /\
    Rename.fs st = Scenario.two_photos.
Proof.
  apply (dry_run_one_outcome_per_input Scenario.world Scenario.two_photos
           (Scenario.rename_args ["late.jpg"; "nothing.jpg"] "{date}_{counter}" true true)).
  - reflexivity.
  - discriminate.
Defined.

(** ** Collision resolution *)

(** When [rename] goes through: the source is a file, and either the
    two paths are one and nothing changes, or the target fits the length
    limits, its directory exists, both directories accept changes, no
    directory stands at the target, and the entry moves. *)
Lemma rename_inversion (w : World) (fs fs' : FS) (src dst : string) :
  Fs.rename w fs src dst = Ok fs' ->
  exists f, files fs !! Fs.key w src = Some f /\
    ((Fs.key w src = Fs.key w dst /\ fs' = fs) \/
     (Fs.key w src <> Fs.key w dst /\
      Fs.path_too_long w (Fs.key w dst) = false /\
      Fs.name_too_long w (Fs.key w dst) = false /\
      Fs.is_dir fs (Path.dirname (Fs.key w dst)) = true /\
      Fs.is_readonly fs (Path.dirname (Fs.key w src)) = false /\
      Fs.is_readonly fs (Path.dirname (Fs.key w dst)) = false /\
      Fs.is_dir fs (Fs.key w dst) = false /\
      fs' = {| files := <[Fs.key w dst := f]> (delete (Fs.key w src) (files fs));
               dirs := dirs fs; readonly := readonly fs |})).
Proof.
  unfold Fs.rename. intros Hrename.
  destruct (files fs !! Fs.key w src) as [f |]; [| discriminate].
  exists f. split; [reflexivity |].
  destruct (String.eqb_spec (Fs.key w src) (Fs.key w dst)) as [Heq | Hne].
  - injection Hrename as <-. now left.
  - right.
    destruct (Fs.path_too_long w (Fs.key w dst)); [discriminate |].
    destruct (Fs.is_dir fs (Path.dirname (Fs.key w dst))); [| discriminate].
    destruct (Fs.name_too_long w (Fs.key w dst)); [discriminate |].
    destruct (Fs.is_readonly fs (Path.dirname (Fs.key w src))); [discriminate |].
    destruct (Fs.is_readonly fs (Path.dirname (Fs.key w dst))); [discriminate |].
    destruct (Fs.is_dir fs (Fs.key w dst)); [discriminate |].
    injection Hrename as <-. repeat split; auto.
Qed.




(** ** Order and numbering of the tour entries *)

Lemma insert_by_time_perm (p : Tour.Photo) (l : list Tour.Photo) :
  Permutation (Tour.insert_by_time p l) (p :: l).
Proof.
  induction l as [| q l IH]; [reflexivity |].
  simpl. destruct (getTime (Tour.datetime p) <=? getTime (Tour.datetime q));
    [reflexivity |].
  rewrite IH. apply perm_swap.
Qed.

Lemma sort_by_time_perm (l : list Tour.Photo) : Permutation (Tour.sort_by_time l) l.
Proof.
  induction l as [| p l IH]; [reflexivity |].
  simpl. rewrite insert_by_time_perm. now constructor.
Qed.

Lemma insert_by_time_sorted (p : Tour.Photo) (l : list Tour.Photo) :
  Sorted not_after l -> Sorted not_after (Tour.insert_by_time p l).
Proof.
  induction l as [| q l IH]; intros Hl.
  - simpl. repeat constructor.
  - simpl. destruct (Z.leb_spec (getTime (Tour.datetime p)) (getTime (Tour.datetime q)))
      as [Hle | Hgt].
    + constructor; [exact Hl |]. constructor. exact Hle.
    + apply Sorted_inv in Hl as [Hl Hhd]. constructor; [now apply IH |].
      destruct l as [| r l].
      * simpl. constructor. unfold not_after. lia.
      * simpl. apply HdRel_inv in Hhd.
        destruct (getTime (Tour.datetime p) <=? getTime (Tour.datetime r));
          constructor; [unfold not_after; lia | exact Hhd].
Qed.

Lemma sort_by_time_sorted (l : list Tour.Photo) : Sorted not_after (Tour.sort_by_time l).
Proof.
  induction l as [| p l IH]; [constructor |].
  simpl. now apply insert_by_time_sorted.
Qed.

(** The numbers are handed out in the collection loop, one after the
    other, starting from the number the loop is entered with. *)
Lemma collect_from_numbers (w : World) (fs : FS) (a : Tour.Args) (inputs : list string) :
  forall (i : nat) (acc : list Tour.Photo * nat),
  exists added,
    fst (Tour.collect_from w fs a i acc inputs) = fst acc ++ added /\
    map Tour.number added = seq (snd acc) (length added) /\
    snd (Tour.collect_from w fs a i acc inputs) = (snd acc + length added)%nat.
Proof.
  induction inputs as [| input rest IH]; intros i acc.
  - exists []. simpl. rewrite app_nil_r. auto.
  - simpl.
    assert (Hitem : Tour.collect_item w fs a i acc input = acc \/
                    exists photo, Tour.number photo = snd acc /\
                      Tour.collect_item w fs a i acc input
                      = (fst acc ++ [photo], S (snd acc))).
    { unfold Tour.collect_item. destruct acc as [photoData photoNumber].
      destruct (Tour.inspect w fs input) as [[safe [d |]] | e]; auto.
      destruct (truthy_num (Exif.latitude d) && truthy_num (Exif.longitude d)); auto.
      destruct (Exif.latitude d) as [lat |], (Exif.longitude d) as [lon |]; auto.
      right. eexists. split; [| reflexivity]. reflexivity. }
    destruct Hitem as [-> | (photo & Hnum & ->)]; [apply IH |].
    destruct (IH (S i) (fst acc ++ [photo], S (snd acc))) as (added & Hfst & Hmap & Hsnd).
    exists (photo :: added). simpl in *. split; [| split].
    + now rewrite Hfst, <- app_assoc.
    + now rewrite Hnum, Hmap.
    + rewrite Hsnd. lia.
Qed.

(** The entries [generateKML] receives are in non-decreasing order of
    capture time, their numbers are the numbers 1 to N in some order, and
    each of them has both coordinates. *)
Theorem tour_entries_sorted_numbered_positioned (w : World) (fs : FS) (a : Tour.Args) :
  Sorted not_after (Tour.photoData w fs a) /\
  Permutation (map Tour.number (Tour.photoData w fs a))
              (seq 1 (length (Tour.photoData w fs a))) /\
  Forall positioned (Tour.photoData w fs a).
Proof.
  unfold Tour.photoData.
  pose proof (sort_by_time_perm (Tour.collect w fs a)) as Hperm.
  split; [apply sort_by_time_sorted |]. split.
  - rewrite (Permutation_length Hperm), (Permutation_map Tour.number Hperm).
    unfold Tour.collect.
    destruct (collect_from_numbers w fs a (Tour.filepaths a) 0 ([], 1%nat))
      as (added & Hfst & Hmap & _).
    rewrite Hfst. simpl. now rewrite Hmap.
  - apply (Permutation_Forall (Permutation_sym Hperm)).
    unfold Tour.collect. apply collect_from_positions. constructor.
Qed.

(** ** [parse_exif_batch] *)

Lemma batch_item_entry (w : World) (fs : FS) (options : ParseExif.Options)
      (rs : list ParseBatch.Entry) (input : string) :
  exists e, ParseBatch.item w fs options rs input = rs ++ [e] /\
            batch_entry_for w fs options input e.
Proof.
  unfold ParseBatch.item, batch_entry_for.
  destruct (ParseBatch.inspect w fs options input) as [[safe [d |]] | err];
    eexists; split; reflexivity.
Qed.

Lemma batch_fold_entries (w : World) (fs : FS) (options : ParseExif.Options)
      (inputs : list string) :
  forall rs : list ParseBatch.Entry,
  exists added,
    fold_left (ParseBatch.item w fs options) inputs rs = rs ++ added /\
    Forall2 (batch_entry_for w fs options) inputs added.
Proof.
  induction inputs as [| input rest IH]; intros rs; simpl.
  - exists []. split; [now rewrite app_nil_r | constructor].
  - destruct (batch_item_entry w fs options rs input) as (e & -> & He).
    destruct (IH (rs ++ [e])) as (added & -> & Hadded).
    exists (e :: added). split; [now rewrite <- app_assoc | now constructor].
Qed.

(** [parse_exif_batch] yields one entry per input, in input order,
    and each entry is what its own input gives: a failing input yields
    an [error] entry and changes nothing for the others. A non-empty
    batch is never answered with an error. *)
Theorem batch_one_entry_per_input
        (stringify : list ParseBatch.Entry -> string)
        (w : World) (fs : FS) (inputs : list string) (options : ParseExif.Options) :
  Forall2 (batch_entry_for w fs options) inputs (ParseBatch.results w fs inputs options) /\
  (ParseBatch.results w fs inputs options
   = concat (map (fun input => ParseBatch.results w fs [input] options) inputs)) /\
  (isError (ParseBatch.handler stringify w fs inputs options) = true <-> inputs = []).
Proof.
  split; [| split].
  - unfold ParseBatch.results.
    destruct (batch_fold_entries w fs options inputs []) as (added & -> & H). exact H.
  - unfold ParseBatch.results.
    enough (forall rs, fold_left (ParseBatch.item w fs options) inputs rs
                       = rs ++ concat (map (fun input => ParseBatch.item w fs options [] input)
                                           inputs)) as H by apply (H []).
    induction inputs as [| input rest IH]; intros rs; simpl.
    + now rewrite app_nil_r.
    + rewrite IH. destruct (batch_item_entry w fs options rs input) as (e & -> & He).
      destruct (batch_item_entry w fs options [] input) as (e' & -> & He').
      unfold batch_entry_for in He, He'.
      destruct (ParseBatch.inspect w fs options input) as [[safe [d |]] | err];
        subst; simpl; now rewrite <- app_assoc.
  - unfold ParseBatch.handler. destruct inputs; simpl; split; congruence.
Qed.

(** ** The backup directory *)

Lemma probe_result (busy : string -> bool) (cand : nat -> string) (fuel : nat) :
  forall (k : nat) (current p : string),
  probe busy cand fuel k current = Some p ->
  p = current \/ exists j : nat, (k <= j)%nat /\ p = cand j.
Proof.
  induction fuel as [| fuel IH]; intros k current p; simpl;
    destruct (busy current); try discriminate.
  - intros [= <-]. now left.
  - intros H. apply IH in H as [-> | (j & Hj & ->)]; right.
    + exists k. split; [lia | reflexivity].
    + exists j. split; [lia | reflexivity].
  - intros [= <-]. now left.
Qed.

Lemma mkdir_p_creates (w : World) (fs fs' : FS) (p : string) :
  Fs.mkdir_p w fs p = Ok fs' ->
  Fs.is_dir fs' (Fs.key w p) = true /\ files fs' = files fs /\
  readonly fs' = readonly fs /\ dirs fs ⊆ dirs fs'.
Proof.
  unfold Fs.mkdir_p.
  destruct (existsb _ _); [discriminate |].
  destruct (_ || _); [discriminate |].
  destruct (existsb _ _); [discriminate |].
  intros [= <-]. simpl. repeat split; [| set_solver].
  unfold Fs.is_dir. apply bool_decide_eq_true. simpl.
  destruct (decide (Fs.key w p ∈ dirs fs)) as [Hin | Hnot]; [set_solver |].
  apply elem_of_union_r, elem_of_list_to_set.
  unfold Fs.is_dir. rewrite (bool_decide_eq_false_2 _ Hnot). simpl.
  apply list_elem_of_here.
Qed.

(** The loop of [createSafeBackupDir] stops, and the directory it
    names does not exist: it is the time-stamped name, or that name with
    a numeric suffix. In [rename_by_exif] the directory is made only for
    a real run with backups; making it changes no file. *)
Theorem backup_directory_is_fresh (w : World) (fs0 : FS) (a : Rename.Args) :
  (forall originalPath, exists backupDir,
      createSafeBackupDir w fs0 originalPath = Some backupDir /\
      Fs.existsSync w fs0 backupDir = false /\
      (backupDir = backupDirName w originalPath \/
       exists n : nat, (1 <= n)%nat /\
         backupDir = backupDirName w originalPath +:+ "_" +:+ JsStr.of_nat n)) /\
  exists r, Rename.prepare w fs0 a = Some r /\
    forall fs1 bd, r = Ok (fs1, bd) ->
      files fs1 = files fs0 /\
      if Rename.backup a && negb (Rename.dryRun a)
      then exists first rest backupDir,
             Rename.filepaths a = first :: rest /\
             createSafeBackupDir w fs0 first = Some backupDir /\
             bd = Some backupDir /\
             Fs.is_dir fs1 (Fs.key w backupDir) = true
      else bd = None /\ fs1 = fs0.
Proof.
  split.
  - intros originalPath.
    destruct (createSafeBackupDir_stops w fs0 originalPath) as (d & Hd).
    exists d. split; [exact Hd |]. unfold createSafeBackupDir in Hd. split.
    + exact (probe_settles _ _ _ _ _ _ Hd).
    + apply probe_result in Hd as [-> | (j & Hj & ->)]; [now left | right].
      now exists j.
  - unfold Rename.prepare.
    destruct (Rename.filepaths a) as [| first rest].
    { eexists. split; [reflexivity | discriminate]. }
    destruct (Rename.backup a && negb (Rename.dryRun a)).
    + destruct (createSafeBackupDir_stops w fs0 first) as (d & Hd). rewrite Hd.
      destruct (Fs.mkdir_p w fs0 d) as [fs1 | e] eqn:Hmk.
      * eexists. split; [reflexivity |]. intros ? ? [= <- <-].
        apply mkdir_p_creates in Hmk as (Hdir & Hfiles & _).
        split; [exact Hfiles |]. now exists first, rest, d.
      * eexists. split; [reflexivity | discriminate].
    + eexists. split; [reflexivity |]. now intros ? ? [= <- <-].
Qed.

(** ** Every input has one settled outcome *)

Lemma item_turn (w : World) (a : Rename.Args) (bd : option string) (i : nat)
      (st : Rename.State) (input : string) :
  exists st' g, Rename.item w a bd i st input = Some st' /\
    Rename.results st' = Rename.results st ++ g /\ turn_outcomes w input g.
Proof.
  unfold Rename.item.
  destruct (plan_total w (Rename.fs st) a i (Rename.counter st) input) as (r & -> & Hr).
  destruct r as [p | e].
  - destruct (Hr p eq_refl) as [Hsafe _].
    apply validateFilePath_accepts in Hsafe as (Hsafe & _).
    assert (Hon : forall s,
               reports_on w input
                 {| Rename.original := Path.basename (Rename.safePath p);
                    Rename.new := Some (Path.basename (Rename.finalPath p));
                    Rename.status := s;
                    Rename.exifFound := Some (Rename.found p);
                    Rename.error_text := None |}).
    { intros s. right. simpl. now rewrite Hsafe. }
    destruct (Rename.dryRun a) eqn:Hdry.
    + eexists _, _. split; [reflexivity |]. split; [reflexivity |].
      eexists. split; [| split; [apply (Hon Rename.preview) | now left]]. reflexivity.
    + destruct (Rename.commit w _ a bd p) as [fs' [[] | e]].
      * eexists _, _. split; [reflexivity |]. split.
        { simpl. rewrite rev_app_distr. simpl. rewrite rev_involutive. reflexivity. }
        eexists. split; [| split; [apply (Hon Rename.renamed) | now left]]. reflexivity.
      * eexists _, _. split; [reflexivity |]. split.
        { simpl. rewrite <- app_assoc. reflexivity. }
        exists {| Rename.original := Path.basename input; Rename.new := None;
                  Rename.status := Rename.error; Rename.exifFound := None;
                  Rename.error_text := Some (error_message e) |}.
        split; [reflexivity |]. split; [left; reflexivity |].
        right. eexists. split; [reflexivity |]. split; [reflexivity |].
        split; [reflexivity | apply Hon].
  - eexists _, _. split; [reflexivity |]. split; [reflexivity |].
    exists {| Rename.original := Path.basename input; Rename.new := None;
              Rename.status := Rename.error; Rename.exifFound := None;
              Rename.error_text := Some (error_message e) |}.
    split; [reflexivity |]. split; [left; reflexivity | now left].
Qed.

Lemma loop_turns (w : World) (a : Rename.Args) (bd : option string)
      (paths : list string) :
  forall (i : nat) (st : Rename.State),
  exists st' groups,
    Rename.loop w a bd i st paths = Some st' /\
    Rename.results st' = Rename.results st ++ concat groups /\
    Forall2 (turn_outcomes w) paths groups.
Proof.
  induction paths as [| input rest IH]; intros i st; simpl.
  - exists st, []. split; [reflexivity |]. split; [now rewrite app_nil_r | constructor].
  - destruct (item_turn w a bd i st input) as (st1 & g & -> & Hres1 & Hg).
    destruct (IH (S i) st1) as (st' & groups & -> & Hres & Hall).
    exists st', (g :: groups). split; [reflexivity |]. split.
    + rewrite Hres, Hres1. simpl. now rewrite <- app_assoc.
    + now constructor.
Qed.

Lemma turn_outcomes_settled (w : World) (input : string) (g : list Rename.Outcome) :
  turn_outcomes w input g ->
  exists o, List.filter settled g = [o] /\ reports_on w input o.
Proof.
  intros (o & Ho & Hon & [-> | (o1 & -> & H1 & _)]); exists o; simpl.
  - now rewrite Ho.
  - unfold settled at 1. now rewrite H1, Ho.
Qed.

Lemma settled_of_turns (w : World) (paths : list string)
      (groups : list (list Rename.Outcome)) :
  Forall2 (turn_outcomes w) paths groups ->
  Forall2 (reports_on w) paths (List.filter settled (concat groups)).
Proof.
  induction 1 as [| input g paths groups Hg _ IH]; simpl; [constructor |].
  rewrite List.filter_app.
  destruct (turn_outcomes_settled w input g Hg) as (o & -> & Ho).
  now constructor.
Qed.

(** Whatever the mode, the results of [rename_by_exif] are, in input
    order, one group of outcomes per input: a single settled outcome
    (preview, renamed or error), or a pending outcome followed by the
    error of its move. So the outcomes that are not pending are exactly
    one per input, in input order. *)
Theorem every_input_has_one_settled_outcome (w : World) (fs0 : FS) (a : Rename.Args) :
  exists r, Rename.run w fs0 a = Some r /\
    forall st bd, r = Ok (st, bd) ->
      (exists groups, Rename.results st = concat groups /\
                      Forall2 (turn_outcomes w) (Rename.filepaths a) groups) /\
      Forall2 (reports_on w) (Rename.filepaths a)
              (List.filter settled (Rename.results st)).
Proof.
  unfold Rename.run.
  destruct (prepare_total w fs0 a) as (r0 & ->).
  destruct r0 as [[fs1 bd0] | e]; [| eexists; split; [reflexivity | discriminate]].
  destruct (loop_turns w a bd0 (Rename.filepaths a) 0
              {| Rename.fs := fs1; Rename.results := [];
                 Rename.counter := Rename.counterStart a |})
    as (st' & groups & -> & Hres & Hall).
  eexists. split; [reflexivity |]. intros st bd [= <- <-]. simpl in Hres. split.
  - now exists groups.
  - rewrite Hres. now apply settled_of_turns.
Qed.

(** ** Moves *)

Lemma rename_moves (w : World) (fs fs' : FS) (src dst : string) :
  Fs.rename w fs src dst = Ok fs' ->
  exists f, files fs !! Fs.key w src = Some f /\
            files fs' !! Fs.key w dst = Some f /\
            (Fs.key w src <> Fs.key w dst -> files fs' !! Fs.key w src = None) /\
            (forall k, k <> Fs.key w dst -> files fs !! k = None ->
                       files fs' !! k = None) /\
            dirs fs' = dirs fs /\ readonly fs' = readonly fs.
Proof.
  intros Hrename.
  apply rename_inversion in Hrename
    as (f & Hsrc & [[Heq ->] | (Hne & _ & _ & _ & _ & _ & _ & ->)]);
    exists f; (split; [exact Hsrc |]).
  - rewrite <- Heq.
    split; [exact Hsrc |]. split; [congruence | auto].
  - simpl. split; [apply lookup_insert_eq |].
    split; [| split; [| auto]].
    + intros _. rewrite lookup_insert_ne by congruence. apply lookup_delete_eq.
    + intros k Hk Hnone. rewrite lookup_insert_ne by congruence.
      destruct (decide (k = Fs.key w src)) as [-> | Hks];
        [apply lookup_delete_eq | now rewrite lookup_delete_ne by congruence].
Qed.

(** A file that [rename_by_exif] has moved is at its final path with
    its content, and no longer at its old path. With [backup] on it has
    passed through the backup directory and left it again: nothing is at
    the backup path afterwards (unless that is the final path itself).
    The backup directory keeps no copy. *)
Theorem renamed_file_leaves_no_copy
        (w : World) (fs fs' : FS) (a : Rename.Args) (bd : option string) (p : Rename.Plan) :
  Rename.commit w fs a bd p = (fs', Ok tt) ->
  exists f,
    files fs !! Fs.key w (Rename.safePath p) = Some f /\
    files fs' !! Fs.key w (Rename.finalPath p) = Some f /\
    (Fs.key w (Rename.safePath p) <> Fs.key w (Rename.finalPath p) ->
     files fs' !! Fs.key w (Rename.safePath p) = None) /\
    forall backupDir,
      Rename.backup a = true -> bd = Some backupDir ->
      Fs.key w (Path.join [backupDir; Path.basename (Rename.safePath p)])
      <> Fs.key w (Rename.finalPath p) ->
      files fs' !! Fs.key w (Path.join [backupDir; Path.basename (Rename.safePath p)])
      = None.
Proof.
  unfold Rename.commit. destruct (Rename.backup a) eqn:Hbackup.
  - destruct bd as [bdir |]; [| discriminate].
    destruct (Fs.rename w fs _ _) as [fs1 | e] eqn:Hone; [| discriminate].
    destruct (Fs.rename w fs1 _ _) as [fs2 | e] eqn:Htwo; [| discriminate].
    intros [= <-].
    apply rename_moves in Hone as (f & Hsrc & Hmid & Hleft & _).
    apply rename_moves in Htwo as (f' & Hmid' & Hdst & Hgone & Hnew & _).
    rewrite Hmid in Hmid'. injection Hmid' as <-.
    exists f. split; [exact Hsrc |]. split; [exact Hdst |]. split.
    + intros Hne.
      destruct (decide (Fs.key w (Rename.safePath p)
                        = Fs.key w (Path.join [bdir; Path.basename (Rename.safePath p)])))
        as [Heq | Hsb].
      * rewrite Heq. apply Hgone. congruence.
      * apply Hnew; [exact Hne | now apply Hleft].
    + intros backupDir _ [= <-]. exact Hgone.
  - destruct (Fs.rename w fs _ _) as [fs1 | e] eqn:Hone; [| discriminate].
    intros [= <-].
    apply rename_moves in Hone as (f & Hsrc & Hdst & Hleft & _).
    exists f. split; [exact Hsrc |]. split; [exact Hdst |]. split; [exact Hleft |].
    intros backupDir Habs. discriminate Habs.
Qed.

Lemma renamed_file_leaves_no_copy_witness :
  let w := Scenario.world in
  let fs := {| files := files Scenario.two_photos;
               dirs := dirs Scenario.two_photos ∪ {["/srv/photos/exif_backup"]};
               readonly := ∅ |} in
  let a := Scenario.rename_args ["late.jpg"] "{date}" false true in
  let p := {| Rename.safePath := "/srv/photos/late.jpg";
              Rename.finalPath := "/srv/photos/2024_late.jpg";
              Rename.found := true |} in
  let fs' := fst (Rename.commit w fs a (Some "/srv/photos/exif_backup") p) in
  exists f,
    files fs !! Fs.key w (Rename.safePath p) = Some f /\
    files fs' !! Fs.key w (Rename.finalPath p) = Some f /\
    (Fs.key w (Rename.safePath p) <> Fs.key w (Rename.finalPath p) ->
     files fs' !! Fs.key w (Rename.safePath p) = None) /\
    forall backupDir,
      Rename.backup a = true -> Some "/srv/photos/exif_backup" = Some backupDir ->
      Fs.key w (Path.join [backupDir; Path.basename (Rename.safePath p)])
      <> Fs.key w (Rename.finalPath p) ->
      files fs' !! Fs.key w (Path.join [backupDir; Path.basename (Rename.safePath p)])
      = None.
Proof.
  intros w fs a p fs'.
  apply (renamed_file_leaves_no_copy w fs fs' a (Some "/srv/photos/exif_backup") p).
  vm_compute. reflexivity.
Defined.

(** ** A batch without backups loses no file *)

Lemma item_direct_keeps_files (w : World) (a : Rename.Args) (bd : option string) (i : nat)
      (st st' : Rename.State) (input : string) :
  Rename.backup a = false ->
  Rename.item w a bd i st input = Some st' ->
  size (files (Rename.fs st')) = size (files (Rename.fs st)) /\
  dirs (Rename.fs st') = dirs (Rename.fs st) /\
  readonly (Rename.fs st') = readonly (Rename.fs st).
Proof.
  intros Hbackup. unfold Rename.item.
  destruct (plan_total w (Rename.fs st) a i (Rename.counter st) input) as (r & -> & Hr).
  destruct r as [p | e]; [| intros [= <-]; auto].
  destruct (Hr p eq_refl) as [_ Hfree].
  destruct (Rename.dryRun a); [intros [= <-]; auto |].
  unfold Rename.commit. rewrite Hbackup. simpl.
  destruct (Fs.rename w (Rename.fs st) _ _) as [fs1 | e] eqn:Hmove;
    intros [= <-]; simpl; [| auto].
  apply rename_inversion in Hmove
    as (f & Hsrc & [[Heq ->] | (Hne & _ & _ & _ & _ & _ & _ & ->)]).
  - auto.
  - simpl. split; [| auto].
    destruct Hfree as [Hfree | Hsame]; [| rewrite Hsame in Hne; contradiction].
    unfold Fs.existsSync in Hfree. apply orb_false_iff in Hfree as [Hfile _].
    unfold Fs.is_file in Hfile. apply bool_decide_eq_false in Hfile.
    rewrite map_size_insert_None.
    + rewrite map_size_delete_Some by (now exists f).
      assert (size (files (Rename.fs st)) <> 0%nat); [| lia].
      intros Hzero. apply map_size_empty_inv in Hzero. rewrite Hzero in Hsrc.
      now rewrite lookup_empty in Hsrc.
    + rewrite lookup_delete_ne by congruence.
      destruct (files (Rename.fs st) !! Fs.key w (Rename.finalPath p)) eqn:Hd;
        [| reflexivity].
      exfalso. apply Hfile. eauto.
Qed.

Lemma loop_direct_keeps_files (w : World) (a : Rename.Args) (bd : option string)
      (paths : list string) :
  Rename.backup a = false ->
  forall (i : nat) (st st' : Rename.State),
  Rename.loop w a bd i st paths = Some st' ->
  size (files (Rename.fs st')) = size (files (Rename.fs st)) /\
  dirs (Rename.fs st') = dirs (Rename.fs st) /\
  readonly (Rename.fs st') = readonly (Rename.fs st).
Proof.
  intros Hbackup.
  induction paths as [| input rest IH]; intros i st st'; simpl.
  - intros [= <-]. auto.
  - destruct (Rename.item w a bd i st input) as [st1 |] eqn:Hitem; [| discriminate].
    intros Hloop. apply IH in Hloop as (H1 & H2 & H3).
    apply (item_direct_keeps_files w a bd i st st1 input Hbackup) in Hitem
      as (H4 & H5 & H6).
    repeat split; congruence.
Qed.

(** A batch of [rename_by_exif] without backups, real or preview,
    whatever its inputs and however many of its moves fail, ends with as
    many files as it began with and with the same directories: no file is
    created, none is overwritten or lost. *)
Theorem direct_batch_loses_no_file (w : World) (fs0 : FS) (a : Rename.Args) :
  Rename.backup a = false ->
  exists r, Rename.run w fs0 a = Some r /\
    forall st bd, r = Ok (st, bd) ->
      size (files (Rename.fs st)) = size (files fs0) /\
      dirs (Rename.fs st) = dirs fs0 /\
      readonly (Rename.fs st) = readonly fs0.
Proof.
  intros Hbackup. unfold Rename.run, Rename.prepare.
  destruct (Rename.filepaths a) as [| first rest] eqn:Hpaths;
    [eexists; split; [reflexivity | discriminate] |].
  rewrite Hbackup, andb_false_l.
  destruct (loop_turns w a None (first :: rest) 0
              {| Rename.fs := fs0; Rename.results := [];
                 Rename.counter := Rename.counterStart a |})
    as (st' & groups & Hloop & _).
  rewrite Hloop. eexists. split; [reflexivity |]. intros st bd [= <- <-].
  apply (loop_direct_keeps_files w a None _ Hbackup) in Hloop. exact Hloop.
Qed.

Lemma direct_batch_loses_no_file_witness :
  exists r, Rename.run Scenario.world Scenario.lookalikes
              (Scenario.rename_args ["a b.jpg"; "a_bx.jpg"; "a_b.jpg"] "{original}x"
                                    false false) = Some r /\
    forall st bd, r = Ok (st, bd) ->
      size (files (Rename.fs st)) = size (files Scenario.lookalikes) /\
      dirs (Rename.fs st) = dirs Scenario.lookalikes /\
      readonly (Rename.fs st) = readonly Scenario.lookalikes.
Proof.
  apply (direct_batch_loses_no_file Scenario.world Scenario.lookalikes
           (Scenario.rename_args ["a b.jpg"; "a_bx.jpg"; "a_b.jpg"] "{original}x"
                                 false false)).
  reflexivity.
Defined.

(** ** The characters of a new name *)

Lemma replaceClass_unsafe_name_chars (s : string) :
  all_chars name_char (JsStr.replaceClass Rename.is_unsafe "_" s) = true.
Proof.
  induction s as [| x s IH]; [reflexivity |].
  simpl. destruct (Rename.is_unsafe x) eqn:Hx.
  - rewrite append_cons. simpl. exact IH.
  - simpl. rewrite IH, andb_true_r. unfold name_char. now rewrite Hx.
Qed.

(** ** Canonical paths *)

Lemma split_pieces_no_sep (s : string) :
  Forall (fun x => no_sep x = true) (JsStr.split Path.sep s).
Proof.
  induction s as [| c s IH]; simpl; [repeat constructor |].
  destruct (Ascii.eqb c Path.sep) eqn:Hc; [now constructor |].
  destruct (JsStr.split Path.sep s) as [| seg rest].
  - repeat constructor. simpl. now rewrite Hc.
  - inversion IH as [| ? ? Hseg Hrest]; subst. constructor; [| exact Hrest].
    simpl. now rewrite Hc, Hseg.
Qed.

Lemma norm_step_keeps_plain (stack : list string) (seg : string) :
  no_sep seg = true -> Forall plain_name stack ->
  Forall plain_name (Path.norm_step false stack seg).
Proof.
  intros Hseg Hstack. unfold Path.norm_step.
  destruct (String.eqb_spec seg "") as [| H0]; [exact Hstack |].
  destruct (String.eqb_spec seg ".") as [| H1]; [exact Hstack |]. simpl.
  destruct (String.eqb_spec seg "..") as [| H2].
  - destruct Hstack as [| top rest Htop Hrest]; [constructor |].
    destruct (String.eqb top ".."); [now constructor | exact Hrest].
  - constructor; [| exact Hstack]. repeat split; assumption.
Qed.

Lemma fold_norm_keeps_plain (pieces : list string) :
  Forall (fun x => no_sep x = true) pieces ->
  forall stack, Forall plain_name stack ->
  Forall plain_name (fold_left (Path.norm_step false) pieces stack).
Proof.
  induction 1 as [| seg pieces Hseg _ IH]; intros stack Hstack; simpl; [exact Hstack |].
  apply IH. now apply norm_step_keeps_plain.
Qed.

(** In a process whose working directory is absolute, every resolved
    path is canonical. *)
Lemma resolve_canonical (cwd p : string) :
  Path.isAbsolute cwd = true ->
  exists segs, Forall plain_name segs /\ Path.resolve cwd p = canonical segs.
Proof.
  intros Habs. unfold Path.resolve. rewrite Habs, orb_true_r. simpl.
  unfold Path.normalizeString.
  eexists. split; [| reflexivity].
  apply Forall_rev. apply fold_norm_keeps_plain; [apply split_pieces_no_sep | constructor].
Qed.

(** Pieces that are empty or plain: the empty ones are dropped, the
    plain ones are kept in order. *)
Lemma fold_norm_pieces (b : bool) (pieces : list string) :
  Forall (fun x => x = "" \/ plain_name x) pieces ->
  forall stack,
  fold_left (Path.norm_step b) pieces stack
  = rev (List.filter (fun x => negb (String.eqb x "")) pieces) ++ stack.
Proof.
  induction 1 as [| seg pieces Hseg _ IH]; intros stack; simpl; [reflexivity |].
  rewrite IH. destruct Hseg as [-> | Hplain].
  - reflexivity.
  - rewrite (norm_step_plain b stack seg Hplain).
    destruct Hplain as (_ & Hne & _). apply String.eqb_neq in Hne. rewrite Hne.
    simpl. now rewrite <- app_assoc.
Qed.

Lemma filter_plain (segs : list string) :
  Forall plain_name segs ->
  List.filter (fun x => negb (String.eqb x "")) segs = segs.
Proof.
  induction 1 as [| seg segs (_ & Hne & _) _ IH]; simpl; [reflexivity |].
  apply String.eqb_neq in Hne. rewrite Hne. simpl. now rewrite IH.
Qed.

Lemma split_join (segs : list string) :
  Forall plain_name segs ->
  JsStr.split Path.sep (JsStr.join "/" segs) = match segs with [] => [""] | _ => segs end.
Proof.
  induction 1 as [| seg segs Hseg Hsegs IH]; [reflexivity |].
  destruct Hseg as (Hsep & _).
  destruct segs as [| seg' segs]; [now apply split_no_sep |].
  change (JsStr.join "/" (seg :: seg' :: segs))
    with (seg +:+ String Path.sep (JsStr.join "/" (seg' :: segs))).
  now rewrite split_append_sep, IH, (split_no_sep seg Hsep).
Qed.

Lemma split_pieces_of_join (segs : list string) :
  Forall plain_name segs ->
  Forall (fun x => x = "" \/ plain_name x) (JsStr.split Path.sep (JsStr.join "/" segs)) /\
  List.filter (fun x => negb (String.eqb x "")) (JsStr.split Path.sep (JsStr.join "/" segs))
  = segs.
Proof.
  intros Hsegs. rewrite (split_join segs Hsegs). destruct segs as [| seg segs].
  - split; [repeat constructor; now left | reflexivity].
  - split; [| now apply filter_plain].
    eapply Forall_impl; [exact Hsegs |]. intros x Hx. now right.
Qed.

(** Normalizing a canonical path, with or without a separator or one
    more plain name behind it. *)
Lemma normalizeString_canonical (b : bool) (segs : list string) :
  Forall plain_name segs ->
  Path.normalizeString (canonical segs) b = JsStr.join "/" segs /\
  Path.normalizeString (canonical segs +:+ "/") b = JsStr.join "/" segs /\
  forall a, plain_name a ->
    Path.normalizeString (canonical segs +:+ "/" +:+ a) b = JsStr.join "/" (segs ++ [a]).
Proof.
  intros Hsegs. destruct (split_pieces_of_join segs Hsegs) as [Hpieces Hfilter].
  unfold Path.normalizeString, canonical.
  assert (Hempty : Forall (fun x => x = "" \/ plain_name x) [""])
    by (repeat constructor; now left).
  split; [| split].
  - change ("/" +:+ JsStr.join "/" segs) with (String Path.sep (JsStr.join "/" segs)).
    cbn [JsStr.split]. rewrite Ascii.eqb_refl.
    rewrite fold_norm_pieces by (constructor; [now left | exact Hpieces]).
    cbn [List.filter]. simpl String.eqb. cbn [negb]. rewrite Hfilter.
    now rewrite app_nil_r, rev_involutive.
  - change (("/" +:+ JsStr.join "/" segs) +:+ "/")
      with (String Path.sep (JsStr.join "/" segs +:+ String Path.sep "")).
    cbn [JsStr.split]. rewrite Ascii.eqb_refl, split_append_sep.
    rewrite fold_norm_pieces
      by (constructor; [now left | apply Forall_app_2; assumption]).
    cbn [List.filter]. simpl String.eqb. cbn [negb].
    rewrite List.filter_app, Hfilter. simpl.
    now rewrite !app_nil_r, rev_involutive.
  - intros a Ha. pose proof Ha as (Hsep & Hne & _).
    change (("/" +:+ JsStr.join "/" segs) +:+ "/" +:+ a)
      with (String Path.sep (JsStr.join "/" segs +:+ String Path.sep a)).
    cbn [JsStr.split]. rewrite Ascii.eqb_refl, split_append_sep, (split_no_sep a Hsep).
    rewrite fold_norm_pieces.
    + cbn [List.filter]. simpl String.eqb. cbn [negb].
      rewrite List.filter_app, Hfilter. simpl.
      apply String.eqb_neq in Hne. rewrite Hne. simpl.
      now rewrite !app_nil_r, rev_involutive.
    + constructor; [now left |]. apply Forall_app_2; [exact Hpieces |].
      constructor; [now right | constructor].
Qed.

(** Resolving a canonical path gives it back. *)
Lemma resolve_of_canonical (cwd : string) (segs : list string) :
  Forall plain_name segs -> Path.resolve cwd (canonical segs) = canonical segs.
Proof.
  intros Hsegs. unfold Path.resolve.
  change (String.eqb (canonical segs) "") with false.
  change (Path.isAbsolute (canonical segs)) with true. cbn iota. simpl orb. cbn iota.
  destruct (normalizeString_canonical (negb true) segs Hsegs) as (_ & -> & _).
  reflexivity.
Qed.

Lemma join_plain_nonempty (segs : list string) :
  Forall plain_name segs -> segs <> [] -> JsStr.join "/" segs <> "".
Proof.
  intros Hsegs Hne. destruct segs as [| seg segs]; [contradiction |].
  inversion Hsegs as [| ? ? (_ & Hseg & _) _]; subst.
  destruct segs; simpl; [exact Hseg |]. destruct seg; [contradiction | discriminate].
Qed.

(** [path.join] of a canonical directory and a plain name. *)
Lemma join_canonical (init : list string) (a : string) :
  Forall plain_name init -> plain_name a ->
  Path.join [canonical init; a] = canonical (init ++ [a]).
Proof.
  intros Hinit Ha. pose proof Ha as (Hsep & Hne & _).
  assert (Hjoined : Path.joined [canonical init; a] = canonical init +:+ "/" +:+ a).
  { unfold Path.joined. cbn [List.filter].
    change (String.eqb (canonical init) "") with false.
    apply String.eqb_neq in Hne. rewrite Hne. reflexivity. }
  unfold Path.join. rewrite Hjoined.
  change (String.eqb (canonical init +:+ "/" +:+ a) "") with false. cbn iota.
  unfold Path.normalize.
  change (String.eqb (canonical init +:+ "/" +:+ a) "") with false. cbn iota.
  change (Path.isAbsolute (canonical init +:+ "/" +:+ a)) with true.
  rewrite <- append_assoc.
  rewrite (ends_with_sep_append (canonical init +:+ "/") a Hne),
    (ends_with_sep_no_sep a Hsep).
  rewrite append_assoc.
  destruct (normalizeString_canonical (negb true) init Hinit) as (_ & _ & ->);
    [| exact Ha].
  assert (Hbody : JsStr.join "/" (init ++ [a]) <> "").
  { rewrite join_snoc. now apply plain_name_nonempty_append. }
  apply String.eqb_neq in Hbody. rewrite Hbody. reflexivity.
Qed.

(** *** The last segment of a path that ends in a name *)

Lemma chars_of_chars (l : list ascii) : JsStr.chars (JsStr.of_chars l) = l.
Proof. apply list_ascii_of_string_of_list_ascii. Qed.

Lemma of_chars_chars (s : string) : JsStr.of_chars (JsStr.chars s) = s.
Proof. apply string_of_list_ascii_of_string. Qed.

Lemma no_sep_chars (s : string) :
  no_sep s = forallb (fun c => negb (Ascii.eqb c Path.sep)) (JsStr.chars s).
Proof. induction s as [| c s IH]; simpl; [reflexivity | now rewrite IH]. Qed.

Lemma rev_chars_dir_like (g : string) :
  dir_like g ->
  rev (JsStr.chars g) = [] \/ exists r, rev (JsStr.chars g) = Path.sep :: r.
Proof.
  intros [-> | [y ->]]; [now left | right].
  rewrite chars_append, rev_app_distr. simpl. eauto.
Qed.

Lemma take_seg_app (l r : list ascii) :
  forallb (fun c => negb (Ascii.eqb c Path.sep)) l = true ->
  (r = [] \/ exists r', r = Path.sep :: r') ->
  Path.take_seg (l ++ r) = l.
Proof.
  intros Hl Hr. induction l as [| c l IH]; simpl.
  - destruct Hr as [-> | [r' ->]]; reflexivity.
  - simpl in Hl. apply andb_true_iff in Hl as [Hc Hl].
    apply negb_true_iff in Hc. rewrite Hc. now rewrite IH.
Qed.

Lemma drop_seps_name (l r : list ascii) :
  l <> [] -> forallb (fun c => negb (Ascii.eqb c Path.sep)) l = true ->
  Path.drop_seps (l ++ r) = l ++ r.
Proof.
  intros Hne Hl. destruct l as [| c l]; [contradiction |].
  simpl in *. apply andb_true_iff in Hl as [Hc _].
  apply negb_true_iff in Hc. now rewrite Hc.
Qed.

Lemma rev_last_segment_tail (g x : string) :
  dir_like g -> no_sep x = true -> x <> "" ->
  Path.rev_last_segment (g +:+ x) = rev (JsStr.chars x).
Proof.
  intros Hg Hx Hne. unfold Path.rev_last_segment.
  rewrite chars_append, rev_app_distr.
  assert (Hrev : forallb (fun c => negb (Ascii.eqb c Path.sep)) (rev (JsStr.chars x)) = true).
  { apply forallb_rev_true. now rewrite <- no_sep_chars. }
  rewrite drop_seps_name; [| | exact Hrev].
  - apply take_seg_app; [exact Hrev | now apply rev_chars_dir_like].
  - intros H. apply (f_equal (@rev ascii)) in H. rewrite rev_involutive in H.
    simpl in H. apply Hne. rewrite <- (of_chars_chars x), H. reflexivity.
Qed.

(** [path.basename] of a path that ends in a name is the name. *)
Lemma basename_tail (g x : string) :
  dir_like g -> no_sep x = true -> x <> "" -> Path.basename (g +:+ x) = x.
Proof.
  intros Hg Hx Hne. unfold Path.basename.
  rewrite (rev_last_segment_tail g x Hg Hx Hne), rev_involutive.
  apply of_chars_chars.
Qed.

Lemma canonical_snoc (init : list string) (x : string) :
  canonical (init ++ [x]) = ("/" +:+ join_dir init) +:+ x.
Proof. unfold canonical. now rewrite join_snoc, append_assoc. Qed.

Lemma canonical_dir_like (init : list string) : dir_like ("/" +:+ join_dir init).
Proof. apply dir_like_prefix; [apply join_dir_like | now right]. Qed.

Lemma basename_canonical (init : list string) (x : string) :
  plain_name x -> Path.basename (canonical (init ++ [x])) = x.
Proof.
  intros (Hsep & Hne & _). rewrite canonical_snoc.
  apply basename_tail; [apply canonical_dir_like | exact Hsep | exact Hne].
Qed.

(** *** [path.dirname] of a canonical path *)

Lemma dirname_scan_none (l : list ascii) :
  forallb (fun c => negb (Ascii.eqb c Path.sep)) l = true ->
  forall m, Path.dirname_scan l m = None.
Proof.
  induction l as [| c l IH]; intros Hl m; [reflexivity |].
  simpl in *. apply andb_true_iff in Hl as [Hc Hl].
  apply negb_true_iff in Hc. rewrite Hc. now apply IH.
Qed.

Lemma dirname_scan_segment (l r : list ascii) :
  forallb (fun c => negb (Ascii.eqb c Path.sep)) l = true ->
  Path.dirname_scan (l ++ Path.sep :: r) false = Some r.
Proof.
  induction l as [| c l IH]; intros Hl; [reflexivity |].
  simpl in *. apply andb_true_iff in Hl as [Hc Hl].
  apply negb_true_iff in Hc. rewrite Hc. now apply IH.
Qed.

Lemma dirname_canonical (init : list string) (x : string) :
  Forall plain_name init -> plain_name x ->
  Path.dirname (canonical (init ++ [x])) = canonical init.
Proof.
  intros Hinit (Hsep & Hne & _).
  assert (Hrev : forallb (fun c => negb (Ascii.eqb c Path.sep)) (rev (JsStr.chars x)) = true).
  { apply forallb_rev_true. now rewrite <- no_sep_chars. }
  assert (Hx : exists c l, rev (JsStr.chars x) = c :: l).
  { destruct (rev (JsStr.chars x)) as [| c l] eqn:H; [| eauto].
    exfalso. apply (f_equal (@rev ascii)) in H. rewrite rev_involutive in H.
    simpl in H. apply Hne. rewrite <- (of_chars_chars x), H. reflexivity. }
  unfold Path.dirname, canonical. rewrite join_snoc.
  change (JsStr.chars ("/" +:+ join_dir init +:+ x))
    with (Path.sep :: JsStr.chars (join_dir init +:+ x)).
  cbn iota. rewrite Ascii.eqb_refl, chars_append, rev_app_distr.
  destruct init as [| seg init].
  - simpl. rewrite app_nil_r. destruct Hx as (c & l & Hcl).
    rewrite Hcl. simpl. rewrite Hcl in Hrev. simpl in Hrev.
    apply andb_true_iff in Hrev as [Hc Hl]. apply negb_true_iff in Hc. rewrite Hc.
    now rewrite (dirname_scan_none l Hl).
  - assert (Hjoin : JsStr.join "/" (seg :: init) <> "")
      by (apply join_plain_nonempty; [exact Hinit | discriminate]).
    unfold join_dir. generalize dependent (JsStr.join "/" (seg :: init)). intros J HJ.
    rewrite chars_append, rev_app_distr.
    change (rev (JsStr.chars "/")) with [Path.sep]. simpl app.
    destruct Hx as (c & l & Hcl). rewrite Hcl. simpl.
    rewrite Hcl in Hrev. simpl in Hrev.
    apply andb_true_iff in Hrev as [Hc Hl]. apply negb_true_iff in Hc. rewrite Hc.
    rewrite (dirname_scan_segment l _ Hl).
    destruct (rev (JsStr.chars J)) as [| c' l'] eqn:Hr.
    + exfalso. apply (f_equal (@rev ascii)) in Hr. rewrite rev_involutive in Hr.
      simpl in Hr. apply HJ. rewrite <- (of_chars_chars J), Hr.
      reflexivity.
    + rewrite <- Hr, rev_involutive. simpl. now rewrite of_chars_chars.
Qed.

(** ** Accepted paths are canonical *)

(** In a process whose working directory is absolute, a path that
    [validateFilePath] returns is canonical (a separator, then ordinary
    segments: none empty, none [.] or [..]); [path.resolve] leaves it as
    it is whatever the working directory, and validating it again returns
    it unchanged. *)
Theorem accepted_path_is_canonical (root input safe : string) :
  Path.isAbsolute root = true ->
  validateFilePath root input = Ok safe ->
  (exists segs, Forall plain_name segs /\ safe = canonical segs) /\
  (forall dir, Path.resolve dir safe = safe) /\
  validateFilePath root safe = Ok safe.
Proof.
  intros Habs Hok.
  apply validateFilePath_accepts in Hok as (Hsafe & Hstarts & Hdots).
  destruct (resolve_canonical root input Habs) as (segs & Hsegs & Hres).
  rewrite <- Hsafe in Hres.
  split; [now exists segs |]. split.
  - intros dir. rewrite Hres. now apply resolve_of_canonical.
  - unfold validateFilePath.
    replace (Path.resolve root safe) with safe
      by (rewrite Hres; symmetry; now apply resolve_of_canonical).
    rewrite Hdots, Hstarts. rewrite Hres. reflexivity.
Qed.

Lemma accepted_path_is_canonical_witness :
  (exists segs, Forall plain_name segs /\ "/srv/photos/2024/cat.jpg" = canonical segs) /\
  (forall dir, Path.resolve dir "/srv/photos/2024/cat.jpg" = "/srv/photos/2024/cat.jpg") /\
  validateFilePath "/srv/photos" "/srv/photos/2024/cat.jpg" = Ok "/srv/photos/2024/cat.jpg".
Proof.
  apply (accepted_path_is_canonical "/srv/photos" "2024//./cat.jpg").
  - reflexivity.
  - reflexivity.
Defined.

(** ** Names with two dots in a row *)

Lemma includes_append (s t p : string) :
  JsStr.includes t p = true -> JsStr.includes (s +:+ t) p = true.
Proof.
  intros H. induction s as [| c s IH]; [exact H |].
  rewrite append_cons. simpl. rewrite IH. apply orb_true_r.
Qed.

(** [validateFilePath] refuses every path whose last name holds two
    dots in a row, wherever the file lies: the test for [..] looks at the
    text of the resolved path, not at its segments. *)
Theorem dotted_name_is_refused (root x a : string) :
  dir_like x -> plain_name a -> JsStr.includes a ".." = true ->
  validateFilePath root (x +:+ a) = Throw PathTraversal.
Proof.
  intros Hx Ha Hdots.
  destruct (resolve_tail root x Hx) as (r & Hr).
  apply validateFilePath_rejects_dots.
  - now apply plain_name_nonempty_append.
  - rewrite (Hr a Ha). now apply includes_append.
Qed.

Lemma dotted_name_is_refused_witness :
  validateFilePath "/srv/photos" ("2024/" +:+ "beach..final.jpg") = Throw PathTraversal.
Proof.
  apply (dotted_name_is_refused "/srv/photos" "2024/" "beach..final.jpg").
  - right. now exists "2024".
  - repeat split; discriminate.
  - reflexivity.
Defined.

(** ** Extensions *)

Lemma all_chars_append (p : ascii -> bool) (s t : string) :
  all_chars p (s +:+ t) = all_chars p s && all_chars p t.
Proof.
  induction s as [| c s IH]; [reflexivity |].
  rewrite append_cons. simpl. now rewrite IH, andb_assoc.
Qed.

Lemma lower_name_char (c : ascii) :
  name_char (JsStr.lower c) = true -> name_char c = true.
Proof. destruct c as [[] [] [] [] [] [] [] []]; vm_compute; congruence. Qed.

Lemma lower_ext_char (c : ascii) : ext_char (JsStr.lower c) = ext_char c.
Proof. destruct c as [[] [] [] [] [] [] [] []]; reflexivity. Qed.

Lemma lower_dot (c : ascii) : Ascii.eqb (JsStr.lower c) "." = Ascii.eqb c ".".
Proof. destruct c as [[] [] [] [] [] [] [] []]; reflexivity. Qed.

Lemma lower_name_chars (s : string) :
  all_chars name_char (JsStr.toLowerCase s) = true -> all_chars name_char s = true.
Proof.
  induction s as [| c s IH]; [reflexivity |]. simpl.
  intros H. apply andb_true_iff in H as [Hc Hs].
  now rewrite (lower_name_char c Hc), (IH Hs).
Qed.

Lemma lower_ext_shape (e : string) : ext_shape (JsStr.toLowerCase e) = ext_shape e.
Proof.
  destruct e as [| c body]; [reflexivity |]. simpl. rewrite lower_dot. f_equal.
  induction body as [| d body IH]; [reflexivity |]. simpl.
  now rewrite lower_ext_char, IH.
Qed.

Lemma lower_length (s : string) : String.length (JsStr.toLowerCase s) = String.length s.
Proof. induction s as [| c s IH]; [reflexivity |]. simpl. now rewrite IH. Qed.

Lemma allowed_ext_shape (e : string) :
  In e allowedExts ->
  ext_shape e = true /\ all_chars name_char e = true /\ (4 <= String.length e)%nat.
Proof.
  unfold allowedExts. intros H.
  repeat (destruct H as [<- | H]; [repeat split; simpl; lia |]).
  destruct H.
Qed.

Lemma validateImageFile_iff (p : string) :
  validateImageFile p = Ok tt <-> In (JsStr.toLowerCase (Path.extname p)) allowedExts.
Proof.
  unfold validateImageFile. split.
  - destruct (existsb _ allowedExts) eqn:H; [| discriminate]. intros _.
    apply existsb_exists in H as (x & Hin & Hx). apply String.eqb_eq in Hx. now subst.
  - intros Hin.
    assert (H : existsb (String.eqb (JsStr.toLowerCase (Path.extname p))) allowedExts = true).
    { apply existsb_exists. eexists. split; [exact Hin | apply String.eqb_refl]. }
    now rewrite H.
Qed.

Lemma upto_dot_app (l r : list ascii) :
  forallb (fun c => negb (Ascii.eqb c ".")) l = true ->
  Path.upto_dot (l ++ "."%char :: r) = Some (l, r).
Proof.
  induction l as [| c l IH]; intros Hl; [reflexivity |].
  simpl in *. apply andb_true_iff in Hl as [Hc Hl].
  apply negb_true_iff in Hc. now rewrite Hc, (IH Hl).
Qed.

Lemma ext_chars_no_sep (body : string) :
  all_chars ext_char body = true ->
  no_sep body = true /\
  forallb (fun c => negb (Ascii.eqb c ".")) (rev (JsStr.chars body)) = true.
Proof.
  intros H. split.
  - induction body as [| c body IH]; [reflexivity |]. simpl in *.
    apply andb_true_iff in H as [Hc Hb]. unfold ext_char in Hc.
    apply andb_true_iff in Hc as [Hc _]. now rewrite Hc, (IH Hb).
  - apply forallb_rev_true.
    induction body as [| c body IH]; [reflexivity |]. simpl in *.
    apply andb_true_iff in H as [Hc Hb]. unfold ext_char in Hc.
    apply andb_true_iff in Hc as [_ Hc]. now rewrite Hc, (IH Hb).
Qed.

Lemma rev_chars_nonempty (s : string) :
  s <> "" -> exists c l, rev (JsStr.chars s) = c :: l.
Proof.
  intros Hne. destruct (rev (JsStr.chars s)) as [| c l] eqn:H; [| eauto].
  exfalso. apply (f_equal (@rev ascii)) in H. rewrite rev_involutive in H.
  simpl in H. apply Hne. rewrite <- (of_chars_chars s), H. reflexivity.
Qed.

(** [path.extname] of a path that ends in [stem.body]. *)
Lemma extname_tail (g stem body : string) :
  dir_like g -> no_sep stem = true -> stem <> "" ->
  body <> "" -> all_chars ext_char body = true ->
  Path.extname (g +:+ stem +:+ String "." body) = String "." body.
Proof.
  intros Hg Hstem Hne Hbne Hbody.
  destruct (ext_chars_no_sep _ Hbody) as [Hsep Hdots].
  assert (Hchars : rev (JsStr.chars (stem +:+ String "." body))
                   = rev (JsStr.chars body) ++ "."%char :: rev (JsStr.chars stem)).
  { rewrite chars_append, rev_app_distr.
    change (JsStr.chars (String "." body)) with ("."%char :: JsStr.chars body).
    simpl rev. now rewrite <- app_assoc. }
  unfold Path.extname. rewrite rev_last_segment_tail; [| exact Hg | |].
  - rewrite Hchars, (upto_dot_app _ _ Hdots).
    destruct (rev_chars_nonempty stem Hne) as (c & l & ->).
    destruct (rev_chars_nonempty body Hbne) as (c' & l' & Hcl).
    rewrite Hcl.
    replace (String "." body) with (JsStr.of_chars ("."%char :: rev (c' :: l')))
      by (rewrite <- Hcl, rev_involutive; simpl; now rewrite of_chars_chars).
    destruct l as [| c2 l]; [| reflexivity].
    destruct c as [[] [] [] [] [] [] [] []]; reflexivity.
  - rewrite no_sep_append, Hstem. simpl. exact Hsep.
  - destruct stem; [contradiction | discriminate].
Qed.

(** A last name that opens with its only dot has no extension. *)
Lemma extname_hidden (g body : string) :
  dir_like g -> all_chars ext_char body = true ->
  Path.extname (g +:+ String "." body) = "".
Proof.
  intros Hg Hbody. destruct (ext_chars_no_sep _ Hbody) as [Hsep Hdots].
  unfold Path.extname. rewrite rev_last_segment_tail; [| exact Hg | | discriminate].
  - change (JsStr.chars (String "." body)) with ("."%char :: JsStr.chars body).
    simpl rev. rewrite (upto_dot_app _ [] Hdots).
    destruct (rev (JsStr.chars body)); reflexivity.
  - simpl. exact Hsep.
Qed.

(** [validateImageFile] goes by the extension of the last name
    alone, whatever its case: a name [stem.ext] with a non-empty stem is
    accepted exactly when the lower-cased extension is one of the nine
    listed; a file whose whole name is an extension (such as [.jpg]) is
    refused. *)
Theorem image_extension_any_case (g stem e : string) :
  dir_like g -> no_sep stem = true -> stem <> "" -> ext_shape e = true ->
  (validateImageFile (g +:+ stem +:+ e) = Ok tt
   <-> In (JsStr.toLowerCase e) allowedExts) /\
  exists err, validateImageFile (g +:+ e) = Throw err.
Proof.
  intros Hg Hstem Hne Hshape.
  destruct e as [| c body]; [discriminate |]. simpl in Hshape.
  apply andb_true_iff in Hshape as [Hc Hbody]. apply Ascii.eqb_eq in Hc. subst c.
  split.
  - rewrite validateImageFile_iff. destruct body as [| d body].
    + split; intros H; exfalso.
      * apply allowed_ext_shape in H as (_ & _ & Hlen).
        rewrite lower_length in Hlen.
        assert (Hle : (String.length (Path.extname (g +:+ stem +:+ ".")) <= 1)%nat);
          [| lia].
        unfold Path.extname. rewrite rev_last_segment_tail; [| exact Hg | |].
        -- rewrite chars_append, rev_app_distr. simpl.
           destruct (rev (JsStr.chars stem)) as [| c [| c2 l]]; simpl; try lia.
           all: destruct c as [[] [] [] [] [] [] [] []]; simpl; lia.
        -- now rewrite no_sep_append, Hstem.
        -- destruct stem; [contradiction | discriminate].
      * apply allowed_ext_shape in H as (_ & _ & Hlen). simpl in Hlen. lia.
    + rewrite (extname_tail g stem (String d body) Hg Hstem Hne); [reflexivity | discriminate | exact Hbody].
  - unfold validateImageFile. rewrite (extname_hidden g body Hg Hbody).
    simpl. eauto.
Qed.

Lemma image_extension_any_case_witness :
  (validateImageFile ("/srv/photos/" +:+ "IMG_0042" +:+ ".JpEg") = Ok tt
   <-> In (JsStr.toLowerCase ".JpEg") allowedExts) /\
  exists err, validateImageFile ("/srv/photos/" +:+ ".JpEg") = Throw err.
Proof.
  apply (image_extension_any_case "/srv/photos/" "IMG_0042" ".JpEg").
  - right. now exists "/srv/photos".
  - reflexivity.
  - discriminate.
  - reflexivity.
Defined.

(** ** Where a renamed file goes *)

Lemma name_chars_uint (d : Decimal.uint) :
  all_chars name_char (NilEmpty.string_of_uint d) = true.
Proof. induction d; simpl; auto. Qed.

Lemma newNameOf_name_chars (a : Rename.Args) (now : JsDate) (exifData : option ExifData)
      (originalName : string) (counter : float) :
  all_chars name_char (Rename.newNameOf a now exifData originalName counter) = true.
Proof.
  unfold Rename.newNameOf.
  destruct (Rename.locationFields exifData) as [[location city] country].
  unfold Rename.buildName, Rename.cleanName. apply replaceClass_unsafe_name_chars.
Qed.

Lemma length_append (s t : string) :
  String.length (s +:+ t) = (String.length s + String.length t)%nat.
Proof.
  induction s as [| c s IH]; [reflexivity |].
  rewrite append_cons. simpl. now rewrite IH.
Qed.

Lemma long_name_plain (s : string) :
  no_sep s = true -> (3 <= String.length s)%nat -> plain_name s.
Proof.
  intros Hsep Hlen. split; [exact Hsep |].
  destruct s as [| c1 [| c2 [| c3 s]]]; simpl in Hlen; try lia.
  repeat split; discriminate.
Qed.

(** The path the duplicate loop settles on: the new name, or the new
    name with a numeric suffix, in front of the extension. *)
Lemma resolveDuplicates_result (w : World) (fs : FS) (dir newName ext safe final : string) :
  Rename.resolveDuplicates w fs dir newName ext safe = Some final ->
  exists stem,
    final = Path.join [dir; stem +:+ ext] /\
    (stem = newName \/ exists n : nat, stem = newName +:+ "_" +:+ JsStr.of_nat n).
Proof.
  unfold Rename.resolveDuplicates. intros H.
  apply probe_result in H as [-> | (j & _ & ->)].
  - exists newName. auto.
  - exists (newName +:+ "_" +:+ JsStr.of_nat j). split; [reflexivity | eauto].
Qed.

(** What the [try] block of [rename_by_exif] has settled when it reaches
    [results.push], in a process whose working directory is absolute:
    the file's path and the new path are canonical and differ in their
    last name only; the new last name is a stem followed by the file's
    extension; the file is there, and the new path is free or the file's
    own. *)
Lemma plan_target (w : World) (fs : FS) (a : Rename.Args) (i : nat) (counter : float)
      (input : string) (p : Rename.Plan) :
  Path.isAbsolute (cwd w) = true ->
  Rename.plan w fs a i counter input = Some (Ok p) ->
  exists init x stem,
    Forall plain_name init /\ plain_name x /\
    plain_name (stem +:+ Path.extname (Rename.safePath p)) /\
    all_chars name_char (stem +:+ Path.extname (Rename.safePath p)) = true /\
    Rename.safePath p = canonical (init ++ [x]) /\
    Rename.finalPath p = canonical (init ++ [stem +:+ Path.extname (Rename.safePath p)]) /\
    (exists f, files fs !! Fs.key w (Rename.safePath p) = Some f) /\
    (Fs.existsSync w fs (Rename.finalPath p) = false
     \/ Rename.finalPath p = Rename.safePath p).
Proof.
  intros Habs Hplan.
  assert (Hfree : Fs.existsSync w fs (Rename.finalPath p) = false
                  \/ Rename.finalPath p = Rename.safePath p).
  { destruct (plan_total w fs a i counter input) as (r & Hr & Hok).
    rewrite Hplan in Hr. injection Hr as <-. now destruct (Hok p eq_refl). }
  revert Hplan Hfree. unfold Rename.plan.
  destruct (validateFilePath (cwd w) input) as [safe | e] eqn:Hsafe; [| discriminate].
  destruct (validateFileExists w fs safe) as [[] | e]; [| discriminate].
  destruct (validateImageFile safe) as [[] | e] eqn:Himage; [| discriminate].
  destruct (exifr_parse_at w fs safe Rename.parseOptions) as [exifData | e] eqn:Hparse;
    [| discriminate].
  set (newName := Rename.newNameOf _ _ _ _ _).
  destruct (Rename.resolveDuplicates w fs _ newName _ safe) as [final |] eqn:Hfinal;
    [| discriminate].
  intros [= <-] Hfree. simpl in *.
  assert (Hfile : exists f, files fs !! Fs.key w safe = Some f).
  { unfold exifr_parse_at in Hparse.
    destruct (files fs !! Fs.key w safe) as [f |]; [now exists f | discriminate]. }
  apply validateFilePath_accepts in Hsafe as (Hsafe & _).
  destruct (resolve_canonical (cwd w) input Habs) as (segs & Hsegs & Hres).
  rewrite <- Hsafe in Hres. clear Hsafe. subst safe.
  apply validateImageFile_iff, allowed_ext_shape in Himage as (_ & Hchars & Hlen).
  rewrite lower_length in Hlen. apply lower_name_chars in Hchars.
  assert (Hne : segs <> []).
  { intros ->. vm_compute in Hlen. lia. }
  destruct (exists_last Hne) as (init & x & ->).
  apply Forall_app in Hsegs as [Hinit Hx].
  inversion Hx as [| ? ? Hplain _]; subst.
  rewrite (dirname_canonical init x Hinit Hplain) in Hfinal.
  apply resolveDuplicates_result in Hfinal as (stem & -> & Hstem).
  set (ext := Path.extname (canonical (init ++ [x]))) in *.
  assert (Hstem_sep : no_sep stem = true /\ all_chars name_char stem = true).
  { destruct Hstem as [-> | (n & ->)].
    - split; [apply newNameOf_no_sep | apply newNameOf_name_chars].
    - split.
      + rewrite !no_sep_append, no_sep_of_nat. unfold newName.
        now rewrite newNameOf_no_sep.
      + rewrite !all_chars_append. unfold newName, JsStr.of_nat.
        now rewrite newNameOf_name_chars, name_chars_uint. }
  destruct Hstem_sep as [Hstem_sep Hstem_chars].
  assert (Hname : plain_name (stem +:+ ext)).
  { apply long_name_plain.
    - rewrite no_sep_append, Hstem_sep. apply extname_no_sep.
    - rewrite length_append. lia. }
  rewrite (join_canonical init _ Hinit Hname) in Hfree |- *.
  exists init, x, stem.
  split; [exact Hinit |]. split; [exact Hplain |]. split; [exact Hname |].
  split; [now rewrite all_chars_append, Hstem_chars, Hchars |].
  split; [reflexivity |]. split; [reflexivity |]. split; assumption.
Qed.

(** In a process whose working directory is absolute, the path
    [rename_by_exif] settles on for a file lies in the directory of the
    file; its last name is a stem followed by the file's own extension,
    as the file has it; the name holds only letters, digits, [_], [-]
    and [.]; and the path is canonical. *)
Theorem rename_target_in_place
        (w : World) (fs : FS) (a : Rename.Args) (i : nat) (counter : float)
        (input : string) (p : Rename.Plan) :
  Path.isAbsolute (cwd w) = true ->
  Rename.plan w fs a i counter input = Some (Ok p) ->
  Path.dirname (Rename.finalPath p) = Path.dirname (Rename.safePath p) /\
  (exists stem, Path.basename (Rename.finalPath p)
                = stem +:+ Path.extname (Rename.safePath p)) /\
  all_chars name_char (Path.basename (Rename.finalPath p)) = true /\
  Fs.key w (Rename.finalPath p) = Rename.finalPath p.
Proof.
  intros Habs Hplan.
  destruct (plan_target w fs a i counter input p Habs Hplan)
    as (init & x & stem & Hinit & Hx & Hname & Hchars & Hsafe & Hfinal & _).
  set (ext := Path.extname (Rename.safePath p)) in *.
  rewrite Hfinal, Hsafe.
  rewrite (dirname_canonical init _ Hinit Hname), (dirname_canonical init x Hinit Hx).
  rewrite (basename_canonical init _ Hname).
  split; [reflexivity |]. split; [now exists stem |]. split; [exact Hchars |].
  apply resolve_of_canonical. apply Forall_app_2; [exact Hinit |].
  constructor; [exact Hname | constructor].
Qed.

Lemma rename_target_in_place_witness :
  let p := {| Rename.safePath := "/srv/photos/late.jpg";
              Rename.finalPath := "/srv/photos/2024-07-09_Canon.jpg";
              Rename.found := true |} in
  Path.dirname (Rename.finalPath p) = Path.dirname (Rename.safePath p) /\
  (exists stem, Path.basename (Rename.finalPath p)
                = stem +:+ Path.extname (Rename.safePath p)) /\
  all_chars name_char (Path.basename (Rename.finalPath p)) = true /\
  Fs.key Scenario.world (Rename.finalPath p) = Rename.finalPath p.
Proof.
  intros p.
  apply (rename_target_in_place Scenario.world Scenario.two_photos
           (Scenario.rename_args ["late.jpg"] "{date}_{camera}" true true)
           0 1 "late.jpg" p).
  - reflexivity.
  - vm_compute. reflexivity.
Defined.

(** ** Names of the tour entries *)

Lemma uint_of_zeros (k : nat) (d : Decimal.uint) :
  NilEmpty.uint_of_string (JsStr.zeros k +:+ NilEmpty.string_of_uint d)
  = Some (Nat.iter k Decimal.D0 d).
Proof.
  induction k as [| k IH]; simpl.
  - apply NilEmpty.usu.
  - now rewrite IH.
Qed.

Lemma of_uint_zeros (k : nat) (d : Decimal.uint) :
  Nat.of_uint (Nat.iter k Decimal.D0 d) = Nat.of_uint d.
Proof.
  induction k as [| k IH]; [reflexivity |].
  simpl. unfold Nat.of_uint in *. simpl. exact IH.
Qed.

Lemma padded_of_nat_inj (width i j : nat) :
  JsStr.padStart0 width (JsStr.of_nat i) = JsStr.padStart0 width (JsStr.of_nat j) -> i = j.
Proof.
  unfold JsStr.padStart0, JsStr.of_nat. intros H.
  apply (f_equal NilEmpty.uint_of_string) in H.
  rewrite !uint_of_zeros in H. injection H as H.
  apply (f_equal Nat.of_uint) in H.
  now rewrite !of_uint_zeros, !Unsigned.of_to in H.
Qed.

Lemma photoId_inj (i j : nat) : Tour.photoId i = Tour.photoId j -> i = j.
Proof.
  unfold Tour.photoId. intros H. apply append_inv_head in H.
  now apply padded_of_nat_inj in H.
Qed.

Lemma collect_item_entries (w : World) (fs : FS) (a : Tour.Args) (i : nat)
      (acc : list Tour.Photo * nat) (input : string) :
  In input (Tour.filepaths a) ->
  Forall (entry_of_input w fs a) (fst acc) ->
  Forall (entry_of_input w fs a) (fst (Tour.collect_item w fs a i acc input)).
Proof.
  intros Hin Hacc. unfold Tour.collect_item. destruct acc as [photoData photoNumber].
  destruct (Tour.inspect w fs input) as [[safe [d |]] | e] eqn:Hinspect; try exact Hacc.
  destruct (truthy_num (Exif.latitude d) && truthy_num (Exif.longitude d));
    [| exact Hacc].
  destruct (Exif.latitude d) as [lat |], (Exif.longitude d) as [lon |]; try exact Hacc.
  simpl. apply Forall_app. split; [exact Hacc |].
  constructor; [| constructor].
  split; [| repeat split]. exists input, d. auto.
Qed.

Lemma collect_from_entries (w : World) (fs : FS) (a : Tour.Args) (inputs : list string) :
  (forall input, In input inputs -> In input (Tour.filepaths a)) ->
  forall (i : nat) (acc : list Tour.Photo * nat),
  Forall (entry_of_input w fs a) (fst acc) ->
  Forall (entry_of_input w fs a) (fst (Tour.collect_from w fs a i acc inputs)).
Proof.
  induction inputs as [| input rest IH]; intros Hin i acc Hacc; [exact Hacc |].
  simpl. apply IH.
  - intros x Hx. apply Hin. now right.
  - apply collect_item_entries; [apply Hin; now left | exact Hacc].
Qed.

Lemma collect_numbers (w : World) (fs : FS) (a : Tour.Args) :
  map Tour.number (Tour.collect w fs a) = seq 1 (length (Tour.collect w fs a)).
Proof.
  unfold Tour.collect.
  destruct (collect_from_numbers w fs a (Tour.filepaths a) 0 ([], 1%nat))
    as (added & Hfst & Hmap & _).
  rewrite Hfst. simpl. exact Hmap.
Qed.

(** Every entry of the tour comes from an input that passed the
    checks; its file name is the base name of the validated path; its
    identifier and the name of its thumbnail follow from its number, and
    no two entries share an identifier or a thumbnail name: no thumbnail
    is written over another. *)
Theorem tour_entries_have_their_own_names (w : World) (fs : FS) (a : Tour.Args) :
  Forall (entry_of_input w fs a) (Tour.photoData w fs a) /\
  NoDup (map Tour.id (Tour.photoData w fs a)) /\
  NoDup (map Tour.thumbnailName (Tour.photoData w fs a)).
Proof.
  unfold Tour.photoData.
  pose proof (sort_by_time_perm (Tour.collect w fs a)) as Hperm.
  assert (Hentries : Forall (entry_of_input w fs a) (Tour.collect w fs a)).
  { unfold Tour.collect. apply collect_from_entries; [auto | constructor]. }
  assert (Hnumbers : NoDup (map Tour.number (Tour.collect w fs a))).
  { rewrite collect_numbers. apply NoDup_seq. }
  split; [apply (Permutation_Forall (Permutation_sym Hperm)), Hentries |].
  split.
  - rewrite (Permutation_map Tour.id Hperm).
    replace (map Tour.id (Tour.collect w fs a))
      with (map Tour.photoId (map Tour.number (Tour.collect w fs a))).
    + apply (NoDup_fmap_2_strong Tour.photoId); [| exact Hnumbers].
      intros i j _ _. apply photoId_inj.
    + rewrite map_map. apply map_ext_Forall.
      eapply Forall_impl; [exact Hentries |]. intros p (_ & _ & Hid & _). now rewrite Hid.
  - rewrite (Permutation_map Tour.thumbnailName Hperm).
    replace (map Tour.thumbnailName (Tour.collect w fs a))
      with (map (fun n => Tour.photoId n +:+ "_thumb.jpg")
                (map Tour.number (Tour.collect w fs a))).
    + apply (NoDup_fmap_2_strong (fun n => Tour.photoId n +:+ "_thumb.jpg"));
        [| exact Hnumbers].
      intros i j _ _ H. apply append_inv_tail in H. now apply photoId_inj.
    + rewrite map_map. apply map_ext_Forall.
      eapply Forall_impl; [exact Hentries |]. intros p (_ & _ & _ & Hthumb).
      now rewrite Hthumb.
Qed.

(** ** Ties in the order of the tour *)

Lemma insert_by_time_before (p : Tour.Photo) (l : list Tour.Photo) :
  Sorted before_in_tour l ->
  Forall (fun q => (Tour.number p < Tour.number q)%nat) l ->
  Sorted before_in_tour (Tour.insert_by_time p l).
Proof.
  induction l as [| q rest IH]; intros Hsorted Hnum; simpl.
  - repeat constructor.
  - inversion Hsorted as [| ? ? Hrest Hhd]; subst.
    inversion Hnum as [| ? ? Hq Hnum']; subst.
    destruct (Z.leb_spec (getTime (Tour.datetime p)) (getTime (Tour.datetime q)))
      as [Hle | Hlt].
    + constructor; [exact Hsorted |]. constructor. unfold before_in_tour. lia.
    + constructor; [now apply IH |].
      destruct rest as [| r rest]; simpl.
      * constructor. left. lia.
      * destruct (getTime (Tour.datetime p) <=? getTime (Tour.datetime r)).
        -- constructor. left. lia.
        -- inversion Hhd; subst. now constructor.
Qed.

Lemma sort_by_time_before (l : list Tour.Photo) :
  forall k : nat, map Tour.number l = seq k (length l) ->
  Sorted before_in_tour (Tour.sort_by_time l).
Proof.
  induction l as [| p rest IH]; intros k Hnum; simpl; [constructor |].
  simpl in Hnum. injection Hnum as Hp Hrest.
  apply insert_by_time_before; [now apply (IH (S k)) |].
  apply (Permutation_Forall (Permutation_sym (sort_by_time_perm rest))).
  apply List.Forall_forall. intros q Hq.
  assert (Hin : In (Tour.number q) (seq (S k) (length rest))).
  { rewrite <- Hrest. now apply in_map. }
  apply in_seq in Hin. lia.
Qed.

(** The order of the tour is settled by the capture time and, for
    photographs taken at the same instant, by the order of the inputs:
    each entry was taken before the next, or at the same instant and
    numbered lower. *)
Theorem tour_ties_keep_input_order (w : World) (fs : FS) (a : Tour.Args) :
  Sorted before_in_tour (Tour.photoData w fs a).
Proof.
  unfold Tour.photoData. apply (sort_by_time_before _ 1%nat). apply collect_numbers.
Qed.

(** ** [escapeXml] can be read back *)

Lemma escapeXml_step (c : ascii) (s : string) :
  escapeXml (String c s)
  = if Ascii.eqb c "&" then String "&" (String "a" (String "m" (String "p"
                              (String ";" (escapeXml s)))))
    else if Ascii.eqb c "<" then String "&" (String "l" (String "t"
                              (String ";" (escapeXml s))))
    else if Ascii.eqb c ">" then String "&" (String "g" (String "t"
                              (String ";" (escapeXml s))))
    else if Ascii.eqb c "034" then String "&" (String "q" (String "u" (String "o"
                              (String "t" (String ";" (escapeXml s))))))
    else if Ascii.eqb c "'" then String "&" (String "a" (String "p" (String "o"
                              (String "s" (String ";" (escapeXml s))))))
    else String c (escapeXml s).
Proof.
  rewrite escapeXml_cons. unfold escape_char.
  destruct (Ascii.eqb c "&"); [reflexivity |].
  destruct (Ascii.eqb c "<"); [reflexivity |].
  destruct (Ascii.eqb c ">"); [reflexivity |].
  destruct (Ascii.eqb c "034"); [reflexivity |].
  destruct (Ascii.eqb c "'"); reflexivity.
Qed.

Lemma unescapeXml_escapeXml (s : string) : unescapeXml (escapeXml s) = s.
Proof.
  unfold unescapeXml. induction s as [| c s IH]; [reflexivity |].
  rewrite escapeXml_step.
  destruct (Ascii.eqb_spec c "&") as [-> | Hamp].
  { cbn -[escapeXml]. rewrite prefix_nil. cbn -[escapeXml].
    destruct (escapeXml s); cbn; cbn in IH; now rewrite IH. }
  destruct (Ascii.eqb_spec c "<") as [-> | Hlt].
  { cbn -[escapeXml]. rewrite prefix_nil. cbn -[escapeXml].
    destruct (escapeXml s); cbn; cbn in IH; now rewrite IH. }
  destruct (Ascii.eqb_spec c ">") as [-> | Hgt].
  { cbn -[escapeXml]. rewrite prefix_nil. cbn -[escapeXml].
    destruct (escapeXml s); cbn; cbn in IH; now rewrite IH. }
  destruct (Ascii.eqb_spec c "034") as [-> | Hquot].
  { cbn -[escapeXml]. rewrite prefix_nil. cbn -[escapeXml].
    destruct (escapeXml s); cbn; cbn in IH; now rewrite IH. }
  destruct (Ascii.eqb_spec c "'") as [-> | Hapos].
  { cbn -[escapeXml]. rewrite prefix_nil. cbn -[escapeXml].
    destruct (escapeXml s); cbn; cbn in IH; now rewrite IH. }
  cbn -[escapeXml]. apply Ascii.eqb_neq in Hamp. rewrite Hamp. now rewrite IH.
Qed.

Lemma escapeXml_length (s : string) :
  (String.length s <= String.length (escapeXml s))%nat /\
  (all_chars (fun c => negb (is_special c)) s = false ->
   String.length s < String.length (escapeXml s))%nat.
Proof.
  induction s as [| c s [IHle IHlt]]; [split; [reflexivity | discriminate] |].
  rewrite escapeXml_step. cbn [all_chars]. unfold is_special.
  destruct (Ascii.eqb c "&"); [cbn; split; intros; lia |].
  destruct (Ascii.eqb c "<"); [cbn; split; intros; lia |].
  destruct (Ascii.eqb c ">"); [cbn; split; intros; lia |].
  destruct (Ascii.eqb c "034"); [cbn; split; intros; lia |].
  destruct (Ascii.eqb c "'"); [cbn; split; intros; lia |].
  cbn. split; [lia |]. intros H. apply IHlt in H. lia.
Qed.

Lemma escapeXml_plain (s : string) :
  all_chars (fun c => negb (is_special c)) s = true -> escapeXml s = s.
Proof.
  induction s as [| c s IH]; [reflexivity |].
  cbn [all_chars]. intros H. apply andb_true_iff in H as [Hc Hs].
  rewrite escapeXml_step, (IH Hs). unfold is_special in Hc.
  apply negb_true_iff in Hc.
  repeat (apply orb_false_iff in Hc as [Hc ?]).
  now repeat match goal with H : Ascii.eqb c _ = false |- _ => rewrite H; clear H end.
Qed.

(** [escapeXml] loses nothing: the entities can be read back, so
    two different texts never get the same escaped form. It makes no
    text shorter; it leaves a text without the five characters as it
    is, and makes any other text longer, so that escaping an escaped text
    again changes it whenever the text holds one of the five
    characters. *)
Theorem escapeXml_can_be_read_back (s : string) :
  unescapeXml (escapeXml s) = s /\
  (forall t, escapeXml s = escapeXml t -> s = t) /\
  (String.length s <= String.length (escapeXml s))%nat /\
  (if all_chars (fun c => negb (is_special c)) s
   then escapeXml s = s
   else (String.length s < String.length (escapeXml s))%nat /\
        escapeXml s <> s /\ escapeXml (escapeXml s) <> escapeXml s).
Proof.
  assert (Hinj : forall a b, escapeXml a = escapeXml b -> a = b).
  { intros a b H. apply (f_equal unescapeXml) in H.
    now rewrite !unescapeXml_escapeXml in H. }
  split; [apply unescapeXml_escapeXml |]. split; [apply Hinj |].
  split; [apply escapeXml_length |].
  destruct (all_chars _ s) eqn:Hplain; [now apply escapeXml_plain |].
  apply escapeXml_length in Hplain.
  assert (Hne : escapeXml s <> s).
  { intros H. rewrite H in Hplain. lia. }
  split; [exact Hplain |].
  split; [exact Hne |]. intros H. apply Hne. now apply Hinj.
Qed.

(** ** The default date and time formats *)

Lemma prefix_append_self (p t : string) : String.prefix p (p +:+ t) = true.
Proof.
  induction p as [| c p IH]; [apply prefix_nil |].
  rewrite append_cons. simpl. destruct (ascii_dec c c); [exact IH | contradiction].
Qed.

Lemma drop_str_append (p t : string) : JsStr.drop_str (String.length p) (p +:+ t) = t.
Proof.
  induction p as [| c p IH]; [now destruct t |].
  rewrite append_cons. simpl. exact IH.
Qed.

Lemma getSubstitution_literal (matched before after replacement : string) :
  all_chars (fun c => negb (Ascii.eqb c "$")) replacement = true ->
  JsStr.getSubstitution matched before after replacement = replacement.
Proof.
  induction replacement as [| c r IH]; [reflexivity |].
  cbn [all_chars]. intros H. apply andb_true_iff in H as [Hc Hr].
  apply negb_true_iff in Hc. simpl. rewrite Hc. now rewrite (IH Hr).
Qed.

(** The first occurrence of a pattern whose first character does not
    occur in the text before it. *)
Lemma replaceFirst_from_skip (c0 : ascii) (pat replacement s t : string) :
  all_chars (fun c => negb (Ascii.eqb c "$")) replacement = true ->
  all_chars (fun c => negb (Ascii.eqb c c0)) s = true ->
  forall before,
    JsStr.replaceFirst_from (String c0 pat) replacement before (s +:+ String c0 pat +:+ t)
    = s +:+ replacement +:+ t.
Proof.
  intros Hrep. induction s as [| c s IH]; intros Hs before.
  - change ("" +:+ String c0 pat +:+ t) with (String c0 (pat +:+ t)).
    cbn [JsStr.replaceFirst_from].
    change (String c0 (pat +:+ t)) with (String c0 pat +:+ t).
    rewrite prefix_append_self, drop_str_append.
    now rewrite (getSubstitution_literal _ _ _ _ Hrep).
  - cbn [all_chars] in Hs. apply andb_true_iff in Hs as [Hc Hs].
    apply negb_true_iff, Ascii.eqb_neq in Hc.
    rewrite !append_cons. cbn [JsStr.replaceFirst_from String.prefix].
    destruct (ascii_dec c0 c) as [Heq | _]; [congruence |].
    now rewrite (IH Hs).
Qed.

Lemma replaceFirst_skip (c0 : ascii) (pat replacement s t : string) :
  all_chars (fun c => negb (Ascii.eqb c "$")) replacement = true ->
  all_chars (fun c => negb (Ascii.eqb c c0)) s = true ->
  JsStr.replaceFirst (String c0 pat) replacement (s +:+ String c0 pat +:+ t)
  = s +:+ replacement +:+ t.
Proof. intros Hrep Hs. now apply replaceFirst_from_skip. Qed.

Lemma numeral_uint (d : Decimal.uint) :
  all_chars is_numeral (NilEmpty.string_of_uint d) = true.
Proof. induction d; simpl; auto. Qed.

Lemma numeral_of_Z (z : Z) : all_chars is_numeral (JsStr.of_Z z) = true.
Proof.
  destruct z; [reflexivity | apply numeral_uint |].
  unfold JsStr.of_Z. rewrite all_chars_append. now rewrite numeral_uint.
Qed.

Lemma numeral_padded (width : nat) (z : Z) :
  all_chars is_numeral (JsStr.padStart0 width (JsStr.of_Z z)) = true.
Proof.
  unfold JsStr.padStart0. rewrite all_chars_append, numeral_of_Z, andb_true_r.
  induction (width - _)%nat as [| k IH]; [reflexivity | exact IH].
Qed.

Lemma all_chars_impl (p q : ascii -> bool) (s : string) :
  (forall c, p c = true -> q c = true) ->
  all_chars p s = true -> all_chars q s = true.
Proof.
  intros Hpq. induction s as [| c s IH]; [reflexivity |].
  cbn [all_chars]. intros H. apply andb_true_iff in H as [Hc Hs].
  now rewrite (Hpq c Hc), (IH Hs).
Qed.

Lemma numeral_not (c0 : ascii) (s : string) :
  is_numeral c0 = false ->
  all_chars is_numeral s = true ->
  all_chars (fun c => negb (Ascii.eqb c c0)) s = true.
Proof.
  intros Hc0. apply all_chars_impl. intros c Hc.
  apply negb_true_iff, Ascii.eqb_neq. intros ->. congruence.
Qed.

Lemma default_formats (d : JsDate) :
  formatDateForRename d "YYYY-MM-DD"
  = JsStr.of_Z (getFullYear d) +:+ "-"
    +:+ JsStr.padStart0 2 (JsStr.of_Z (getMonth d + 1)) +:+ "-"
    +:+ JsStr.padStart0 2 (JsStr.of_Z (getDate d)) /\
  formatTimeForRename d "HHmmss"
  = JsStr.padStart0 2 (JsStr.of_Z (getHours d))
    +:+ JsStr.padStart0 2 (JsStr.of_Z (getMinutes d))
    +:+ JsStr.padStart0 2 (JsStr.of_Z (getSeconds d)).
Proof.
  assert (Hdollar : forall s, all_chars is_numeral s = true ->
                              all_chars (fun c => negb (Ascii.eqb c "$")) s = true).
  { intros s. now apply numeral_not. }
  unfold formatDateForRename, formatTimeForRename.
  set (year := JsStr.of_Z (getFullYear d)).
  set (month := JsStr.padStart0 2 (JsStr.of_Z (getMonth d + 1))).
  set (day := JsStr.padStart0 2 (JsStr.of_Z (getDate d))).
  set (hours := JsStr.padStart0 2 (JsStr.of_Z (getHours d))).
  set (minutes := JsStr.padStart0 2 (JsStr.of_Z (getMinutes d))).
  set (seconds := JsStr.padStart0 2 (JsStr.of_Z (getSeconds d))).
  assert (Hyear : all_chars is_numeral year = true) by apply numeral_of_Z.
  assert (Hmonth : all_chars is_numeral month = true) by apply numeral_padded.
  assert (Hday : all_chars is_numeral day = true) by apply numeral_padded.
  assert (Hhours : all_chars is_numeral hours = true) by apply numeral_padded.
  assert (Hminutes : all_chars is_numeral minutes = true) by apply numeral_padded.
  assert (Hseconds : all_chars is_numeral seconds = true) by apply numeral_padded.
  split.
  - change "YYYY-MM-DD" with ("" +:+ "YYYY" +:+ "-MM-DD").
    rewrite (replaceFirst_skip "Y" "YYY" year "" "-MM-DD" (Hdollar _ Hyear) eq_refl).
    change ("" +:+ year +:+ "-MM-DD") with (year +:+ "-" +:+ "MM" +:+ "-DD").
    rewrite <- (append_assoc year "-").
    rewrite (replaceFirst_skip "M" "M" month (year +:+ "-") "-DD" (Hdollar _ Hmonth)).
    + change (month +:+ "-DD") with (month +:+ "-" +:+ "DD" +:+ "").
      rewrite <- (append_assoc month "-"), <- (append_assoc (year +:+ "-")).
      rewrite (replaceFirst_skip "D" "D" day _ "" (Hdollar _ Hday)).
      * now rewrite append_nil_r, !append_assoc.
      * rewrite !all_chars_append.
        rewrite (numeral_not "D" year eq_refl Hyear), (numeral_not "D" month eq_refl Hmonth).
        reflexivity.
    + rewrite all_chars_append, (numeral_not "M" year eq_refl Hyear). reflexivity.
  - change "HHmmss" with ("" +:+ "HH" +:+ "mmss").
    rewrite (replaceFirst_skip "H" "H" hours "" "mmss" (Hdollar _ Hhours) eq_refl).
    change ("" +:+ hours +:+ "mmss") with (hours +:+ "mm" +:+ "ss").
    rewrite (replaceFirst_skip "m" "m" minutes hours "ss" (Hdollar _ Hminutes)
               (numeral_not "m" hours eq_refl Hhours)).
    change (minutes +:+ "ss") with (minutes +:+ "ss" +:+ "").
    rewrite <- (append_assoc hours minutes).
    rewrite (replaceFirst_skip "s" "s" seconds _ "" (Hdollar _ Hseconds)).
    + now rewrite append_nil_r, append_assoc.
    + rewrite all_chars_append.
      now rewrite (numeral_not "s" hours eq_refl Hhours),
        (numeral_not "s" minutes eq_refl Hminutes).
Qed.

(** With the default formats, [formatDateForRename] gives the year,
    the month and the day as [YYYY-MM-DD], and [formatTimeForRename] the
    hours, minutes and seconds as [HHmmss]: each part in decimal, month,
    day and the parts of the time padded with zeros to two digits, the
    month counted from one. *)
Theorem default_formats_are_padded_numerals (d : JsDate) :
  formatDateForRename d "YYYY-MM-DD"
  = JsStr.of_Z (getFullYear d) +:+ "-"
    +:+ JsStr.padStart0 2 (JsStr.of_Z (getMonth d + 1)) +:+ "-"
    +:+ JsStr.padStart0 2 (JsStr.of_Z (getDate d)) /\
  formatTimeForRename d "HHmmss"
  = JsStr.padStart0 2 (JsStr.of_Z (getHours d))
    +:+ JsStr.padStart0 2 (JsStr.of_Z (getMinutes d))
    +:+ JsStr.padStart0 2 (JsStr.of_Z (getSeconds d)).
Proof. exact (default_formats d). Qed.

(** ** The backup directory is made before any path is checked *)

Lemma commit_dirs (w : World) (fs fs' : FS) (a : Rename.Args) (bd : option string)
      (p : Rename.Plan) (r : Result unit) :
  Rename.commit w fs a bd p = (fs', r) -> dirs fs' = dirs fs.
Proof.
  unfold Rename.commit. destruct (Rename.backup a).
  - destruct bd as [bdir |]; [| now intros [= <- _]].
    destruct (Fs.rename w fs _ _) as [fs1 | e] eqn:H1; [| now intros [= <- _]].
    apply rename_moves in H1 as (_ & _ & _ & _ & _ & Hd1 & _).
    destruct (Fs.rename w fs1 _ _) as [fs2 | e] eqn:H2; intros [= <- _]; [| exact Hd1].
    apply rename_moves in H2 as (_ & _ & _ & _ & _ & Hd2 & _). congruence.
  - destruct (Fs.rename w fs _ _) as [fs1 | e] eqn:H1; intros [= <- _]; [| reflexivity].
    now apply rename_moves in H1 as (_ & _ & _ & _ & _ & Hd1 & _).
Qed.

Lemma item_dirs (w : World) (a : Rename.Args) (bd : option string) (i : nat)
      (st st' : Rename.State) (input : string) :
  Rename.item w a bd i st input = Some st' ->
  dirs (Rename.fs st') = dirs (Rename.fs st).
Proof.
  unfold Rename.item.
  destruct (Rename.plan w (Rename.fs st) a i (Rename.counter st) input) as [[p | e] |];
    [| now intros [= <-] | discriminate].
  destruct (Rename.dryRun a); [now intros [= <-] |].
  destruct (Rename.commit w _ a bd p) as [fs' r] eqn:Hcommit.
  apply commit_dirs in Hcommit. simpl in Hcommit.
  destruct r as [[] | e]; now intros [= <-].
Qed.

Lemma loop_dirs (w : World) (a : Rename.Args) (bd : option string) (paths : list string) :
  forall (i : nat) (st st' : Rename.State),
  Rename.loop w a bd i st paths = Some st' ->
  dirs (Rename.fs st') = dirs (Rename.fs st).
Proof.
  induction paths as [| input rest IH]; intros i st st'; simpl.
  - now intros [= <-].
  - destruct (Rename.item w a bd i st input) as [st1 |] eqn:Hitem; [| discriminate].
    intros Hloop. apply IH in Hloop. apply item_dirs in Hitem. congruence.
Qed.

Lemma item_refused (w : World) (a : Rename.Args) (bd : option string) (i : nat)
      (st : Rename.State) (input : string) (e : JsError) :
  validateFilePath (cwd w) input = Throw e ->
  Rename.item w a bd i st input = Some (Rename.push_error st input e).
Proof. intros H. unfold Rename.item, Rename.plan. now rewrite H. Qed.

(** A real run of [rename_by_exif] with backups makes its backup
    directory next to the first path as it was given, before that path
    has been looked at. Even when [validateFilePath] refuses the first
    path, every run that reaches its report has made a directory that
    was not there before, and leaves it behind; the refusal is only the
    first entry of the report. *)
Theorem refused_first_path_still_gets_a_backup_directory
        (w : World) (fs0 : FS) (a : Rename.Args) (first : string) (rest : list string)
        (e : JsError) :
  Rename.filepaths a = first :: rest ->
  Rename.backup a = true ->
  Rename.dryRun a = false ->
  validateFilePath (cwd w) first = Throw e ->
  exists r, Rename.run w fs0 a = Some r /\
    forall st bd, r = Ok (st, bd) ->
      exists backupDir o outs,
        bd = Some backupDir /\
        createSafeBackupDir w fs0 first = Some backupDir /\
        Fs.existsSync w fs0 backupDir = false /\
        Fs.is_dir (Rename.fs st) (Fs.key w backupDir) = true /\
        Rename.results st = o :: outs /\
        Rename.status o = Rename.error /\
        Rename.error_text o = Some (error_message e).
Proof.
  intros Hpaths Hbackup Hdry Hrefused.
  unfold Rename.run, Rename.prepare. rewrite Hpaths, Hbackup, Hdry. simpl andb. cbn iota.
  destruct (createSafeBackupDir_stops w fs0 first) as (backupDir & Hprobe).
  rewrite Hprobe.
  destruct (Fs.mkdir_p w fs0 backupDir) as [fs1 | e1] eqn:Hmk;
    [| eexists; split; [reflexivity | discriminate]].
  set (st0 := {| Rename.fs := fs1; Rename.results := [];
                 Rename.counter := Rename.counterStart a |}).
  cbn [Rename.loop]. rewrite (item_refused w a (Some backupDir) 0 st0 first e Hrefused).
  destruct (loop_turns w a (Some backupDir) rest 1 (Rename.push_error st0 first e))
    as (st' & groups & Hloop & Hres & _).
  rewrite Hloop. eexists. split; [reflexivity |].
  intros st bd [= <- <-].
  apply loop_dirs in Hloop. simpl in Hloop.
  apply mkdir_p_creates in Hmk as (Hdir & _).
  eexists backupDir, _, (concat groups).
  split; [reflexivity |]. split; [reflexivity |].
  split; [exact (probe_settles _ _ _ _ _ _ Hprobe) |].
  split; [| split; [exact Hres | split; reflexivity]].
  unfold Fs.is_dir in *. now rewrite Hloop.
Qed.

Lemma refused_first_path_still_gets_a_backup_directory_witness :
  exists r,
    Rename.run Scenario.world Scenario.two_photos
      (Scenario.rename_args ["../elsewhere/a.jpg"; "late.jpg"] "{date}" false true) = Some r /\
    forall st bd, r = Ok (st, bd) ->
      exists backupDir o outs,
        bd = Some backupDir /\
        createSafeBackupDir Scenario.world Scenario.two_photos "../elsewhere/a.jpg"
        = Some backupDir /\
        Fs.existsSync Scenario.world Scenario.two_photos backupDir = false /\
        Fs.is_dir (Rename.fs st) (Fs.key Scenario.world backupDir) = true /\
        Rename.results st = o :: outs /\
        Rename.status o = Rename.error /\
        Rename.error_text o = Some (error_message PathTraversal).
Proof.
  apply (refused_first_path_still_gets_a_backup_directory
           Scenario.world Scenario.two_photos
           (Scenario.rename_args ["../elsewhere/a.jpg"; "late.jpg"] "{date}" false true)
           "../elsewhere/a.jpg" ["late.jpg"] PathTraversal).
  - reflexivity.
  - reflexivity.
  - reflexivity.
  - reflexivity.
Defined.

(** ** Names from the default template *)

Lemma replaceAll_from_skipped (pat replacement p t : string) :
  forall (before : list ascii),
  JsStr.replaceAll_from pat replacement before (String.length p) (p +:+ t)
  = JsStr.replaceAll_from pat replacement (rev (JsStr.chars p) ++ before) 0 t.
Proof.
  induction p as [| c p IH]; intros before.
  - destruct t; reflexivity.
  - rewrite append_cons. cbn [String.length JsStr.replaceAll_from]. rewrite IH.
    simpl. now rewrite <- app_assoc.
Qed.

(** A stretch of text without the pattern's first character passes
    through. *)
Lemma replaceAll_from_passes (c0 : ascii) (pat replacement s t : string) :
  all_chars (fun c => negb (Ascii.eqb c c0)) s = true ->
  forall before,
  JsStr.replaceAll_from (String c0 pat) replacement before 0 (s +:+ t)
  = s +:+ JsStr.replaceAll_from (String c0 pat) replacement
                                (rev (JsStr.chars s) ++ before) 0 t.
Proof.
  induction s as [| c s IH]; intros Hs before; [reflexivity |].
  cbn [all_chars] in Hs. apply andb_true_iff in Hs as [Hc Hs].
  apply negb_true_iff, Ascii.eqb_neq in Hc.
  rewrite !append_cons. cbn [JsStr.replaceAll_from String.prefix].
  destruct (ascii_dec c0 c) as [Heq | _]; [congruence |].
  rewrite (IH Hs). simpl. now rewrite <- app_assoc.
Qed.

(** An occurrence of the pattern is replaced by the replacement, read
    literally when it holds no dollar sign. *)
Lemma replaceAll_from_match (pat replacement t : string) (before : list ascii) :
  pat <> "" ->
  all_chars (fun c => negb (Ascii.eqb c "$")) replacement = true ->
  JsStr.replaceAll_from pat replacement before 0 (pat +:+ t)
  = replacement +:+ JsStr.replaceAll_from pat replacement
                                          (rev (JsStr.chars pat) ++ before) 0 t.
Proof.
  intros Hne Hrep. destruct pat as [| c0 pat]; [contradiction |].
  rewrite append_cons. cbn [JsStr.replaceAll_from].
  change (String c0 (pat +:+ t)) with (String c0 pat +:+ t).
  rewrite prefix_append_self, (getSubstitution_literal _ _ _ _ Hrep).
  cbn [String.length]. rewrite Nat.sub_succ, Nat.sub_0_r.
  rewrite replaceAll_from_skipped. simpl. now rewrite <- app_assoc.
Qed.

Lemma inert_no_dollar (s : string) :
  all_chars inert s = true -> all_chars (fun c => negb (Ascii.eqb c "$")) s = true.
Proof.
  apply all_chars_impl. intros c H. now apply andb_true_iff in H as [H _].
Qed.

Lemma inert_no_brace (s : string) :
  all_chars inert s = true -> all_chars (fun c => negb (Ascii.eqb c "{")) s = true.
Proof.
  apply all_chars_impl. intros c H. now apply andb_true_iff in H as [_ H].
Qed.

Lemma numeral_inert (s : string) : all_chars is_numeral s = true -> all_chars inert s = true.
Proof.
  apply all_chars_impl. intros c H. unfold inert.
  destruct (Ascii.eqb_spec c "$") as [-> | _]; [discriminate H |].
  destruct (Ascii.eqb_spec c "{") as [-> | _]; [discriminate H | reflexivity].
Qed.

Lemma replaceAll_pass (c0 : ascii) (pat replacement s t : string) :
  all_chars (fun c => negb (Ascii.eqb c c0)) s = true ->
  exists before,
    JsStr.replaceAll (String c0 pat) replacement (s +:+ t)
    = s +:+ JsStr.replaceAll_from (String c0 pat) replacement before 0 t.
Proof.
  intros Hs. eexists. unfold JsStr.replaceAll.
  now rewrite (replaceAll_from_passes c0 pat replacement s t Hs).
Qed.

Lemma replaceAll_absent (c0 : ascii) (pat replacement s : string) :
  all_chars (fun c => negb (Ascii.eqb c c0)) s = true ->
  JsStr.replaceAll (String c0 pat) replacement s = s.
Proof.
  intros Hs. destruct (replaceAll_pass c0 pat replacement s "" Hs) as (before & H).
  rewrite append_nil_r in H. rewrite H. apply append_nil_r.
Qed.

Lemma replaceAll_one (c0 : ascii) (pat replacement s t : string) :
  all_chars (fun c => negb (Ascii.eqb c c0)) s = true ->
  all_chars (fun c => negb (Ascii.eqb c "$")) replacement = true ->
  exists before,
    JsStr.replaceAll (String c0 pat) replacement (s +:+ String c0 pat +:+ t)
    = s +:+ replacement +:+ JsStr.replaceAll_from (String c0 pat) replacement before 0 t.
Proof.
  intros Hs Hrep. eexists. unfold JsStr.replaceAll.
  rewrite (replaceAll_from_passes c0 pat replacement s _ Hs).
  rewrite replaceAll_from_match; [reflexivity | discriminate | exact Hrep].
Qed.

Lemma default_formats_inert (d : JsDate) :
  all_chars inert (formatDateForRename d "YYYY-MM-DD") = true /\
  all_chars inert (formatTimeForRename d "HHmmss") = true.
Proof.
  destruct (default_formats d) as [-> ->]. split; apply numeral_inert.
  - rewrite !all_chars_append, numeral_of_Z, !numeral_padded. reflexivity.
  - now rewrite !all_chars_append, !numeral_padded.
Qed.

Lemma substitute_without_metadata (originalName : string) (counter : float) :
  all_chars inert originalName = true ->
  Rename.substitute "{datetime}_{camera}_{original}" "NoDate" "NoTime" "NoDateTime"
                    "NoCamera" "" "" "" "" "" originalName counter
  = "NoDateTime_NoCamera_" +:+ originalName.
Proof.
  intros Horig. unfold Rename.substitute.
  change (JsStr.replaceAll "{country}" "" _) with ("NoDateTime_NoCamera_" +:+ "{original}" +:+ "").
  destruct (replaceAll_one "{" "original}" originalName "NoDateTime_NoCamera_" ""
              eq_refl (inert_no_dollar _ Horig)) as (before & ->).
  change (JsStr.replaceAll_from "{original}" originalName before 0 "") with "".
  rewrite append_nil_r.
  apply replaceAll_absent. rewrite all_chars_append.
  now rewrite (inert_no_brace _ Horig).
Qed.

Lemma substitute_with_metadata
      (dateStr timeStr camera model lens location city country originalName : string)
      (counter : float) :
  all_chars inert dateStr = true -> all_chars inert timeStr = true ->
  all_chars inert camera = true -> all_chars inert originalName = true ->
  Rename.substitute "{datetime}_{camera}_{original}" dateStr timeStr
                    (dateStr +:+ "_" +:+ timeStr) camera model lens
                    location city country originalName counter
  = dateStr +:+ "_" +:+ timeStr +:+ "_" +:+ camera +:+ "_" +:+ originalName.
Proof.
  intros Hdate Htime Hcamera Horig. unfold Rename.substitute.
  set (datetimeStr := dateStr +:+ "_" +:+ timeStr).
  assert (Hdatetime : all_chars inert datetimeStr = true).
  { unfold datetimeStr. now rewrite !all_chars_append, Hdate, Htime. }
  change (JsStr.replaceAll "{time}" timeStr _) with ("" +:+ "{datetime}" +:+ "_{camera}_{original}").
  destruct (replaceAll_one "{" "datetime}" datetimeStr "" "_{camera}_{original}"
              eq_refl (inert_no_dollar _ Hdatetime)) as (b1 & ->).
  change (JsStr.replaceAll_from "{datetime}" datetimeStr b1 0 "_{camera}_{original}")
    with ("_" +:+ "{camera}" +:+ "_{original}").
  change ("" +:+ datetimeStr +:+ "_" +:+ "{camera}" +:+ "_{original}")
    with (datetimeStr +:+ "_" +:+ "{camera}" +:+ "_{original}").
  rewrite <- (append_assoc datetimeStr "_").
  destruct (replaceAll_one "{" "camera}" camera (datetimeStr +:+ "_") "_{original}")
    as (b2 & ->).
  { now rewrite all_chars_append, (inert_no_brace _ Hdatetime). }
  { now apply inert_no_dollar. }
  change (JsStr.replaceAll_from "{camera}" camera b2 0 "_{original}")
    with ("_" +:+ "{original}").
  rewrite <- (append_assoc camera "_"), <- (append_assoc (datetimeStr +:+ "_")).
  set (stem := (datetimeStr +:+ "_") +:+ camera +:+ "_").
  assert (Hstem : all_chars (fun c => negb (Ascii.eqb c "{")) stem = true).
  { unfold stem. rewrite !all_chars_append.
    now rewrite (inert_no_brace _ Hdatetime), (inert_no_brace _ Hcamera). }
  destruct (replaceAll_pass "{" "model}" model stem "{original}" Hstem) as (b3 & ->).
  change (JsStr.replaceAll_from "{model}" model b3 0 "{original}") with "{original}".
  destruct (replaceAll_pass "{" "lens}" lens stem "{original}" Hstem) as (b4 & ->).
  change (JsStr.replaceAll_from "{lens}" lens b4 0 "{original}") with "{original}".
  destruct (replaceAll_pass "{" "location}" location stem "{original}" Hstem) as (b5 & ->).
  change (JsStr.replaceAll_from "{location}" location b5 0 "{original}") with "{original}".
  destruct (replaceAll_pass "{" "city}" city stem "{original}" Hstem) as (b6 & ->).
  change (JsStr.replaceAll_from "{city}" city b6 0 "{original}") with "{original}".
  destruct (replaceAll_pass "{" "country}" country stem "{original}" Hstem) as (b7 & ->).
  change (JsStr.replaceAll_from "{country}" country b7 0 "{original}") with "{original}".
  change (stem +:+ "{original}") with (stem +:+ "{original}" +:+ "").
  destruct (replaceAll_one "{" "original}" originalName stem "" Hstem
              (inert_no_dollar _ Horig)) as (b8 & ->).
  change (JsStr.replaceAll_from "{original}" originalName b8 0 "") with "".
  rewrite append_nil_r.
  rewrite replaceAll_absent.
  - unfold stem, datetimeStr. now rewrite !append_assoc.
  - now rewrite all_chars_append, Hstem, (inert_no_brace _ Horig).
Qed.

(** With the default template and the default formats, a file
    without metadata is named [NoDateTime_NoCamera_] followed by its own
    name, and a file with metadata by its date, its time, the maker's name
    without white space (or [Unknown]) and its own name, with underscores
    between them; the text then goes through the clean-up. This holds
    when neither the file's name nor the maker's holds a dollar sign or an
    opening brace. *)
Theorem default_template_names
        (a : Rename.Args) (now : JsDate) (originalName : string) (counter : float) :
  Rename.template a = "{datetime}_{camera}_{original}" ->
  Rename.dateFormat a = "YYYY-MM-DD" ->
  Rename.timeFormat a = "HHmmss" ->
  all_chars inert originalName = true ->
  Rename.newNameOf a now None originalName counter
  = Rename.cleanName ("NoDateTime_NoCamera_" +:+ originalName) /\
  forall d : ExifData,
    let date := or_date (Exif.DateTimeOriginal d) (Exif.CreateDate d) now in
    let camera := JsStr.replaceRuns JsStr.is_space "" (or_str (Exif.Make d) "Unknown") in
    all_chars inert camera = true ->
    Rename.newNameOf a now (Some d) originalName counter
    = Rename.cleanName
        (formatDateForRename date "YYYY-MM-DD" +:+ "_"
         +:+ formatTimeForRename date "HHmmss" +:+ "_" +:+ camera +:+ "_" +:+ originalName).
Proof.
  intros Htemplate Hdate Htime Horig. split.
  - unfold Rename.newNameOf, Rename.locationFields, Rename.buildName.
    rewrite Htemplate. now rewrite substitute_without_metadata.
  - intros d date camera Hcamera. unfold Rename.newNameOf.
    destruct (Rename.locationFields (Some d)) as [[location city] country].
    unfold Rename.buildName. rewrite Htemplate, Hdate, Htime.
    fold date. fold camera.
    destruct (default_formats_inert date) as [Hd Ht].
    now rewrite (substitute_with_metadata _ _ camera _ _ location city country
                   originalName counter Hd Ht Hcamera Horig).
Qed.

Lemma default_template_names_witness :
  let a := Scenario.rename_args ["late.jpg"] "{datetime}_{camera}_{original}" true true in
  Rename.newNameOf a Scenario.later None "IMG 0042" 1
  = Rename.cleanName ("NoDateTime_NoCamera_" +:+ "IMG 0042") /\
  forall d : ExifData,
    let date := or_date (Exif.DateTimeOriginal d) (Exif.CreateDate d) Scenario.later in
    let camera := JsStr.replaceRuns JsStr.is_space "" (or_str (Exif.Make d) "Unknown") in
    all_chars inert camera = true ->
    Rename.newNameOf a Scenario.later (Some d) "IMG 0042" 1
    = Rename.cleanName
        (formatDateForRename date "YYYY-MM-DD" +:+ "_"
         +:+ formatTimeForRename date "HHmmss" +:+ "_" +:+ camera +:+ "_" +:+ "IMG 0042").
Proof.
  intros a.
  apply (default_template_names a Scenario.later "IMG 0042" 1); reflexivity.
Defined.

(** ** The archive and the photographs *)

Lemma prefix_split (p s : string) :
  String.prefix p s = true -> exists t, s = p +:+ t.
Proof.
  revert s. induction p as [| c p IH]; intros s H.
  - now exists s.
  - destruct s as [| c' s]; [discriminate |]. simpl in H.
    destruct (ascii_dec c c') as [<- | _]; [| discriminate].
    destruct (IH s H) as (t & ->). exists t. now rewrite append_cons.
Qed.

Lemma of_chars_app (l1 l2 : list ascii) :
  JsStr.of_chars (l1 ++ l2) = JsStr.of_chars l1 +:+ JsStr.of_chars l2.
Proof.
  induction l1 as [| c l1 IH]; [reflexivity |].
  simpl. rewrite append_cons. now rewrite <- IH.
Qed.

Lemma endsWith_split (s p : string) :
  JsStr.endsWith s p = true -> exists y, s = y +:+ p.
Proof.
  unfold JsStr.endsWith. intros H. apply prefix_split in H as (t & Ht).
  exists (JsStr.of_chars (rev (JsStr.chars t))).
  apply (f_equal JsStr.chars) in Ht. rewrite chars_of_chars, chars_append, chars_of_chars in Ht.
  apply (f_equal (@rev ascii)) in Ht. rewrite rev_involutive, rev_app_distr, rev_involutive in Ht.
  rewrite <- (of_chars_chars s), Ht, of_chars_app. now rewrite of_chars_chars.
Qed.

(** A path that ends in [.kmz] is no image for [validateImageFile]. *)
Lemma kmz_is_no_image (s : string) :
  JsStr.endsWith s ".kmz" = true -> exists e, validateImageFile s = Throw e.
Proof.
  intros H. apply endsWith_split in H as (y & ->).
  destruct (last_segment_split y) as (g & stem & -> & Hg & Hstem).
  rewrite append_assoc.
  assert (Hext : Path.extname (g +:+ stem +:+ ".kmz") = ".kmz"
                 \/ Path.extname (g +:+ stem +:+ ".kmz") = "").
  { destruct stem as [| c stem].
    - right. now apply (extname_hidden g "kmz").
    - left. apply (extname_tail g (String c stem) "kmz"); try easy. }
  unfold validateImageFile. destruct Hext as [-> | ->]; simpl; eauto.
Qed.

Lemma inspect_is_image (w : World) (fs : FS) (input safe : string) (d : option ExifData) :
  Tour.inspect w fs input = Ok (safe, d) -> validateImageFile safe = Ok tt.
Proof.
  unfold Tour.inspect, bind.
  destruct (validateFilePath (cwd w) input) as [safe' | e]; [| discriminate].
  destruct (validateFileExists w fs safe') as [[] | e]; [| discriminate].
  destruct (validateImageFile safe') as [[] | e] eqn:Himage; [| discriminate].
  destruct (exifr_parse_at w fs safe' Tour.parseOptions) as [exifData | e]; [| discriminate].
  now intros [= <- _].
Qed.

(** The archive of [create_photo_tour_kmz] is never written over one of
    the photographs of the tour: a path that passes the handler's check
    for [.kmz] is refused by [validateImageFile], so it is the path of
    none of the entries. *)
Theorem archive_spares_the_photographs
        (w : World) (fs : FS) (a : Tour.Args) (safeOutputPath : string) :
  JsStr.endsWith safeOutputPath ".kmz" = true ->
  (exists e, validateImageFile safeOutputPath = Throw e) /\
  Forall (fun p => Tour.filepath p <> safeOutputPath) (Tour.photoData w fs a).
Proof.
  intros Hkmz. apply kmz_is_no_image in Hkmz as (e & Hkmz).
  split; [now exists e |].
  unfold Tour.photoData.
  apply (Permutation_Forall (Permutation_sym (sort_by_time_perm (Tour.collect w fs a)))).
  assert (Hentries : Forall (entry_of_input w fs a) (Tour.collect w fs a)).
  { unfold Tour.collect. apply collect_from_entries; [auto | constructor]. }
  eapply Forall_impl; [exact Hentries |].
  intros p ((input & d & _ & Hinspect) & _) Heq.
  apply inspect_is_image in Hinspect. congruence.
Qed.

Lemma archive_spares_the_photographs_witness :
  (exists e, validateImageFile "/srv/photos/tour.kmz" = Throw e) /\
  Forall (fun p => Tour.filepath p <> "/srv/photos/tour.kmz")
         (Tour.photoData Scenario.world Scenario.two_photos
                         (Scenario.tour_args ["late.jpg"; "early.jpg"])).
Proof.
  apply (archive_spares_the_photographs Scenario.world Scenario.two_photos
           (Scenario.tour_args ["late.jpg"; "early.jpg"]) "/srv/photos/tour.kmz").
  reflexivity.
Defined.

(** ** The clean-up of a name without underscores *)

Lemma squeeze_without_underscores (s : string) :
  all_chars (fun c => negb (Ascii.eqb c "_")) s = true ->
  JsStr.squeezeUnderscores s = s.
Proof.
  induction s as [| c s IH]; [reflexivity |].
  cbn [all_chars]. intros H. apply andb_true_iff in H as [Hc Hs].
  apply negb_true_iff in Hc. simpl. rewrite Hc. now rewrite (IH Hs).
Qed.

Lemma stripLeading_without_underscores (s : string) :
  all_chars (fun c => negb (Ascii.eqb c "_")) s = true -> JsStr.stripLeading_ s = s.
Proof.
  destruct s as [| c s]; [reflexivity |].
  cbn [all_chars]. intros H. apply andb_true_iff in H as [Hc _].
  apply negb_true_iff in Hc. simpl. now rewrite Hc.
Qed.

Lemma all_chars_forallb (p : ascii -> bool) (s : string) :
  all_chars p s = forallb p (JsStr.chars s).
Proof. induction s as [| c s IH]; [reflexivity |]. simpl. now rewrite IH. Qed.

Lemma strip_without_underscores (s : string) :
  all_chars (fun c => negb (Ascii.eqb c "_")) s = true ->
  JsStr.stripEdgeUnderscores s = s.
Proof.
  intros H. unfold JsStr.stripEdgeUnderscores.
  rewrite (stripLeading_without_underscores s H).
  rewrite stripLeading_without_underscores.
  - now rewrite chars_of_chars, rev_involutive, of_chars_chars.
  - rewrite all_chars_forallb, chars_of_chars. apply forallb_rev_true.
    now rewrite <- all_chars_forallb.
Qed.

Lemma replaceClass_length (cls : ascii -> bool) (s : string) :
  String.length (JsStr.replaceClass cls "_" s) = String.length s.
Proof.
  induction s as [| c s IH]; [reflexivity |].
  simpl. destruct (cls c); [rewrite length_append |]; simpl; now rewrite IH.
Qed.

(** The clean-up of a text that holds no underscore does nothing but
    put one underscore in the place of each character that is not a
    letter, a digit, a hyphen or a dot: the length stays, runs of such
    characters are not drawn together, and underscores that arise at the
    ends stay. *)
Theorem cleanup_replaces_one_for_one (s : string) :
  all_chars (fun c => negb (Ascii.eqb c "_")) s = true ->
  Rename.cleanName s = JsStr.replaceClass Rename.is_unsafe "_" s /\
  String.length (Rename.cleanName s) = String.length s.
Proof.
  intros H. unfold Rename.cleanName.
  rewrite (squeeze_without_underscores s H), (strip_without_underscores s H).
  split; [reflexivity | apply replaceClass_length].
Qed.

Lemma cleanup_replaces_one_for_one_witness :
  Rename.cleanName " IMG  0042 " = JsStr.replaceClass Rename.is_unsafe "_" " IMG  0042 " /\
  String.length (Rename.cleanName " IMG  0042 ") = String.length " IMG  0042 ".
Proof.
  apply (cleanup_replaces_one_for_one " IMG  0042 "). reflexivity.
Defined.

(** ** A position on the equator or on the prime meridian *)

Lemma replaceAll_from_miss (pat replacement : string) (before : list ascii)
      (c : ascii) (s : string) :
  String.prefix pat (String c s) = false ->
  JsStr.replaceAll_from pat replacement before 0 (String c s)
  = String c (JsStr.replaceAll_from pat replacement (c :: before) 0 s).
Proof. intros H. cbn [JsStr.replaceAll_from]. now rewrite H. Qed.

Lemma replaceAll_from_pieces (body replacement : string) (hit : Piece -> bool) :
  (forall s, hit (Text s) = false) ->
  (forall p, hit p = true ->
             show_piece p = String "{" body /\
             all_chars (fun c => negb (Ascii.eqb c "$")) replacement = true) ->
  (forall p rest, hit p = false ->
                  match p with
                  | Text _ => True
                  | _ => String.prefix (String "{" body) (show_piece p +:+ rest) = false
                  end) ->
  forall pieces, plain_texts pieces = true ->
  forall before,
    JsStr.replaceAll_from (String "{" body) replacement before 0 (position_template pieces)
    = after_pass hit replacement pieces.
Proof.
  intros Htext Hhit Hmiss.
  induction pieces as [| p rest IH]; intros Hplain before; [reflexivity |].
  cbn [plain_texts forallb] in Hplain. apply andb_true_iff in Hplain as [Hp Hrest].
  cbn [position_template after_pass].
  destruct (hit p) eqn:Hp_hit.
  - destruct (Hhit p Hp_hit) as [-> Hrep].
    rewrite replaceAll_from_match; [| discriminate | exact Hrep].
    now rewrite (IH Hrest).
  - pose proof (Hmiss p (position_template rest) Hp_hit) as Hno.
    destruct p as [s | | |].
    + cbn [show_piece].
      rewrite (replaceAll_from_passes "{" body replacement s _ Hp).
      now rewrite (IH Hrest).
    + change (show_piece LocationHole) with (String "{" "location}") in *.
      rewrite append_cons in *. rewrite (replaceAll_from_miss _ _ _ _ _ Hno).
      rewrite (replaceAll_from_passes "{" body replacement "location}" _ eq_refl).
      now rewrite (IH Hrest).
    + change (show_piece CityHole) with (String "{" "city}") in *.
      rewrite append_cons in *. rewrite (replaceAll_from_miss _ _ _ _ _ Hno).
      rewrite (replaceAll_from_passes "{" body replacement "city}" _ eq_refl).
      now rewrite (IH Hrest).
    + change (show_piece CountryHole) with (String "{" "country}") in *.
      rewrite append_cons in *. rewrite (replaceAll_from_miss _ _ _ _ _ Hno).
      rewrite (replaceAll_from_passes "{" body replacement "country}" _ eq_refl).
      now rewrite (IH Hrest).
Qed.

Lemma after_pass_none (replacement : string) (pieces : list Piece) :
  after_pass (fun _ => false) replacement pieces = position_template pieces.
Proof. induction pieces as [| p rest IH]; [reflexivity |]. simpl. now rewrite IH. Qed.

Lemma after_pass_erased (hit : Piece -> bool) (pieces : list Piece) :
  after_pass hit "" pieces
  = position_template (List.filter (fun p => negb (hit p)) pieces).
Proof.
  induction pieces as [| p rest IH]; [reflexivity |].
  simpl. destruct (hit p); simpl; now rewrite IH.
Qed.

Lemma plain_texts_filter (f : Piece -> bool) (pieces : list Piece) :
  plain_texts pieces = true -> plain_texts (List.filter f pieces) = true.
Proof.
  induction pieces as [| p rest IH]; [reflexivity |].
  cbn [plain_texts forallb]. intros H. apply andb_true_iff in H as [Hp Hrest].
  simpl. destruct (f p); [| now apply IH].
  cbn [plain_texts forallb]. rewrite Hp. now apply IH.
Qed.

(** A pattern that is none of the three placeholders leaves the
    template as it is. *)
Lemma replaceAll_other (body replacement : string) (pieces : list Piece) :
  (forall rest, String.prefix (String "{" body) ("{location}" +:+ rest) = false) ->
  (forall rest, String.prefix (String "{" body) ("{city}" +:+ rest) = false) ->
  (forall rest, String.prefix (String "{" body) ("{country}" +:+ rest) = false) ->
  plain_texts pieces = true ->
  JsStr.replaceAll (String "{" body) replacement (position_template pieces)
  = position_template pieces.
Proof.
  intros H1 H2 H3 Hplain. unfold JsStr.replaceAll.
  rewrite (replaceAll_from_pieces body replacement (fun _ => false));
    [apply after_pass_none | reflexivity | discriminate | | exact Hplain].
  intros [s | | |] rest _; [exact I | apply H1 | apply H2 | apply H3].
Qed.

(** An empty replacement takes its placeholder out of the template. *)
Lemma replaceAll_location (pieces : list Piece) :
  plain_texts pieces = true ->
  JsStr.replaceAll "{location}" "" (position_template pieces)
  = position_template (List.filter (fun p => negb (is_location p)) pieces).
Proof.
  intros Hplain. unfold JsStr.replaceAll.
  rewrite (replaceAll_from_pieces "location}" "" is_location);
    [apply after_pass_erased | reflexivity | | | exact Hplain].
  - intros [s | | |]; try discriminate. now split.
  - intros [s | | |] rest; try discriminate; intros _; [exact I | reflexivity | reflexivity].
Qed.

Lemma replaceAll_city (pieces : list Piece) :
  plain_texts pieces = true ->
  JsStr.replaceAll "{city}" "" (position_template pieces)
  = position_template (List.filter (fun p => negb (is_city p)) pieces).
Proof.
  intros Hplain. unfold JsStr.replaceAll.
  rewrite (replaceAll_from_pieces "city}" "" is_city);
    [apply after_pass_erased | reflexivity | | | exact Hplain].
  - intros [s | | |]; try discriminate. now split.
  - intros [s | | |] rest; try discriminate; intros _; [exact I | reflexivity | reflexivity].
Qed.

Lemma replaceAll_country (pieces : list Piece) :
  plain_texts pieces = true ->
  JsStr.replaceAll "{country}" "" (position_template pieces)
  = position_template (List.filter (fun p => negb (is_country p)) pieces).
Proof.
  intros Hplain. unfold JsStr.replaceAll.
  rewrite (replaceAll_from_pieces "country}" "" is_country);
    [apply after_pass_erased | reflexivity | | | exact Hplain].
  - intros [s | | |]; try discriminate. now split.
  - intros [s | | |] rest; try discriminate; intros _; [exact I | reflexivity | reflexivity].
Qed.

Lemma texts_of_erased (pieces : list Piece) :
  position_template
    (List.filter (fun p => negb (is_country p))
       (List.filter (fun p => negb (is_city p))
          (List.filter (fun p => negb (is_location p)) pieces)))
  = texts_of pieces.
Proof.
  induction pieces as [| [s | | |] rest IH]; [reflexivity | | | |]; simpl; now rewrite ?IH.
Qed.

Lemma texts_of_no_brace (pieces : list Piece) :
  plain_texts pieces = true -> no_brace (texts_of pieces) = true.
Proof.
  induction pieces as [| [s | | |] rest IH]; [reflexivity | | | |];
    cbn [plain_texts forallb texts_of]; intros H;
    apply andb_true_iff in H as [Hs Hrest]; try (now apply IH).
  unfold no_brace in *. rewrite all_chars_append, Hs. now apply IH.
Qed.

(** The chain of replacements on a template of pieces, for a file
    whose position strings are empty: the texts stay, the three
    placeholders go, whatever the other values are. *)
Lemma substitute_position_template
      (pieces : list Piece)
      (dateStr timeStr datetimeStr camera model lens originalName : string)
      (counter : float) :
  plain_texts pieces = true ->
  Rename.substitute (position_template pieces) dateStr timeStr datetimeStr camera model lens
                    "" "" "" originalName counter
  = texts_of pieces.
Proof.
  intros Hplain. unfold Rename.substitute.
  rewrite (replaceAll_other "date}" dateStr pieces) by (try reflexivity; exact Hplain).
  rewrite (replaceAll_other "time}" timeStr pieces) by (try reflexivity; exact Hplain).
  rewrite (replaceAll_other "datetime}" datetimeStr pieces)
    by (try reflexivity; exact Hplain).
  rewrite (replaceAll_other "camera}" camera pieces) by (try reflexivity; exact Hplain).
  rewrite (replaceAll_other "model}" model pieces) by (try reflexivity; exact Hplain).
  rewrite (replaceAll_other "lens}" lens pieces) by (try reflexivity; exact Hplain).
  rewrite (replaceAll_location pieces Hplain).
  rewrite replaceAll_city by (now apply plain_texts_filter).
  rewrite replaceAll_country by (now do 2 apply plain_texts_filter).
  rewrite texts_of_erased.
  pose proof (texts_of_no_brace pieces Hplain) as Hfree.
  rewrite (replaceAll_absent "{" "original}" originalName _ Hfree).
  apply (replaceAll_absent "{" "counter}" _ _ Hfree).
Qed.

(** C10. A photograph whose latitude or longitude is exactly zero is
    treated as one without a position: the tour's collection loop passes it
    over (list and numbering stay as they are), and [rename_by_exif] puts the
    empty string in place of [{location}], [{city}] and [{country}]: the
    three strings are empty, and in a template made of texts and these
    placeholders only the texts are left for the new name. *)
Theorem zero_coordinate_is_no_position (d : ExifData) :
  is_zero_coordinate (Exif.latitude d) \/ is_zero_coordinate (Exif.longitude d) ->
  (forall w fs a i acc input safe,
      Tour.inspect w fs input = Ok (safe, Some d) ->
      Tour.collect_item w fs a i acc input = acc) /\
  Rename.locationFields (Some d) = ("", "", "") /\
  (forall a now originalName counter,
      Rename.newNameOf a now (Some d) originalName counter
      = Rename.buildName a now (Some d) "" "" "" originalName counter) /\
  (forall a now originalName counter pieces,
      Rename.template a = position_template pieces ->
      plain_texts pieces = true ->
      Rename.newNameOf a now (Some d) originalName counter
      = Rename.cleanName (texts_of pieces)).
Proof.
  intros Hzero. pose proof (zero_coordinates_falsy d Hzero) as Hfalsy.
  assert (Hloc : Rename.locationFields (Some d) = ("", "", "")).
  { unfold Rename.locationFields. now rewrite Hfalsy. }
  split; [| split; [| split]].
  - intros w fs a i [photoData photoNumber] input safe Hinspect.
    unfold Tour.collect_item. now rewrite Hinspect, Hfalsy.
  - exact Hloc.
  - intros a now originalName counter. unfold Rename.newNameOf. now rewrite Hloc.
  - intros a now originalName counter pieces Htemplate Hplain.
    unfold Rename.newNameOf. rewrite Hloc. unfold Rename.buildName.
    rewrite Htemplate. now rewrite substitute_position_template.
Qed.

Lemma zero_coordinate_is_no_position_witness :
  let d := Scenario.exif (Some 0%float) (Some 3.25%float)
                         (Some Scenario.afternoon) (Some "Canon") None in
  (forall w fs a i acc input safe,
      Tour.inspect w fs input = Ok (safe, Some d) ->
      Tour.collect_item w fs a i acc input = acc) /\
  Rename.locationFields (Some d) = ("", "", "") /\
  (forall a now originalName counter,
      Rename.newNameOf a now (Some d) originalName counter
      = Rename.buildName a now (Some d) "" "" "" originalName counter) /\
  (forall a now originalName counter pieces,
      Rename.template a = position_template pieces ->
      plain_texts pieces = true ->
      Rename.newNameOf a now (Some d) originalName counter
      = Rename.cleanName (texts_of pieces)).
Proof.
  apply (zero_coordinate_is_no_position
           (Scenario.exif (Some 0%float) (Some 3.25%float)
                          (Some Scenario.afternoon) (Some "Canon") None)).
  left. exists 0%float. split; reflexivity.
Defined.

(** The same on a run: a photograph on the equator, and the same
    photograph a little north of it. *)
Example equator_scenario :
  let names fs :=
    option_map (fun r => match r with
                         | Ok (st, _) => map Rename.new (Rename.results st)
                         | Throw _ => []
                         end)
      (Rename.run Scenario.world fs
         (Scenario.rename_args ["p.jpg"] "at_{location}_in_{city}-{country}." true true)) in
  names (Scenario.folder [("/srv/photos/p.jpg", Scenario.equator_photo)] false)
  = Some [Some "at_in_-..jpg"] /\
  names (Scenario.folder [("/srv/photos/p.jpg", Scenario.beach_photo)] false)
  = Some [Some "at_6.5000_3.2500_in_Lagos-Nigeria..jpg"].
Proof. vm_compute. split; reflexivity. Qed.

(** The backup directory of a batch whose first path points outside the
    working directory. *)
Example backup_directory_outside_root :
  match Rename.run Scenario.world Scenario.two_photos
          (Scenario.rename_args ["../elsewhere/a.jpg"; "late.jpg"] "{date}" false true) with
  | Some (Ok (st, bd)) =>
      (bd, Fs.is_dir Scenario.two_photos "/srv/elsewhere",
       Fs.is_dir (Rename.fs st) "/srv/elsewhere/exif_backup_2024-07-09T15-30-22-000Z",
       map (fun o => (Rename.original o, Rename.new o, Rename.status o)) (Rename.results st))
  | _ => (None, true, false, [])
  end
  = (Some "../elsewhere/exif_backup_2024-07-09T15-30-22-000Z", false, true,
     [("a.jpg", None, Rename.error);
      ("late.jpg", Some "2024-07-09.jpg", Rename.renamed)]).
Proof. vm_compute. reflexivity. Qed.
